(** * Cursor-Maker: the frame-timeline compositor and the CUR/ANI codec

    A shallow embedding of the logic of [cursor-editor/src/App.tsx]:
    the layer stack operations, the per-layer frame clock of [drawLayer],
    the canvas transform chain, the RIFF/ACON chunk walk of [parseAniFile],
    the static-file sniffing of [parseFile], and the CUR/ANI writers of
    [generateExportBlob] and [download].

    Conventions.
    - A JavaScript [number] that the program only ever uses as an integer
      (byte offsets, sizes, hotspot coordinates, ANI rates) is a [Z].
    - Frame delays, elapsed time and the transform sliders are fractional.
      A finite number is the rational [Q] it denotes.  The arithmetic of
      the frame clock, of the export's time offsets and of the hotspot
      click is the arithmetic of binary64 ([Double]): every operation
      rounds its exact result to the nearest double, ties to even, and
      overflows to an infinity; [NaN] and the infinities are values of
      [Double.number].  The conversion between a rate and a delay works
      on the exact rationals ([Decode.frameDelay], [Encode.toRate]).
    - Canvas matrices need sine and cosine and live in [R].
    - Bytes are [Byte.byte]; a [Uint8Array]/[ArrayBuffer] is a [list byte].
    - A thrown exception is the [Throw] result of the [Js] monad. *)

From Stdlib Require Import List ZArith QArith Qround Qabs Qpower Qcanon Bool Lia Lqa String Ascii.
From Stdlib Require Import Strings.Byte Permutation.
From Stdlib Require Import Reals Lra.
Import ListNotations.


(* ===================================================================== *)
(** ** JavaScript numbers *)
(* ===================================================================== *)

Module Num.

Local Open Scope Q_scope.

(** [Math.trunc] on a rational: rounding towards zero. *)
Definition trunc (q : Q) : Z := Z.quot (Qnum q) (Zpos (Qden q)).

(** The [%] operator: the result takes the sign of the dividend,
    [a % b = a - b * trunc (a / b)], and [a % 0] is [NaN]. *)
Definition rem (a b : Q) : option Q :=
  if Qeq_bool b 0 then None
  else Some (a - b * inject_Z (trunc (a / b))).

(** [a < b] as the strict comparison of two finite numbers. *)
Definition ltb (a b : Q) : bool := negb (Qle_bool b a).

(** [Math.round]: the nearest integer, ties towards +infinity. *)
Definition round (q : Q) : Z := Qfloor (q + (1 # 2)).

End Num.

(* ===================================================================== *)
(** ** Binary64 arithmetic *)
(* ===================================================================== *)

(** The values of the JavaScript type [number] and the operations the
    program applies to them where the rounding matters.  A finite value
    is kept as the rational it denotes, in lowest terms; the sign of a
    zero is not kept (no operation of the modelled code tells [-0] from
    [+0] except a division by zero, where the zero is taken as [+0]). *)
Module Double.

Local Open Scope Q_scope.

Inductive number :=
| fin (q : Q)
| inf (negative : bool)
| nan.

Definition pow2 (e : Z) : Q := Qpower 2 e.

(** The nearest integer to a rational that is not negative, the even
    one of the two when the rational lies half way. *)
Definition rne (q : Q) : Z :=
  let f := Qfloor q in
  match Qcompare (q - inject_Z f) (1 # 2) with
  | Lt => f
  | Gt => (f + 1)%Z
  | Eq => if Z.even f then f else (f + 1)%Z
  end.

(** The exponent [e] of the leading bit of a positive rational:
    [2^e <= a < 2^(e+1)]. *)
Definition ilog2 (a : Q) : Z :=
  let e0 := (Z.log2 (Qnum a) - Z.log2 (Zpos (Qden a)))%Z in
  if Qle_bool (pow2 e0) a then e0 else (e0 - 1)%Z.

(** Rounding to binary64: 53 significant bits, the least exponent of the
    last bit is -1074 (gradual underflow), and a result of [2^1024] or
    more is an infinity. *)
Definition round64 (q : Q) : number :=
  let q := Qred q in
  if Qeq_bool q 0 then fin 0
  else
    let a := Qabs q in
    let e := Z.max (ilog2 a - 52) (-1074) in
    let r := inject_Z (rne (a / pow2 e)) * pow2 e in
    if Qle_bool (pow2 1024) r then inf (Qle_bool q 0)
    else fin (Qred (if Qle_bool 0 q then r else - r)).

Definition isNeg (q : Q) : bool := negb (Qle_bool 0 q).

Definition opp (x : number) : number :=
  match x with
  | fin q => fin (Qred (- q))
  | inf s => inf (negb s)
  | nan => nan
  end.

(** [x + y] *)
Definition add (x y : number) : number :=
  match x, y with
  | nan, _ | _, nan => nan
  | inf s, inf s' => if Bool.eqb s s' then inf s else nan
  | inf s, fin _ | fin _, inf s => inf s
  | fin a, fin b => round64 (a + b)
  end.

(** [x - y] *)
Definition sub (x y : number) : number := add x (opp y).

(** [x * y] *)
Definition mul (x y : number) : number :=
  match x, y with
  | nan, _ | _, nan => nan
  | inf s, inf s' => inf (xorb s s')
  | inf s, fin q | fin q, inf s =>
      if Qeq_bool q 0 then nan else inf (xorb s (isNeg q))
  | fin a, fin b => round64 (a * b)
  end.

(** [x / y] *)
Definition div (x y : number) : number :=
  match x, y with
  | nan, _ | _, nan => nan
  | inf _, inf _ => nan
  | inf s, fin q => inf (xorb s (isNeg q))
  | fin _, inf _ => fin 0
  | fin a, fin b =>
      if Qeq_bool b 0 then (if Qeq_bool a 0 then nan else inf (isNeg a))
      else round64 (a / b)
  end.

(** [x < y]: false as soon as one side is [NaN]. *)
Definition ltb (x y : number) : bool :=
  match x, y with
  | nan, _ | _, nan => false
  | inf true, inf true => false
  | inf true, _ => true
  | _, inf true => false
  | inf false, _ => false
  | fin _, inf false => true
  | fin a, fin b => Num.ltb a b
  end.

(** [x % y]: the remainder is exact (it is a double whenever [x] and [y]
    are), it takes the sign of [x], a finite [x] is its own remainder
    by an infinity, and every other case is [NaN]. *)
Definition rem (x y : number) : number :=
  match x, y with
  | fin a, fin b =>
      match Num.rem a b with
      | Some r => fin (Qred r)
      | None => nan
      end
  | fin a, inf _ => fin (Qred a)
  | _, _ => nan
  end.

(** [Math.floor(x)] *)
Definition floor (x : number) : number :=
  match x with
  | fin q => fin (inject_Z (Qfloor q))
  | _ => x
  end.

End Double.

(** A rational stands for the finite number it denotes. *)
Coercion Double.fin : Q >-> Double.number.
Bind Scope Q_scope with Double.number.

(* ===================================================================== *)
(** ** Data model (the interfaces at the top of App.tsx) *)
(* ===================================================================== *)

(** The MIME type given to a [Blob]; the program uses these two. *)
Inductive MimeType := image_png | image_x_icon.

Record Blob := { blob_bytes : list byte; blob_type : MimeType }.

(** [ImageBitmap | HTMLImageElement]: what the program reads from a decoded
    image is its pixel size; the pixels stay behind [img_src]. *)
Record Image := { img_src : Blob; img_width : Z; img_height : Z }.

Record FrameData := { image : Image; delay : Q }.

(** [TransformConfig]; each field carries the prefix [cfg_]. *)
Record TransformConfig :=
  { cfg_x : Q; cfg_y : Q; cfg_scale : Q; cfg_rotation : Q; cfg_opacity : Q }.

(** [Layer]; [id] and [name] are [layer_id] and [layer_name], and the
    optional [isBase?: boolean] is an [option bool]. *)
Record Layer :=
  { layer_id : string;
    layer_name : string;
    frames : list FrameData;
    config : TransformConfig;
    visible : bool;
    locked : bool;
    isBase : option bool }.

Record Hotspot := { hot_x : Z; hot_y : Z }.

Record CursorState :=
  { layers : list Layer;
    hotspot : Hotspot;
    outputSize : Z;
    fileName : string }.

Definition DEFAULT_TRANSFORM : TransformConfig :=
  {| cfg_x := 0; cfg_y := 0; cfg_scale := 1; cfg_rotation := 0;
     cfg_opacity := 1 |}.

Definition createBaseLayer : Layer :=
  {| layer_id := "base"; layer_name := "Base Layer"; frames := [];
     config := DEFAULT_TRANSFORM; visible := true; locked := false;
     isBase := Some true |}.

Definition DEFAULT_CURSOR_STATE : CursorState :=
  {| layers := [createBaseLayer];
     hotspot := {| hot_x := 0; hot_y := 0 |};
     outputSize := 32;
     fileName := "" |}.

(** Truthiness of the optional flag, as in [!layer.isBase]. *)
Definition truthy (b : option bool) : bool :=
  match b with Some true => true | _ => false end.

(* ===================================================================== *)
(** ** The per-layer frame clock (first half of [drawLayer]) *)
(* ===================================================================== *)

Module Timeline.

Import Double.
Local Open Scope Q_scope.

(** [layer.frames.reduce((a,b) => a+b.delay, 0)] *)
Definition total (fs : list FrameData) : number :=
  fold_left (fun a b => add a (fin (delay b))) fs (fin 0).

(** The [for (const f of layer.frames)] scan with its running
    [t -= f.delay]: [frame] keeps its initial value when no frame
    matches. *)
Fixpoint scan (fs : list FrameData) (t : number) (frame : FrameData)
  : FrameData :=
  match fs with
  | [] => frame
  | f :: rest =>
      if ltb t (fin (delay f)) then f
      else scan rest (sub t (fin (delay f))) frame
  end.

(** The frame [drawLayer] draws at [time]; [None] where [drawLayer]
    returns early because the layer has no frame. *)
Definition activeFrame (fs : list FrameData) (time : number)
  : option FrameData :=
  match fs with
  | [] => None
  | frame :: _ =>
      if (1 <? List.length fs)%nat
      then Some (scan fs (rem time (total fs)) frame)
      else Some frame
  end.

(** A timeline given by its durations; frame [i] carries image number [i]. *)
Definition still (i : nat) : Image :=
  {| img_src := {| blob_bytes := repeat x00 i; blob_type := image_png |};
     img_width := 32; img_height := 32 |}.

Fixpoint timelineFrom (i : nat) (ds : list Q) : list FrameData :=
  match ds with
  | [] => []
  | d :: rest => {| image := still i; delay := d |} :: timelineFrom (S i) rest
  end.

Definition timeline (ds : list Q) : list FrameData := timelineFrom 0 ds.

End Timeline.

(* ===================================================================== *)
(** ** Exceptions and loops *)
(* ===================================================================== *)

(** The exceptions the modelled code can raise. *)
Inductive Error :=
| InvalidANI      (* [throw new Error("Invalid ANI")] *)
| RangeError      (* a [DataView] access outside the buffer *)
| TypeError.      (* a property read on [undefined] *)

(** The outcome of running a piece of the program: a value, a thrown
    exception, or [OutOfFuel] when the model's loop budget is exhausted
    before the loop condition turns false. *)
Inductive Js (A : Type) : Type :=
| Ok (a : A)
| Throw (e : Error)
| OutOfFuel.

Arguments Ok {A} a.
Arguments Throw {A} e.
Arguments OutOfFuel {A}.

Definition bind {A B : Type} (m : Js A) (k : A -> Js B) : Js B :=
  match m with
  | Ok a => k a
  | Throw e => Throw e
  | OutOfFuel => OutOfFuel
  end.

Declare Scope js_scope.
Delimit Scope js_scope with js.
Notation "x <- m ;; k" := (bind m (fun x => k))
  (at level 61, m at next level, right associativity) : js_scope.

(** [while (cond) body] on an explicit state. *)
Fixpoint while {S : Type} (fuel : nat) (cond : S -> bool) (body : S -> Js S)
    (s : S) : Js S :=
  match fuel with
  | O => OutOfFuel
  | Datatypes.S fuel' =>
      if cond s then
        match body s with
        | Ok s' => while fuel' cond body s'
        | Throw e => Throw e
        | OutOfFuel => OutOfFuel
        end
      else Ok s
  end.

(* ===================================================================== *)
(** ** Typed arrays and [DataView] *)
(* ===================================================================== *)

Module Bytes.

Local Open Scope Z_scope.

Definition u8 (b : byte) : Z := Z.of_N (Byte.to_N b).

(** Storing a number into a [Uint8Array] element keeps it modulo 256. *)
Definition toUint8 (z : Z) : byte :=
  match Byte.of_N (Z.to_N (z mod 256)) with
  | Some b => b
  | None => x00
  end.

Definition len (bs : list byte) : Z := Z.of_nat (List.length bs).

(** [bytes[i]]: [undefined] (here [None]) outside the array. *)
Definition get (bs : list byte) (i : Z) : option Z :=
  if i <? 0 then None else option_map u8 (nth_error bs (Z.to_nat i)).

(** [bytes[i] === v] *)
Definition byteIs (bs : list byte) (i v : Z) : bool :=
  match get bs i with
  | Some b => b =? v
  | None => false
  end.

(** [bytes.slice(a, b)] for [0 <= a]: both ends are clamped to the
    length, and an end before the start gives the empty array. *)
Definition slice (bs : list byte) (a b : Z) : list byte :=
  let a' := Z.min a (len bs) in
  let b' := Z.min b (len bs) in
  firstn (Z.to_nat (b' - a')) (skipn (Z.to_nat a') bs).

(** [bytes.slice(a)] *)
Definition sliceFrom (bs : list byte) (a : Z) : list byte :=
  slice bs a (len bs).

Fixpoint eqb (xs ys : list byte) : bool :=
  match xs, ys with
  | [], [] => true
  | x :: xs', y :: ys' => Byte.eqb x y && eqb xs' ys'
  | _, _ => false
  end.

(** [new TextEncoder().encode(s)] for an ASCII literal. *)
Definition strToBytes (s : string) : list byte := list_byte_of_string s.

(** [new TextDecoder().decode(bs) === s] for a four-letter ASCII literal
    [s] and at most four bytes [bs]: the UTF-8 decoding of [bs] is [s]
    exactly when [bs] are the bytes of [s]. *)
Definition decodesTo (bs : list byte) (s : string) : bool :=
  eqb bs (strToBytes s).

(** [DataView.getUint32(off, true)] *)
Definition getUint32 (bs : list byte) (off : Z) : Js Z :=
  if (off <? 0) || (len bs <? off + 4) then Throw RangeError
  else
    match get bs off, get bs (off + 1), get bs (off + 2), get bs (off + 3) with
    | Some b0, Some b1, Some b2, Some b3 =>
        Ok (b0 + 256 * b1 + 65536 * b2 + 16777216 * b3)
    | _, _, _, _ => Throw RangeError
    end.

(** [DataView.getUint16(off, true)]; the program never calls it, the
    layout statements read the fields it writes with it. *)
Definition getUint16 (bs : list byte) (off : Z) : Js Z :=
  if (off <? 0) || (len bs <? off + 2) then Throw RangeError
  else
    match get bs off, get bs (off + 1) with
    | Some b0, Some b1 => Ok (b0 + 256 * b1)
    | _, _ => Throw RangeError
    end.

(** Overwrite [src] into [dst] from index [off] on ([Uint8Array.set]);
    [off + length src] stays within [dst] at each call in the program
    (the other case raises a [RangeError] in JavaScript). *)
Definition setBytes (dst src : list byte) (off : nat) : list byte :=
  firstn off dst ++ src ++ skipn (off + List.length src) dst.

Definition setUint8 (buf : list byte) (off : nat) (v : Z) : list byte :=
  setBytes buf [toUint8 v] off.

(** [DataView.setUint16(off, v, true)]: [v] modulo 2^16, low byte first. *)
Definition setUint16 (buf : list byte) (off : nat) (v : Z) : list byte :=
  setBytes buf [toUint8 v; toUint8 (v / 256)] off.

(** [DataView.setUint32(off, v, true)]: [v] modulo 2^32, low byte first. *)
Definition setUint32 (buf : list byte) (off : nat) (v : Z) : list byte :=
  setBytes buf [toUint8 v; toUint8 (v / 256); toUint8 (v / 65536);
           toUint8 (v / 16777216)] off.

(** [new Uint8Array(n)] / [new ArrayBuffer(n)]: [n] zero bytes. *)
Definition zeros (n : nat) : list byte := repeat x00 n.

End Bytes.

(* ===================================================================== *)
(** ** Decoding: [parseAniFile] and the static branch of [parseFile] *)
(* ===================================================================== *)

Module Decode.

Import Bytes.
Local Open Scope Z_scope.
Local Open Scope js_scope.

(** The local variables of [parseAniFile]'s chunk walk. *)
Record Walk :=
  { pos : Z;
    defaultRate : Z;
    rates : list Z;
    iconChunks : list (list byte) }.

(** One pass of [while (ip < end-8)] inside a [LIST]/[fram] chunk. *)
Definition framCond (end_ : Z) (st : Z * list (list byte)) : bool :=
  fst st <? end_ - 8.

Definition framBody (bytes : list byte) (st : Z * list (list byte))
  : Js (Z * list (list byte)) :=
  let '(ip, icons) := st in
  let iid := slice bytes ip (ip + 4) in
  isz <- getUint32 bytes (ip + 4) ;;
  let ip := ip + 8 in
  let icons :=
    if decodesTo iid "icon" then icons ++ [slice bytes ip (ip + isz)]
    else icons in
  Ok (ip + isz + isz mod 2, icons).

(** One pass of [for (let i=0; i<size/4; i++)] on a [rate] chunk; the
    division is exact in JavaScript, so [i < size/4] is [4*i < size]. *)
Definition rateCond (size : Z) (st : Z * list Z) : bool :=
  4 * fst st <? size.

Definition rateBody (bytes : list byte) (pos : Z) (st : Z * list Z)
  : Js (Z * list Z) :=
  let '(i, rates) := st in
  r <- getUint32 bytes (pos + i * 4) ;;
  Ok (i + 1, rates ++ [r]).

(** One pass of the top-level [while (pos < bytes.length - 8)]. *)
Definition chunkCond (bytes : list byte) (st : Walk) : bool :=
  pos st <? len bytes - 8.

Definition chunkBody (fuel : nat) (bytes : list byte) (st : Walk) : Js Walk :=
  let id := slice bytes (pos st) (pos st + 4) in
  size <- getUint32 bytes (pos st + 4) ;;
  let pos := pos st + 8 in
  st' <-
    (if decodesTo id "anih" && (36 <=? size) then
       r <- getUint32 bytes (pos + 28) ;;
       Ok {| pos := pos; defaultRate := r; rates := rates st;
             iconChunks := iconChunks st |}
     else if decodesTo id "rate" then
       out <- while fuel (rateCond size) (rateBody bytes pos) (0, rates st) ;;
       Ok {| pos := pos; defaultRate := defaultRate st; rates := snd out;
             iconChunks := iconChunks st |}
     else if decodesTo id "LIST" then
       if decodesTo (slice bytes pos (pos + 4)) "fram" then
         out <- while fuel (framCond (pos + size)) (framBody bytes)
                  (pos + 4, iconChunks st) ;;
         Ok {| pos := pos; defaultRate := defaultRate st; rates := rates st;
               iconChunks := snd out |}
       else
         Ok {| pos := pos; defaultRate := defaultRate st; rates := rates st;
               iconChunks := iconChunks st |}
     else
       Ok {| pos := pos; defaultRate := defaultRate st; rates := rates st;
             iconChunks := iconChunks st |}) ;;
  Ok {| pos := pos + size + size mod 2; defaultRate := defaultRate st';
        rates := rates st'; iconChunks := iconChunks st' |}.

(** The bytes of the buffer that lie after a position; each loop of the
    walk lowers it. *)
Definition left (bytes : list byte) (p : Z) : nat :=
  Z.to_nat (len bytes - p).

Definition walkStart : Walk :=
  {| pos := 12; defaultRate := 60; rates := []; iconChunks := [] |}.

(** The chunk walk, with one loop budget for the three loops. *)
Definition walk (fuel : nat) (bytes : list byte) : Js Walk :=
  if negb (decodesTo (slice bytes 0 4) "RIFF") then Throw InvalidANI
  else while fuel (chunkCond bytes) (chunkBody fuel bytes) walkStart.

(** The delay of icon number [i]:
    [(i < rates.length ? rates[i] : defaultRate) * (1000/60)]. *)
Definition frameDelay (st : Walk) (i : nat) : Q :=
  (inject_Z (nth i (rates st) (defaultRate st)) * (1000 / 60))%Q.

(** The MIME type [parseAniFile] gives an icon payload. *)
Definition iconType (chunk : list byte) : MimeType :=
  if byteIs chunk 0 0 && byteIs chunk 2 2 then image_x_icon else image_png.

Section WithImageLoader.

(** The browser's image decoder: the [Image] whose [onload] fires for a
    blob.  The program waits for that event and has no other path. *)
Variable loadImage : Blob -> Image.

Fixpoint framesFrom (st : Walk) (i : nat) (chunks : list (list byte))
  : list FrameData :=
  match chunks with
  | [] => []
  | chunk :: rest =>
      {| image := loadImage {| blob_bytes := chunk;
                               blob_type := iconType chunk |};
         delay := frameDelay st i |}
        :: framesFrom st (S i) rest
  end.

Definition parseAniFileWith (fuel : nat) (bytes : list byte)
  : Js (list FrameData) :=
  st <- walk fuel bytes ;;
  Ok (framesFrom st 0 (iconChunks st)).

(** [parseAniFile]: every loop of the walk consumes at least four
    bytes of the buffer per pass, so the length of the buffer (plus
    one) is budget enough; see [DecodeFacts.walk_total]. *)
Definition parseAniFile (bytes : list byte) : Js (list FrameData) :=
  parseAniFileWith (S (List.length bytes)) bytes.

(** The test [bytes[0] === 0 && bytes[1] === 0 && bytes[2] === 2 &&
    bytes[3] === 0] of [parseFile]. *)
Definition isCursorDirectory (bytes : list byte) : bool :=
  byteIs bytes 0 0 && byteIs bytes 1 0 && byteIs bytes 2 2 && byteIs bytes 3 0.

(** [bytes[i] === 0x89 && bytes[i + 1] === 0x50] *)
Definition hit (bytes : list byte) (i : Z) : bool :=
  byteIs bytes i 137 && byteIs bytes (i + 1) 80.

(** [for (let i = 0; i < bytes.length - 8; i++)] with that test; [n]
    counts the passes that are left. *)
Fixpoint scanPng (bytes : list byte) (i : Z) (n : nat) : option Z :=
  match n with
  | O => None
  | S n' =>
      if hit bytes i then Some i
      else scanPng bytes (i + 1) n'
  end.

Definition findPng (bytes : list byte) : option Z :=
  scanPng bytes 0 (Z.to_nat (len bytes - 8)).

(** The blob the static branch hands to the image decoder. *)
Definition staticBlob (bytes : list byte) : Blob :=
  if isCursorDirectory bytes then
    match findPng bytes with
    | Some i => {| blob_bytes := sliceFrom bytes i; blob_type := image_png |}
    | None => {| blob_bytes := bytes; blob_type := image_x_icon |}
    end
  else {| blob_bytes := bytes; blob_type := image_png |}.

(** The static (PNG/CUR/ICO) branch of [parseFile]. *)
Definition parseStatic (bytes : list byte) : list FrameData :=
  [ {| image := loadImage (staticBlob bytes); delay := 100 |} ].

(** [parseFile] on the lower-cased extension and the file content.
    The GIF branch hands the file to the external gifuct-js decoder
    and is not part of this model. *)
Definition parseFile (ext : string) (bytes : list byte) : Js (list FrameData) :=
  if String.eqb ext "ani" then parseAniFile bytes
  else Ok (parseStatic bytes).

End WithImageLoader.

End Decode.

(* ===================================================================== *)
(** ** The 2D drawing surface *)
(* ===================================================================== *)

(** The part of [CanvasRenderingContext2D] that [drawLayer] and [draw]
    drive: the current transformation matrix, the alpha, the image
    smoothing flag, the save/restore stack, and the list of images drawn
    so far.  Each transform call multiplies the
    current matrix on the right, as the canvas specification says, so a
    point of the local frame goes through the calls in reverse order. *)
Module Canvas.

Local Open Scope R_scope.

(** The matrix [[a c e] [b d f] [0 0 1]]. *)
Record Matrix := { ma : R; mb : R; mc : R; md : R; me : R; mf : R }.

Definition identity : Matrix :=
  {| ma := 1; mb := 0; mc := 0; md := 1; me := 0; mf := 0 |}.

(** Where the matrix sends the local point [(px, py)]. *)
Definition apply (m : Matrix) (p : R * R) : R * R :=
  (ma m * fst p + mc m * snd p + me m,
   mb m * fst p + md m * snd p + mf m).

Definition mtranslate (m : Matrix) (tx ty : R) : Matrix :=
  {| ma := ma m; mb := mb m; mc := mc m; md := md m;
     me := ma m * tx + mc m * ty + me m;
     mf := mb m * tx + md m * ty + mf m |}.

Definition mrotate (m : Matrix) (angle : R) : Matrix :=
  {| ma := ma m * cos angle + mc m * sin angle;
     mb := mb m * cos angle + md m * sin angle;
     mc := mc m * cos angle - ma m * sin angle;
     md := md m * cos angle - mb m * sin angle;
     me := me m; mf := mf m |}.

Definition mscale (m : Matrix) (sx sy : R) : Matrix :=
  {| ma := ma m * sx; mb := mb m * sx; mc := mc m * sy; md := md m * sy;
     me := me m; mf := mf m |}.

(** One [drawImage(image, dx, dy)] with the state it was issued under. *)
Record DrawOp :=
  { op_image : Image; op_dx : R; op_dy : R; op_ctm : Matrix; op_alpha : R;
    op_smoothing : bool }.

Record Context :=
  { ctm : Matrix;
    globalAlpha : R;
    imageSmoothingEnabled : bool;
    saved : list (Matrix * R * bool);
    drawn : list DrawOp;
    canvasWidth : Z;
    canvasHeight : Z }.

(** A fresh canvas of the given size ([document.createElement('canvas')]
    followed by the two size assignments); a new context smooths
    images. *)
Definition create (w h : Z) : Context :=
  {| ctm := identity; globalAlpha := 1; imageSmoothingEnabled := true;
     saved := []; drawn := [];
     canvasWidth := w; canvasHeight := h |}.

Definition save (c : Context) : Context :=
  {| ctm := ctm c; globalAlpha := globalAlpha c;
     imageSmoothingEnabled := imageSmoothingEnabled c;
     saved := (ctm c, globalAlpha c, imageSmoothingEnabled c) :: saved c;
     drawn := drawn c;
     canvasWidth := canvasWidth c; canvasHeight := canvasHeight c |}.

Definition restore (c : Context) : Context :=
  match saved c with
  | [] => c
  | (m, a, s) :: rest =>
      {| ctm := m; globalAlpha := a; imageSmoothingEnabled := s;
         saved := rest; drawn := drawn c;
         canvasWidth := canvasWidth c; canvasHeight := canvasHeight c |}
  end.

Definition withCtm (c : Context) (m : Matrix) : Context :=
  {| ctm := m; globalAlpha := globalAlpha c;
     imageSmoothingEnabled := imageSmoothingEnabled c;
     saved := saved c; drawn := drawn c;
     canvasWidth := canvasWidth c; canvasHeight := canvasHeight c |}.

Definition translate (c : Context) (tx ty : R) : Context :=
  withCtm c (mtranslate (ctm c) tx ty).

Definition rotate (c : Context) (angle : R) : Context :=
  withCtm c (mrotate (ctm c) angle).

Definition scale (c : Context) (sx sy : R) : Context :=
  withCtm c (mscale (ctm c) sx sy).

(** The range test of the [globalAlpha] setter. *)
Definition inUnitRange (a : Q) : bool := Qle_bool 0 a && Qle_bool a 1.

(** [ctx.globalAlpha = a]: the canvas keeps a value from 0 to 1 and
    ignores the assignment of any other. *)
Definition setGlobalAlpha (c : Context) (a : Q) : Context :=
  if inUnitRange a then
    {| ctm := ctm c; globalAlpha := Q2R a;
       imageSmoothingEnabled := imageSmoothingEnabled c;
       saved := saved c; drawn := drawn c;
       canvasWidth := canvasWidth c; canvasHeight := canvasHeight c |}
  else c.

(** [ctx.imageSmoothingEnabled = b] *)
Definition setImageSmoothing (c : Context) (b : bool) : Context :=
  {| ctm := ctm c; globalAlpha := globalAlpha c;
     imageSmoothingEnabled := b;
     saved := saved c; drawn := drawn c;
     canvasWidth := canvasWidth c; canvasHeight := canvasHeight c |}.

Definition drawImage (c : Context) (img : Image) (dx dy : R) : Context :=
  {| ctm := ctm c; globalAlpha := globalAlpha c;
     imageSmoothingEnabled := imageSmoothingEnabled c;
     saved := saved c;
     drawn := drawn c ++
              [ {| op_image := img; op_dx := dx; op_dy := dy;
                   op_ctm := ctm c; op_alpha := globalAlpha c;
                   op_smoothing := imageSmoothingEnabled c |} ];
     canvasWidth := canvasWidth c; canvasHeight := canvasHeight c |}.

(** [clearRect(0, 0, width, height)] under the identity matrix: the
    whole surface becomes transparent again. *)
Definition clearAll (c : Context) : Context :=
  {| ctm := ctm c; globalAlpha := globalAlpha c;
     imageSmoothingEnabled := imageSmoothingEnabled c;
     saved := saved c; drawn := [];
     canvasWidth := canvasWidth c; canvasHeight := canvasHeight c |}.

(** The canvas position of the middle of a drawn image: the image of
    the local point [(dx + width/2, dy + height/2)]. *)
Definition centre (op : DrawOp) : R * R :=
  apply (op_ctm op)
    (op_dx op + IZR (img_width (op_image op)) / 2,
     op_dy op + IZR (img_height (op_image op)) / 2).

(** The second half of [drawLayer]: the transform chain and the draw. *)
Definition paint (ctx : Context) (l : Layer) (frame : FrameData) (size : Z)
  : Context :=
  let ctx := save ctx in
  let ctx := translate ctx (IZR size / 2) (IZR size / 2) in
  let ctx := translate ctx (Q2R (cfg_x (config l))) (Q2R (cfg_y (config l))) in
  let ctx := rotate ctx (Q2R (cfg_rotation (config l)) * PI / 180) in
  let ctx := scale ctx (Q2R (cfg_scale (config l)))
               (Q2R (cfg_scale (config l))) in
  let ctx := setGlobalAlpha ctx (cfg_opacity (config l)) in
  let ctx := drawImage ctx (image frame)
               (- IZR (img_width (image frame)) / 2)
               (- IZR (img_height (image frame)) / 2) in
  restore ctx.

(** The closed form of the matrix that the chain of [paint] builds on a
    canvas whose matrix is the identity ([CanvasFacts.paint_drawn]):
    the translation by the canvas middle plus the layer offset, and the
    rotation and the scaling about that point. *)
Definition layerMatrix (l : Layer) (size : Z) : Matrix :=
  let s := Q2R (cfg_scale (config l)) in
  let a := Q2R (cfg_rotation (config l)) * PI / 180 in
  {| ma := s * cos a; mb := s * sin a;
     mc := - (s * sin a); md := s * cos a;
     me := IZR size / 2 + Q2R (cfg_x (config l));
     mf := IZR size / 2 + Q2R (cfg_y (config l)) |}.

Definition drawLayer (ctx : Context) (l : Layer) (time : Double.number)
    (size : Z) : Context :=
  if negb (visible l) || (List.length (frames l) =? 0)%nat then ctx
  else
    match Timeline.activeFrame (frames l) time with
    | Some frame => paint ctx l frame size
    | None => ctx
    end.

(** [layers.forEach(l => drawLayer(ctx, l, time, size))] *)
Definition drawLayers (ctx : Context) (ls : list Layer) (time : Double.number)
    (size : Z) : Context :=
  fold_left (fun c l => drawLayer c l time size) ls ctx.

(** [draw(ctx, size, time, layers, null, false)]: the call of [download],
    without hotspot marker and without guides.  It clears the canvas,
    turns image smoothing off and draws the layers. *)
Definition draw (ctx : Context) (size : Z) (time : Double.number)
    (ls : list Layer) : Context :=
  drawLayers (setImageSmoothing (clearAll ctx) false) ls time size.

End Canvas.

(* ===================================================================== *)
(** ** Encoding: [generateExportBlob] and [download] *)
(* ===================================================================== *)

Module Encode.

Import Bytes.

Inductive Format := png | cur | ani.

Definition isAni (f : Format) : bool :=
  match f with ani => true | _ => false end.

Definition isPng (f : Format) : bool :=
  match f with png => true | _ => false end.

(** The [forEach] that picks [maxFrames] and [masterLayer]; the state
    starts at [(1, activeLayers[0])], and [activeLayers[0]] is
    [undefined] (here [None]) on an empty stack. *)
Definition pickStep (st : nat * option Layer) (l : Layer) : nat * option Layer :=
  if (fst st <? List.length (frames l))%nat
  then (List.length (frames l), Some l)
  else st.

Definition pickMaster (ls : list Layer) : nat * option Layer :=
  fold_left pickStep ls (1%nat, hd_error ls).

(** [masterLayer.frames[k % masterLayer.frames.length].delay] *)
Definition masterDelay (master : Layer) (k : nat) : Q :=
  match nth_error (frames master) (k mod List.length (frames master)) with
  | Some f => delay f
  | None => 0
  end.

(** [for(let k=0; k<i; k++) time += ...]: the running sum of doubles. *)
Definition timeOffset (master : Layer) (i : nat) : Double.number :=
  if (0 <? List.length (frames master))%nat
  then fold_left (fun t k => Double.add t (Double.fin (masterDelay master k)))
         (seq 0 i) (Double.fin 0)
  else Double.fin 0.

(** [const d = ...]: the delay in milliseconds exported for pass [i]. *)
Definition passDelay (master : Layer) (i : nat) : Q :=
  if (0 <? List.length (frames master))%nat then masterDelay master i
  else 100%Q.

(** [Math.max(1, Math.round(d / 16.666))] *)
Definition toRate (d : Q) : Z :=
  Z.max 1 (Num.round (d / (16666 # 1000))%Q).

(** The 22-byte cursor directory followed by the PNG bytes. *)
Definition curBytes (data : CursorState) (pngBytes : list byte) : list byte :=
  let size := List.length pngBytes in
  let v := zeros (22 + size) in
  let v := setUint16 v 0 0 in
  let v := setUint16 v 2 2 in
  let v := setUint16 v 4 1 in
  let w := if (256 <=? outputSize data)%Z then 0%Z else outputSize data in
  let v := setUint8 v 6 w in
  let v := setUint8 v 7 w in
  let v := setUint8 v 8 0 in
  let v := setUint8 v 9 0 in
  let v := setUint16 v 10 (hot_x (hotspot data)) in
  let v := setUint16 v 12 (hot_y (hotspot data)) in
  let v := setUint32 v 14 (Z.of_nat size) in
  let v := setUint32 v 18 22 in
  setBytes v pngBytes 22.

(** The accumulators of the export loop.  [composites] is a ghost
    trace: the canvas as it stood at each call of [toBlob]. *)
Record Acc :=
  { canvas : Canvas.Context;
    frameBlobs : list (list byte);
    rates : list Z;
    composites : list Canvas.Context }.

(** What [generateExportBlob] returns ([{ blobs, rates }]) together with
    the ghost trace. *)
Record Exported :=
  { blobs : list (list byte);
    out_rates : list Z;
    rendered : list Canvas.Context }.

Section WithEncoder.

(** [canvas.toBlob(..., 'image/png')]: the PNG bytes of the canvas, or
    [null] (here [None]) when the browser cannot produce the image. *)
Variable toBlob : Canvas.Context -> option (list byte).

(** [activeData], with [activeLayers = activeData.layers]. *)
Variable activeData : CursorState.

(** One pass of [for (let i = 0; i < loopCount; i++)]. *)
Definition exportPass (format : Format) (masterLayer : option Layer)
    (i : nat) (acc : Acc) : Js Acc :=
  match masterLayer with
  | None => Throw TypeError
  | Some master =>
      let time := timeOffset master i in
      let ctx := Canvas.clearAll (canvas acc) in
      let ctx := Canvas.drawLayers ctx (layers activeData) time
                   (outputSize activeData) in
      let frameBlobs :=
        match toBlob ctx with
        | Some pngBytes =>
            if isPng format && (i =? 0)%nat
            then frameBlobs acc ++ [pngBytes]
            else frameBlobs acc ++ [curBytes activeData pngBytes]
        | None => frameBlobs acc
        end in
      let d := passDelay master i in
      Ok {| canvas := ctx;
            frameBlobs := frameBlobs;
            rates := rates acc ++ [toRate d];
            composites := composites acc ++ [ctx] |}
  end.

(** The passes [i, i+1, ..., i+n-1]. *)
Fixpoint exportLoop (format : Format) (masterLayer : option Layer)
    (n i : nat) (acc : Acc) : Js Acc :=
  match n with
  | O => Ok acc
  | S n' =>
      bind (exportPass format masterLayer i acc)
           (exportLoop format masterLayer n' (S i))
  end.

(** [generateExportBlob(format)]; the 2D context is taken to be
    available ([if (!ctx) return] is not taken). *)
Definition generateExportBlob (format : Format) : Js Exported :=
  let cv := Canvas.create (outputSize activeData) (outputSize activeData) in
  let '(maxFrames, masterLayer) := pickMaster (layers activeData) in
  let loopCount := if isAni format then maxFrames else 1%nat in
  bind (exportLoop format masterLayer loopCount 0
          {| canvas := cv; frameBlobs := []; rates := []; composites := [] |})
       (fun acc =>
          Ok {| blobs := frameBlobs acc;
                out_rates := rates acc;
                rendered := composites acc |}).

End WithEncoder.

(** *** The RIFF/ACON writer of [download] *)

(** [rates.forEach((r,i) => rv.setUint32(i*4,r,true))] on the view that
    starts at byte 8 of the chunk. *)
Fixpoint writeRates (rc : list byte) (i : nat) (rs : list Z) : list byte :=
  match rs with
  | [] => rc
  | r :: rest => writeRates (setUint32 rc (8 + i * 4) r) (S i) rest
  end.

(** One [icon] sub-chunk: identifier, unpadded length, payload, pad. *)
Definition iconChunk (b : list byte) : list byte :=
  let ic := zeros (8 + List.length b + List.length b mod 2) in
  let ic := setBytes ic (strToBytes "icon") 0 in
  let ic := setUint32 ic 4 (Z.of_nat (List.length b)) in
  setBytes ic b 8.

(** [parts.forEach(c => { dst.set(c, off); off += c.length })] *)
Fixpoint setAll (dst : list byte) (off : nat) (parts : list (list byte))
  : list byte :=
  match parts with
  | [] => dst
  | c :: rest => setAll (setBytes dst c off) (off + List.length c) rest
  end.

Definition totalLength (parts : list (list byte)) : nat :=
  fold_left (fun a b => (a + List.length b)%nat) parts 0%nat.

(** The bytes of the [.ani] file that [download('ani')] offers. *)
Definition aniBytes (blobs : list (list byte)) (rates : list Z) : list byte :=
  let anih := zeros 36 in
  let anih := setUint32 anih 0 36 in
  let anih := setUint32 anih 4 (Z.of_nat (List.length blobs)) in
  let anih := setUint32 anih 8 (Z.of_nat (List.length blobs)) in
  let anih := setUint32 anih 28 60 in
  let anih := setUint32 anih 32 1 in
  let ac := zeros 44 in
  let ac := setBytes ac (strToBytes "anih") 0 in
  let ac := setUint32 ac 4 36 in
  let ac := setBytes ac anih 8 in
  let rc := zeros (8 + List.length rates * 4) in
  let rc := setBytes rc (strToBytes "rate") 0 in
  let rc := setUint32 rc 4 (Z.of_nat (List.length rates * 4)) in
  let rc := writeRates rc 0 rates in
  let ics := map iconChunk blobs in
  let tot := totalLength ics in
  let lc := zeros (8 + 4 + tot) in
  let lc := setBytes lc (strToBytes "LIST") 0 in
  let lc := setUint32 lc 4 (Z.of_nat (4 + tot)) in
  let lc := setBytes lc (strToBytes "fram") 8 in
  let lc := setAll lc 12 ics in
  let chunks := [ac; rc; lc] in
  let riff := zeros (8 + 4 + totalLength chunks) in
  let riff := setBytes riff (strToBytes "RIFF") 0 in
  let riff := setUint32 riff 4 (Z.of_nat (List.length riff) - 8) in
  let riff := setBytes riff (strToBytes "ACON") 8 in
  setAll riff 12 chunks.

End Encode.

(* ===================================================================== *)
(** ** The layer stack modifiers *)
(* ===================================================================== *)

Module Stack.

(** The state the modifiers act on: the active cursor's [CursorState]
    and the [selectedLayerId] hook. *)
Record Editor :=
  { activeData : CursorState;
    selectedLayerId : string }.

Definition withLayers (d : CursorState) (ls : list Layer) : CursorState :=
  {| layers := ls; hotspot := hotspot d; outputSize := outputSize d;
     fileName := fileName d |}.

(** [prev.layers.map(l => l.id === layerId ? { ...l, ...updates } : l)];
    the spread of [updates] over [l] is the function [updates]. *)
Definition updateLayer (layerId : string) (updates : Layer -> Layer)
    (e : Editor) : Editor :=
  {| activeData :=
       withLayers (activeData e)
         (map (fun l => if String.eqb (layer_id l) layerId then updates l else l)
              (layers (activeData e)));
     selectedLayerId := selectedLayerId e |}.

Definition addLayer (newLayer : Layer) (e : Editor) : Editor :=
  {| activeData :=
       withLayers (activeData e) (layers (activeData e) ++ [newLayer]);
     selectedLayerId := layer_id newLayer |}.

(** [activeLayers[0]?.id || 'base'] *)
Definition fallbackId (ls : list Layer) : string :=
  match ls with
  | l :: _ => if String.eqb (layer_id l) "" then "base" else layer_id l
  | [] => "base"
  end.

Definition removeLayer (layerId : string) (e : Editor) : Editor :=
  {| activeData :=
       withLayers (activeData e)
         (filter (fun l => negb (String.eqb (layer_id l) layerId))
                 (layers (activeData e)));
     selectedLayerId :=
       if String.eqb (selectedLayerId e) layerId
       then fallbackId (layers (activeData e))
       else selectedLayerId e |}.

(** [activeLayers.findIndex(l => l.id === layerId)], [None] for [-1]. *)
Fixpoint findIndex (layerId : string) (ls : list Layer) : option nat :=
  match ls with
  | [] => None
  | l :: rest =>
      if String.eqb (layer_id l) layerId then Some 0%nat
      else option_map S (findIndex layerId rest)
  end.

(** [[a[i], a[i+1]] = [a[i+1], a[i]]] *)
Fixpoint swapWithNext (i : nat) (ls : list Layer) : list Layer :=
  match i, ls with
  | O, a :: b :: rest => b :: a :: rest
  | S i', a :: rest => a :: swapWithNext i' rest
  | _, _ => ls
  end.

Inductive Direction := up | down.

Definition moveLayer (layerId : string) (direction : Direction) (e : Editor)
  : Editor :=
  let activeLayers := layers (activeData e) in
  match findIndex layerId activeLayers with
  | None => e
  | Some index =>
      let newLayers :=
        match direction with
        | up =>
            if (index + 1 <? List.length activeLayers)%nat
            then swapWithNext index activeLayers else activeLayers
        | down =>
            if (0 <? index)%nat
            then swapWithNext (index - 1) activeLayers else activeLayers
        end in
      {| activeData := withLayers (activeData e) newLayers;
         selectedLayerId := selectedLayerId e |}
  end.

Definition setVisible (v : bool) (l : Layer) : Layer :=
  {| layer_id := layer_id l; layer_name := layer_name l; frames := frames l;
     config := config l; visible := v; locked := locked l;
     isBase := isBase l |}.

Definition toggleLayerVisibility (layerId : string) (e : Editor) : Editor :=
  match find (fun l => String.eqb (layer_id l) layerId) (layers (activeData e)) with
  | Some layer => updateLayer layerId (setVisible (negb (visible layer))) e
  | None => e
  end.

(** The delete control of the first layer panel: the button exists only
    under [{!layer.isBase && ...}]. *)
Definition guardedDelete (layer : Layer) (e : Editor) : Editor :=
  if negb (truthy (isBase layer)) then removeLayer (layer_id layer) e else e.

(** The delete control of the second layer panel:
    [onClick={() => removeLayer(l.id)}] on every row. *)
Definition plainDelete (layer : Layer) (e : Editor) : Editor :=
  removeLayer (layer_id layer) e.

Definition initialEditor : Editor :=
  {| activeData := DEFAULT_CURSOR_STATE; selectedLayerId := "base" |}.

(** The number of layers carrying the Base role. *)
Definition baseCount (ls : list Layer) : nat :=
  List.length (filter (fun l => truthy (isBase l)) ls).

(** What the user can do to the stack through the first layer panel:
    upload an overlay (a layer without the Base flag under a fresh
    random id), press the delete control of a row, move a layer, and
    edit a layer through [updateLayer], whose callers pass [visible],
    [locked], [config], [frames] and [name] only. *)
Inductive guardedAction (e : Editor) : Editor -> Prop :=
| act_add (l : Layer) :
    truthy (isBase l) = false ->
    ~ In (layer_id l) (map layer_id (layers (activeData e))) ->
    guardedAction e (addLayer l e)
| act_delete (l : Layer) :
    In l (layers (activeData e)) ->
    guardedAction e (guardedDelete l e)
| act_move (layerId : string) (d : Direction) :
    guardedAction e (moveLayer layerId d e)
| act_update (layerId : string) (updates : Layer -> Layer) :
    (forall l, isBase (updates l) = isBase l /\
               layer_id (updates l) = layer_id l) ->
    guardedAction e (updateLayer layerId updates e).

Inductive reachable : Editor -> Prop :=
| reach_init : reachable initialEditor
| reach_step (e e' : Editor) :
    reachable e -> guardedAction e e' -> reachable e'.

End Stack.

(* ===================================================================== *)
(** ** Vocabulary of the specification *)
(* ===================================================================== *)

(** Notions the specification uses to describe the program.  They are
    not part of the program; the properties below compare the program
    with them. *)
Module Spec.

Import Bytes.

(** [totalDuration = sum of the durations], and the cumulative duration
    of the first [k] frames (the end boundary of frame [k-1]), as sums
    of the rationals the durations denote. *)
Definition totalDuration (fs : list FrameData) : Q :=
  fold_left (fun a b => (a + delay b)%Q) fs 0%Q.

Definition cumulativeDuration (fs : list FrameData) (k : nat) : Q :=
  totalDuration (firstn k fs).

(** Frame [i] is the first frame whose cumulative duration strictly
    exceeds [t]. *)
Definition firstExceeding (fs : list FrameData) (t : Q) (i : nat) : Prop :=
  (t < cumulativeDuration fs (S i))%Q /\
  forall j, (j < i)%nat -> (cumulativeDuration fs (S j) <= t)%Q.

(** The greatest frame count over the layers of a stack (0 when the
    stack is empty or every layer is). *)
Definition maxFrameCount (ls : list Layer) : nat :=
  fold_right (fun l m => Nat.max (List.length (frames l)) m) 0%nat ls.

(** The first layer with [M] frames. *)
Definition firstWith (M : nat) (ls : list Layer) : option Layer :=
  find (fun l => (List.length (frames l) =? M)%nat) ls.

(** The dominant layer: the first layer whose frame count is the
    greatest of the stack. *)
Definition dominant (ls : list Layer) : option Layer :=
  firstWith (maxFrameCount ls) ls.

(** The export cadence of section 4.6: frame [i] takes the delay of the
    dominant layer's frame [i mod frameCount]. *)
Definition dominantDelay (ls : list Layer) (i : nat) : option Q :=
  match dominant ls with
  | Some l =>
      option_map delay
        (nth_error (frames l) (i mod List.length (frames l)))
  | None => None
  end.

(** [max(1, round(delay_ms / (1000/60)))] *)
Definition rateOf (d : Q) : Z := Z.max 1 (Num.round (d / (1000 / 60))%Q).

(** The ICO/CUR directory signature of section 4.3: bytes [00 00], then
    type [01] or [02], then [00]. *)
Definition directorySignature (bytes : list byte) : bool :=
  byteIs bytes 0 0 && byteIs bytes 1 0
  && (byteIs bytes 2 1 || byteIs bytes 2 2) && byteIs bytes 3 0.

(** The PNG signature [89 50 4E 47] stands at offset [i]. *)
Definition pngSignatureAt (bytes : list byte) (i : Z) : bool :=
  byteIs bytes i 137 && byteIs bytes (i + 1) 80
  && byteIs bytes (i + 2) 78 && byteIs bytes (i + 3) 71.

(** The first offset at which the PNG signature stands. *)
Fixpoint firstSignature (bytes : list byte) (i : Z) (n : nat) : option Z :=
  match n with
  | O => None
  | S n' =>
      if pngSignatureAt bytes i then Some i
      else firstSignature bytes (i + 1) n'
  end.

Definition pngOffset (bytes : list byte) : option Z :=
  firstSignature bytes 0 (List.length bytes).


End Spec.

(* ===================================================================== *)
(** ** Sample inputs *)
(* ===================================================================== *)

Module Samples.

Import Bytes.

(** A stand-in for the PNG bytes of a rendered canvas. *)
Definition pngStub : list byte := [x89; x50; x4e; x47; x0d; x0a; x1a; x0a].

(** A stand-in image decoder: the blob itself at the size 32 by 32. *)
Definition stubDecoder (b : Blob) : Image :=
  {| img_src := b; img_width := 32; img_height := 32 |}.

(** An encoder that always delivers. *)
Definition steadyEncoder (c : Canvas.Context) : option (list byte) :=
  Some pngStub.

(** An encoder with a size limit, as browsers have: [toBlob] calls back
    with [null] once the canvas is wider than 16384 pixels. *)
Definition limitedEncoder (c : Canvas.Context) : option (list byte) :=
  if (16384 <? Canvas.canvasWidth c)%Z then None else Some pngStub.

Definition overlay (name : string) (fs : list FrameData) : Layer :=
  {| layer_id := name; layer_name := name; frames := fs;
     config := DEFAULT_TRANSFORM; visible := true; locked := false;
     isBase := None |}.

Definition baseWith (fs : list FrameData) : Layer :=
  {| layer_id := "base"; layer_name := "Base Layer"; frames := fs;
     config := DEFAULT_TRANSFORM; visible := true; locked := false;
     isBase := Some true |}.

Definition profile (ls : list Layer) (size : Z) : CursorState :=
  {| layers := ls; hotspot := {| hot_x := 5; hot_y := 7 |};
     outputSize := size; fileName := "" |}.

(** Layers with 1, 4 and 2 frames. *)
Definition stack142 : list Layer :=
  [ baseWith (Timeline.timeline [100]);
    overlay "four" (Timeline.timeline [100; 100; 100; 100]);
    overlay "two" (Timeline.timeline [100; 100]) ]%Q.

(** An empty Base layer under a one-frame overlay that lasts a second. *)
Definition emptyBaseStack : list Layer :=
  [ createBaseLayer; overlay "still" (Timeline.timeline [1000%Q]) ].

(** One layer with the delays 100, 100 and 200 ms. *)
Definition threeFrameStack : list Layer :=
  [ baseWith (Timeline.timeline [100; 100; 200]) ]%Q.

(** An [.ani] file with three cursor frames whose [rate] chunk holds
    6, 6 and 12, as the program's own writer lays it out. *)
Definition cursorStub : list byte :=
  Encode.curBytes (profile [] 32) pngStub.

Definition sampleAni : list byte :=
  Encode.aniBytes [cursorStub; cursorStub; cursorStub] [6; 6; 12]%Z.

Definition riffHeader : list byte :=
  strToBytes "RIFF" ++ [x00; x00; x00; x00] ++ strToBytes "ACON".

(** Two chunks that declare zero bytes of payload. *)
Definition zeroSizeAni : list byte :=
  riffHeader
    ++ strToBytes "JUNK" ++ [x00; x00; x00; x00]
    ++ strToBytes "rate" ++ [x00; x00; x00; x00]
    ++ repeat x00 8.

(** A [fram] list and an [icon] that both declare 4294967295 bytes,
    far beyond the 14 bytes that follow. *)
Definition oversizedAni : list byte :=
  riffHeader
    ++ strToBytes "LIST" ++ [xff; xff; xff; xff] ++ strToBytes "fram"
    ++ strToBytes "icon" ++ [xff; xff; xff; xff]
    ++ repeat x01 14.

(** A [rate] chunk that declares more entries than the file holds. *)
Definition truncatedRateAni : list byte :=
  riffHeader
    ++ strToBytes "rate" ++ [xff; xff; xff; xff]
    ++ repeat x00 10.

(** An [.ico] payload: directory type 01, the PNG data at offset 22. *)
Definition icoPayload : list byte :=
  [x00; x00; x01; x00; x01; x00] ++ repeat x00 16 ++ pngStub ++ repeat x00 8.

(** A [.cur] payload whose directory happens to hold the bytes [89 50]
    at offset 10 (a hotspot of x = 20617), before the PNG data. *)
Definition curPayload : list byte :=
  [x00; x00; x02; x00; x01; x00]
    ++ [x20; x20; x00; x00; x89; x50; x00; x00]
    ++ [x08; x00; x00; x00; x16; x00; x00; x00]
    ++ pngStub ++ repeat x00 8.

(** The delays [parseAniFile] computes in doubles for the rates 1, 2, 5
    and 7, [r * (1000/60)]: 16.666666666666668, 33.333333333333336,
    83.33333333333334 and 116.66666666666667. *)
Definition jiffies1 : Q := 4691249611844267 # 281474976710656.
Definition jiffies2 : Q := 4691249611844267 # 140737488355328.
Definition jiffies5 : Q := 2932031007402667 # 35184372088832.
Definition jiffies7 : Q := 8209686820727467 # 70368744177664.

(** The timeline of an animation with the rates 2 and 5, and the one of
    an animation with the rates 1, 2 and 1. *)
Definition timeline25 : list FrameData :=
  Timeline.timeline [jiffies2; jiffies5].

Definition timeline121 : list FrameData :=
  Timeline.timeline [jiffies1; jiffies2; jiffies1].

(** The timeline of an animation with the rates 1 and 2, and the double
    just below one jiffy, 16.666666666666664. *)
Definition timeline12 : list FrameData :=
  Timeline.timeline [jiffies1; jiffies2].

Definition almostJiffy : Q := 2345624805922133 # 140737488355328.

(** A 1x1 opaque pixel with the transform
    [{x:10, y:0, scale:2, rotation:90, opacity:1}]. *)
Definition pixel : Image :=
  {| img_src := {| blob_bytes := pngStub; blob_type := image_png |};
     img_width := 1; img_height := 1 |}.

Definition pixelLayer : Layer :=
  {| layer_id := "pixel"; layer_name := "pixel";
     frames := [ {| image := pixel; delay := 100 |} ];
     config := {| cfg_x := 10; cfg_y := 0; cfg_scale := 2;
                  cfg_rotation := 90; cfg_opacity := 1 |};
     visible := true; locked := false; isBase := None |}.

End Samples.

(* ===================================================================== *)
(** ** The editor around the stack: selection, cursor roles, uploads *)
(* ===================================================================== *)

Module Editing.

Import Stack.

(** [activeLayers.find(l => l.id === selectedLayerId) || activeLayers[0]];
    [None] is [undefined] (the stack is empty). *)
Definition selectedLayer (e : Editor) : option Layer :=
  match find (fun l => String.eqb (layer_id l) (selectedLayerId e))
             (layers (activeData e)) with
  | Some l => Some l
  | None => hd_error (layers (activeData e))
  end.

(** The type [CursorType]. *)
Inductive CursorType :=
| normal | help | working | busy | precision | text | handwriting
| unavailable | vert | horz | diag1 | diag2 | move | alternate | link
| location | person.

Inductive HotspotKind := tl | center.

Definition cursorTypeEqb (a b : CursorType) : bool :=
  match a, b with
  | normal, normal | help, help | working, working | busy, busy
  | precision, precision | text, text | handwriting, handwriting
  | unavailable, unavailable | vert, vert | horz, horz | diag1, diag1
  | diag2, diag2 | move, move | alternate, alternate | link, link
  | location, location | person, person => true
  | _, _ => false
  end.

(** The table [CURSOR_TYPES] (its [id] and [defaultHotspot] columns). *)
Definition CURSOR_TYPES : list (CursorType * HotspotKind) :=
  [ (normal, tl); (link, tl); (text, center); (busy, center);
    (working, tl); (unavailable, tl); (help, tl); (alternate, tl);
    (precision, center); (move, center); (location, tl); (person, tl);
    (vert, center); (horz, center); (diag1, center); (diag2, center) ].

(** [getDefaultHotspot(type, size)]; [Math.floor(size / 2)] on an integer
    size is the floor division. *)
Definition getDefaultHotspot (type : CursorType) (size : Z) : Hotspot :=
  match find (fun t => cursorTypeEqb (fst t) type) CURSOR_TYPES with
  | Some (_, center) => {| hot_x := size / 2; hot_y := size / 2 |}
  | _ => {| hot_x := 0; hot_y := 0 |}
  end.

(** The state [handleUpload] works on: the editor, the active cursor
    role, and the [error] hook (the exception of the failed upload). *)
Record Session :=
  { editor : Editor;
    activeType : CursorType;
    error : option Error }.

(** [{ ...l, frames, name: file.name }] *)
Definition withFramesName (fs : list FrameData) (name : string) (l : Layer)
  : Layer :=
  {| layer_id := layer_id l; layer_name := name; frames := fs;
     config := config l; visible := visible l; locked := locked l;
     isBase := isBase l |}.

(** The layer [handleUpload] builds when no layer is replaced; [id] is the
    string the random generator gave. *)
Definition uploadedLayer (id name : string) (fs : list FrameData) : Layer :=
  {| layer_id := id; layer_name := name; frames := fs;
     config := DEFAULT_TRANSFORM; visible := true; locked := false;
     isBase := None |}.

(** [updateCursorState({ fileName, outputSize, hotspot })] *)
Definition withFileSizeHotspot (d : CursorState) (name : string) (size : Z)
    (h : Hotspot) : CursorState :=
  {| layers := layers d; hotspot := h; outputSize := size; fileName := name |}.

(** [activeLayers.find(l => l.id === replaceId)?.isBase], as a truth
    value, on the stack as it was when the upload started. *)
Definition replacesBase (replaceId : string) (e : Editor) : bool :=
  match find (fun l => String.eqb (layer_id l) replaceId)
             (layers (activeData e)) with
  | Some l => truthy (isBase l)
  | None => false
  end.

(** [handleUpload] up to its [await]: [setIsProcessing(true)] and
    [setError(null)]. *)
Definition beginUpload (s : Session) : Session :=
  {| editor := editor s; activeType := activeType s; error := None |}.

(** [handleUpload] from the moment [parseFile] has settled with [parsed]:
    [name] is [file.name], [replaceId] the optional argument (an empty id
    is falsy and counts as absent), [freshId] the random id for a new
    layer.

    [seen] is the state of the render whose handler runs: it is what
    [activeLayers], [activeData.fileName] and [activeType] denote in the
    body, fixed before the [await].  [s] is the state of the same profile
    when the updates are applied: they are functional updates
    ([setCursorSet(prev => ...)]) and plain sets of the selection and of
    the error, and they act on the state of that moment.  Nothing
    serialises uploads ([isProcessing] is never read), so [s] is
    [beginUpload seen] only if nothing happened in between.  The updates
    queued before an exception are applied. *)
Definition handleUpload (name : string) (parsed : Js (list FrameData))
    (replaceId : option string) (freshId : string) (seen s : Session)
  : Session :=
  match parsed with
  | Throw err =>
      {| editor := editor s; activeType := activeType s; error := Some err |}
  | OutOfFuel => s
  | Ok fs =>
      match replaceId with
      | Some id =>
          if String.eqb id "" then
            {| editor := addLayer (uploadedLayer freshId name fs) (editor s);
               activeType := activeType s; error := error s |}
          else
            let e1 := updateLayer id (withFramesName fs name) (editor s) in
            if replacesBase id (editor seen)
               && String.eqb (fileName (activeData (editor seen))) "" then
              match fs with
              | [] =>
                  {| editor := e1; activeType := activeType s;
                     error := Some TypeError |}
              | f :: _ =>
                  let d := Z.max (img_width (image f)) (img_height (image f)) in
                  let newSize := if (d <=? 32)%Z then 32%Z else d in
                  {| editor :=
                       {| activeData :=
                            withFileSizeHotspot (activeData e1) name newSize
                              (getDefaultHotspot (activeType seen) newSize);
                          selectedLayerId := selectedLayerId e1 |};
                     activeType := activeType s; error := error s |}
              end
            else
              {| editor := e1; activeType := activeType s; error := error s |}
      | None =>
          {| editor := addLayer (uploadedLayer freshId name fs) (editor s);
             activeType := activeType s; error := error s |}
      end
  end.

(** The click handler of the editing canvas, in the arithmetic of
    doubles: [rect] is the bounding box of the canvas element,
    [scale = canvas.width / rect.width], and each coordinate is
    [Math.floor((client - origin) * scale)].  A coordinate that is [NaN]
    or infinite (a box of width 0, an overflow) has no place in
    [Hotspot]: the result is [None]. *)
Definition clickHotspot (clientX clientY rectLeft rectTop rectWidth : Q)
    (canvasWidth : Z) : option Hotspot :=
  let scale := Double.div (Double.fin (inject_Z canvasWidth))
                          (Double.fin rectWidth) in
  let x := Double.mul (Double.sub (Double.fin clientX) (Double.fin rectLeft))
                      scale in
  let y := Double.mul (Double.sub (Double.fin clientY) (Double.fin rectTop))
                      scale in
  match Double.floor x, Double.floor y with
  | Double.fin qx, Double.fin qy =>
      Some {| hot_x := Qfloor qx; hot_y := Qfloor qy |}
  | _, _ => None
  end.

(** [updateCursorState({ hotspot })] *)
Definition withHotspot (d : CursorState) (h : Hotspot) : CursorState :=
  {| layers := layers d; hotspot := h; outputSize := outputSize d;
     fileName := fileName d |}.

(** [updateCursorState({ outputSize })] *)
Definition withSize (d : CursorState) (size : Z) : CursorState :=
  {| layers := layers d; hotspot := hotspot d; outputSize := size;
     fileName := fileName d |}.

Definition withEditor (s : Session) (e : Editor) : Session :=
  {| editor := e; activeType := activeType s; error := error s |}.

(** One user action on the profile of the active role through the first
    panel: the start of an upload; the end of an upload (as a new layer
    or onto a layer) once the file has been read, whatever state its
    handler had seen at the start, where the random id drawn for a new
    layer is not in use;
    an action on the stack ([Stack.guardedAction]: guarded delete, move,
    and the edits of lock, transform and visibility); the visibility
    toggle; a click on a layer row; a new hotspot (canvas click or
    number inputs); a new output size. *)
Inductive panelStep (s : Session) : Session -> Prop :=
| step_begin : panelStep s (beginUpload s)
| step_upload (name : string) (parsed : Js (list FrameData))
    (replaceId : option string) (freshId : string) (seen : Session) :
    ~ In freshId (map layer_id (layers (activeData (editor s)))) ->
    panelStep s (handleUpload name parsed replaceId freshId seen s)
| step_stack (e' : Editor) :
    guardedAction (editor s) e' -> panelStep s (withEditor s e')
| step_toggle (layerId : string) :
    panelStep s (withEditor s (toggleLayerVisibility layerId (editor s)))
| step_select (layerId : string) :
    panelStep s
      (withEditor s {| activeData := activeData (editor s);
                       selectedLayerId := layerId |})
| step_hotspot (h : Hotspot) :
    panelStep s
      (withEditor s {| activeData := withHotspot (activeData (editor s)) h;
                       selectedLayerId := selectedLayerId (editor s) |})
| step_size (size : Z) :
    panelStep s
      (withEditor s {| activeData := withSize (activeData (editor s)) size;
                       selectedLayerId := selectedLayerId (editor s) |}).

Inductive panelReachable : Session -> Prop :=
| panel_init (t : CursorType) :
    panelReachable {| editor := initialEditor; activeType := t;
                      error := None |}
| panel_step (s s' : Session) :
    panelReachable s -> panelStep s s' -> panelReachable s'.

End Editing.

(* ===================================================================== *)
(** ** The RIFF/ACON file, chunk by chunk *)
(* ===================================================================== *)

(** The byte strings that make up the file [download] writes, as plain
    concatenations; [RiffFacts.aniBytes_layout] shows that the buffer
    writes of [Encode.aniBytes] produce exactly them. *)
Module Riff.

Import Bytes.

(** The four bytes [setUint32(_, v, true)] stores. *)
Definition le32 (v : Z) : list byte :=
  [ toUint8 v; toUint8 (v / 256); toUint8 (v / 65536);
    toUint8 (v / 16777216) ]%Z.

(** The 36-byte [anih] payload for [n] frames. *)
Definition anihPayload (n : nat) : list byte :=
  le32 36 ++ le32 (Z.of_nat n) ++ le32 (Z.of_nat n) ++ zeros 16
    ++ le32 60 ++ le32 1.

Definition anihChunk (n : nat) : list byte :=
  strToBytes "anih" ++ le32 36 ++ anihPayload n.

Definition rateChunk (rates : list Z) : list byte :=
  strToBytes "rate" ++ le32 (Z.of_nat (List.length rates * 4))
    ++ List.concat (map le32 rates).

(** One [icon] sub-chunk: identifier, unpadded length, payload, and one
    zero byte when the payload length is odd. *)
Definition iconBytes (b : list byte) : list byte :=
  strToBytes "icon" ++ le32 (Z.of_nat (List.length b)) ++ b
    ++ zeros (List.length b mod 2).

Definition framList (blobs : list (list byte)) : list byte :=
  List.concat (map iconBytes blobs).

Definition listChunk (blobs : list (list byte)) : list byte :=
  strToBytes "LIST" ++ le32 (Z.of_nat (4 + List.length (framList blobs)))
    ++ strToBytes "fram" ++ framList blobs.

Definition aniBody (blobs : list (list byte)) (rates : list Z) : list byte :=
  anihChunk (List.length blobs) ++ rateChunk rates ++ listChunk blobs.

Definition aniLayout (blobs : list (list byte)) (rates : list Z) : list byte :=
  strToBytes "RIFF"
    ++ le32 (Z.of_nat (12 + List.length (aniBody blobs rates)) - 8)
    ++ strToBytes "ACON" ++ aniBody blobs rates.

End Riff.
(* ===================================================================== *)
(** ** The composite of a stack, and the passes of the export *)
(* ===================================================================== *)

(** Closed forms of what the drawing loop leaves on the canvas;
    [ComposeFacts] shows that [Canvas.drawLayers] and the export loop
    compute exactly them. *)
Module Compose.

Import Canvas.
Local Open Scope R_scope.

(** The [drawImage] that [paint] issues for a frame of a layer on a
    canvas whose matrix is [m], whose alpha is [alpha] and whose
    smoothing flag is [smooth]: the layer's opacity replaces the alpha
    when the canvas accepts it. *)
Definition layerOp (m : Matrix) (alpha : R) (smooth : bool) (l : Layer)
    (frame : FrameData) (size : Z) : DrawOp :=
  {| op_image := image frame;
     op_dx := - IZR (img_width (image frame)) / 2;
     op_dy := - IZR (img_height (image frame)) / 2;
     op_ctm :=
       mscale
         (mrotate
            (mtranslate (mtranslate m (IZR size / 2) (IZR size / 2))
               (Q2R (cfg_x (config l))) (Q2R (cfg_y (config l))))
            (Q2R (cfg_rotation (config l)) * PI / 180))
         (Q2R (cfg_scale (config l))) (Q2R (cfg_scale (config l)));
     op_alpha :=
       if inUnitRange (cfg_opacity (config l))
       then Q2R (cfg_opacity (config l)) else alpha;
     op_smoothing := smooth |}.

(** What one layer adds at [time]: nothing when it is hidden or has no
    frame, and the draw of its active frame otherwise. *)
Definition layerOps (m : Matrix) (alpha : R) (smooth : bool) (l : Layer)
    (time : Double.number) (size : Z) : list DrawOp :=
  if negb (visible l) || (List.length (frames l) =? 0)%nat then []
  else
    match Timeline.activeFrame (frames l) time with
    | Some frame => [layerOp m alpha smooth l frame size]
    | None => []
    end.

Definition stackOps (m : Matrix) (alpha : R) (smooth : bool)
    (ls : list Layer) (time : Double.number) (size : Z) : list DrawOp :=
  flat_map (fun l => layerOps m alpha smooth l time size) ls.

(** The layers that [drawLayer] does not skip. *)
Definition shown (l : Layer) : bool :=
  visible l && negb (List.length (frames l) =? 0)%nat.

Definition withDrawn (c : Context) (ops : list DrawOp) : Context :=
  {| ctm := ctm c; globalAlpha := globalAlpha c;
     imageSmoothingEnabled := imageSmoothingEnabled c;
     saved := saved c; drawn := ops;
     canvasWidth := canvasWidth c; canvasHeight := canvasHeight c |}.

(** The canvas of the export after the pass at [time]: a context as it
    was created, smoothing images. *)
Definition composite (data : CursorState) (time : Double.number) : Context :=
  withDrawn (create (outputSize data) (outputSize data))
    (stackOps identity 1 true (layers data) time (outputSize data)).

(** The canvas of the PNG download, drawn by [draw] with smoothing off. *)
Definition picture (data : CursorState) (time : Double.number) : Context :=
  withDrawn
    (setImageSmoothing (create (outputSize data) (outputSize data)) false)
    (stackOps identity 1 false (layers data) time (outputSize data)).

(** What pass [i] of the export pushes on [blobs]. *)
Definition passBlobs (toBlob : Context -> option (list byte))
    (data : CursorState) (format : Encode.Format) (master : Layer) (i : nat)
  : list (list byte) :=
  match toBlob (composite data (Encode.timeOffset master i)) with
  | Some pngBytes =>
      if Encode.isPng format && (i =? 0)%nat then [pngBytes]
      else [Encode.curBytes data pngBytes]
  | None => []
  end.

End Compose.
(* ===================================================================== *)
(** ** [download] *)
(* ===================================================================== *)

Module Download.

Import Bytes Editing.
Local Open Scope string_scope.

(** The string value of a [CursorType]. *)
Definition typeId (t : CursorType) : string :=
  match t with
  | normal => "normal" | help => "help" | working => "working"
  | busy => "busy" | precision => "precision" | text => "text"
  | handwriting => "handwriting" | unavailable => "unavailable"
  | vert => "vert" | horz => "horz" | diag1 => "diag1" | diag2 => "diag2"
  | move => "move" | alternate => "alternate" | link => "link"
  | location => "location" | person => "person"
  end.

(** [s.split('.')[0]]: what stands before the first dot. *)
Fixpoint stem (s : string) : string :=
  match s with
  | EmptyString => EmptyString
  | String c rest =>
      if Ascii.eqb c "."%char then EmptyString else String c (stem rest)
  end.

(** [`${activeData.fileName.split('.')[0] || 'cursor'}_${activeType}`] *)
Definition baseName (data : CursorState) (t : CursorType) : string :=
  (if String.eqb (stem (fileName data)) "" then "cursor"
   else stem (fileName data)) ++ "_" ++ typeId t.

(** What the link of [download] points to: the data URL of a canvas,
    or a blob made of one part; [blobs[0]] is [undefined] when the
    export gave no blob. *)
Inductive Content :=
| dataUrl (c : Canvas.Context)
| blobOf (part : option (list byte)).

Record Offer := { offer_name : string; offer_content : Content }.

(** [download(format)]; an exception of [generateExportBlob] leaves it
    before anything is offered. *)
Definition download (toBlob : Canvas.Context -> option (list byte))
    (data : CursorState) (t : CursorType) (format : Encode.Format)
  : Js Offer :=
  bind (Encode.generateExportBlob toBlob data format)
    (fun res =>
       let name := baseName data t in
       match format with
       | Encode.png =>
           let canvas := Canvas.create (outputSize data) (outputSize data) in
           Ok {| offer_name := name ++ ".png";
                 offer_content :=
                   dataUrl (Canvas.draw canvas (outputSize data)
                              (Double.fin 0) (layers data)) |}
       | Encode.cur =>
           Ok {| offer_name := name ++ ".cur";
                 offer_content := blobOf (hd_error (Encode.blobs res)) |}
       | Encode.ani =>
           Ok {| offer_name := name ++ ".ani";
                 offer_content :=
                   blobOf (Some (Encode.aniBytes (Encode.blobs res)
                                   (Encode.out_rates res))) |}
       end).



End Download.

(* ===================================================================== *)
(** * Properties *)
(* ===================================================================== *)

(** Split a conjunction into its parts, and no further. *)
Ltac split_conj := repeat match goal with |- _ /\ _ => split end.

(** ** Facts about JavaScript numbers *)

Module NumFacts.

Import Num.
Local Open Scope Q_scope.

Lemma ltb_lt a b : ltb a b = true <-> a < b.
Proof.
  unfold ltb. rewrite negb_true_iff.
  split; intro H.
  - apply Qnot_le_lt. intro Hle. apply Qle_bool_iff in Hle. congruence.
  - destruct (Qle_bool b a) eqn:E; [|reflexivity].
    apply Qle_bool_iff in E. exfalso. apply (Qlt_not_le _ _ H E).
Qed.

Lemma ltb_ge a b : ltb a b = false <-> b <= a.
Proof.
  unfold ltb. rewrite negb_false_iff. apply Qle_bool_iff.
Qed.

(** [trunc] never moves a number by a full unit. *)
Lemma trunc_above (q : Q) : q - 1 < inject_Z (trunc q).
Proof.
  destruct q as [n d]. unfold trunc, Qlt, Qminus, Qplus, Qopp, inject_Z; simpl.
  pose proof (Z.quot_rem' n (Zpos d)) as E.
  pose proof (Pos2Z.is_pos d) as Hd.
  destruct (Z_lt_le_dec n 0) as [Hn|Hn].
  - assert (Hr : (Z.pos d * -1 < Z.rem n (Z.pos d) <= 0)%Z).
    { pose proof (Z.rem_bound_pos_neg n (Z.pos d)). lia. }
    nia.
  - assert (Hr : (0 <= Z.rem n (Z.pos d) < Z.pos d)%Z)
      by (apply Z.rem_bound_pos; lia).
    nia.
Qed.

Lemma trunc_below (q : Q) : inject_Z (trunc q) < q + 1.
Proof.
  destruct q as [n d]. unfold trunc, Qlt, Qplus, inject_Z; simpl.
  pose proof (Z.quot_rem' n (Zpos d)) as E.
  pose proof (Pos2Z.is_pos d) as Hd.
  destruct (Z_lt_le_dec n 0) as [Hn|Hn].
  - assert (Hr : (Z.pos d * -1 < Z.rem n (Z.pos d) <= 0)%Z).
    { pose proof (Z.rem_bound_pos_neg n (Z.pos d)). lia. }
    nia.
  - assert (Hr : (0 <= Z.rem n (Z.pos d) < Z.pos d)%Z)
      by (apply Z.rem_bound_pos; lia).
    nia.
Qed.

Lemma trunc_nonneg (q : Q) : 0 <= q -> inject_Z (trunc q) <= q.
Proof.
  destruct q as [n d]. unfold trunc, Qle, inject_Z; simpl. intro Hn.
  assert (Hn' : (0 <= n)%Z) by lia.
  pose proof (Z.quot_rem' n (Zpos d)) as E.
  assert (Hr : (0 <= Z.rem n (Z.pos d) < Z.pos d)%Z)
    by (apply Z.rem_bound_pos; lia).
  nia.
Qed.

Lemma trunc_nonneg_ge0 (q : Q) : 0 <= q -> (0 <= trunc q)%Z.
Proof.
  destruct q as [n d]. unfold trunc, Qle; simpl. intro Hn.
  apply Z.quot_pos; lia.
Qed.

End NumFacts.

(* ===================================================================== *)
(** ** Binary64 arithmetic on whole numbers *)
(* ===================================================================== *)

(** Below [2^53] every whole number is a double, and sums, differences,
    remainders and comparisons of whole numbers are exact as long as the
    results stay below that bound. *)
Module DoubleFacts.

Import Num NumFacts Double.
Import Lqa.
Local Open Scope Q_scope.

Lemma Qred_inject_Z (z : Z) : Qred (inject_Z z) = inject_Z z.
Proof. apply Qred_identity. apply Z.gcd_1_r. Qed.

Lemma Qred_whole (q : Q) (z : Z) : q == inject_Z z -> Qred q = inject_Z z.
Proof.
  intro H. rewrite (Qred_complete _ _ H). apply Qred_inject_Z.
Qed.

Lemma pow2_nonneg (e : Z) : (0 <= e)%Z -> pow2 e == inject_Z (2 ^ e).
Proof. intro H. unfold pow2. now rewrite Zpower_Qpower. Qed.

Lemma pow2_pos (e : Z) : 0 < pow2 e.
Proof. unfold pow2. apply Qpower_0_lt. reflexivity. Qed.

Lemma pow2_nonpos (e : Z) : (e <= 0)%Z -> pow2 e == / inject_Z (2 ^ (- e)).
Proof.
  intro H. unfold pow2.
  replace e with (- (- e))%Z at 1 by lia.
  rewrite Qpower_opp. now rewrite Zpower_Qpower by lia.
Qed.

Lemma rne_whole (q : Q) (z : Z) : q == inject_Z z -> rne q = z.
Proof.
  intro H. unfold rne.
  assert (Hf : Qfloor q = z) by (rewrite (Qfloor_comp _ _ H); apply Qfloor_Z).
  rewrite Hf.
  assert (Hc : Qcompare (q - inject_Z z) (1 # 2) = Lt).
  { apply Qlt_alt. setoid_replace (q - inject_Z z) with 0; [reflexivity|].
    rewrite H. ring. }
  now rewrite Hc.
Qed.

(** A whole number below [2^53] is a double. *)
Lemma round64_whole (q : Q) (z : Z) :
  (Z.abs z < 2 ^ 53)%Z -> q == inject_Z z -> round64 q = fin (inject_Z z).
Proof.
  intros Hz Hq. unfold round64. rewrite (Qred_whole q z Hq).
  destruct (Qeq_bool (inject_Z z) 0) eqn:E0.
  { apply Qeq_bool_iff in E0. f_equal.
    unfold Qeq in E0. cbn in E0. assert (z = 0%Z) by lia. now subst z. }
  apply Qeq_bool_neq in E0.
  assert (Hz0 : z <> 0%Z) by (intro E; apply E0; now rewrite E).
  set (n := Z.abs z).
  assert (Hn : (0 < n < 2 ^ 53)%Z) by (unfold n; lia).
  assert (Habs : Qabs (inject_Z z) = inject_Z n) by reflexivity.
  rewrite Habs.
  (* the exponent of the leading bit *)
  assert (Hlog : ilog2 (inject_Z n) = Z.log2 n).
  { unfold ilog2. cbn [Qnum Qden inject_Z]. change (Z.log2 1) with 0%Z.
    rewrite Z.sub_0_r.
    pose proof (Z.log2_nonneg n) as Hl0.
    pose proof (Z.log2_spec n ltac:(lia)) as [Hl1 _].
    assert (Hb : Qle_bool (pow2 (Z.log2 n)) (inject_Z n) = true).
    { apply Qle_bool_iff. rewrite pow2_nonneg by assumption.
      now rewrite <- Zle_Qle. }
    fold (inject_Z n). now rewrite Hb. }
  rewrite Hlog.
  assert (Hl : (0 <= Z.log2 n <= 52)%Z).
  { split; [apply Z.log2_nonneg|].
    assert (Z.log2 n < 53)%Z by (apply Z.log2_lt_pow2; lia). lia. }
  set (e := Z.max (Z.log2 n - 52) (-1074)).
  assert (He : (-1074 <= e <= 0)%Z) by (unfold e; lia).
  assert (Hp : (0 < 2 ^ (- e))%Z) by (apply Z.pow_pos_nonneg; lia).
  assert (Hpq : 0 < inject_Z (2 ^ (- e)))
    by (change 0 with (inject_Z 0); now rewrite <- Zlt_Qlt).
  assert (Hdiv : inject_Z n / pow2 e == inject_Z (n * 2 ^ (- e))).
  { rewrite pow2_nonpos by lia. rewrite inject_Z_mult. field.
    intro H0. rewrite H0 in Hpq. discriminate. }
  rewrite (rne_whole _ _ Hdiv).
  assert (Hr : inject_Z (n * 2 ^ (- e)) * pow2 e == inject_Z n).
  { rewrite pow2_nonpos by lia. rewrite inject_Z_mult. field.
    intro H0. rewrite H0 in Hpq. discriminate. }
  replace (Qle_bool (pow2 1024) (inject_Z (n * 2 ^ (- e)) * pow2 e))
    with false.
  2:{ symmetry. apply not_true_iff_false. intro H.
      apply Qle_bool_iff in H. rewrite Hr, pow2_nonneg in H by lia.
      rewrite <- Zle_Qle in H.
      assert (2 ^ 53 < 2 ^ 1024)%Z by (apply Z.pow_lt_mono_r; lia). lia. }
  f_equal. apply Qred_whole.
  destruct (Qle_bool 0 (inject_Z z)) eqn:Es.
  - apply Qle_bool_iff in Es. rewrite Hr.
    change 0 with (inject_Z 0) in Es. rewrite <- Zle_Qle in Es.
    unfold n. now rewrite Z.abs_eq.
  - rewrite Hr. apply not_true_iff_false in Es.
    assert (z < 0)%Z.
    { destruct (Z_lt_le_dec z 0) as [H|H]; [exact H|]. exfalso. apply Es.
      apply Qle_bool_iff. change 0 with (inject_Z 0). now rewrite <- Zle_Qle. }
    unfold n. rewrite Z.abs_neq by lia.
    rewrite inject_Z_opp. ring.
Qed.

Lemma add_whole (x y : Q) (a b : Z) :
  x == inject_Z a -> y == inject_Z b ->
  (Z.abs (a + b) < 2 ^ 53)%Z ->
  add (fin x) (fin y) = fin (inject_Z (a + b)).
Proof.
  intros Hx Hy H. cbn [add]. apply round64_whole; [exact H|].
  now rewrite Hx, Hy, inject_Z_plus.
Qed.

Lemma sub_whole (x y : Q) (a b : Z) :
  x == inject_Z a -> y == inject_Z b ->
  (Z.abs (a - b) < 2 ^ 53)%Z ->
  sub (fin x) (fin y) = fin (inject_Z (a - b)).
Proof.
  intros Hx Hy H. unfold sub, opp.
  apply (add_whole x (Qred (- y)) a (- b)); [exact Hx| |exact H].
  rewrite Qred_correct, Hy. now rewrite inject_Z_opp.
Qed.

Lemma ltb_whole (x y : Q) (a b : Z) :
  x == inject_Z a -> y == inject_Z b ->
  ltb (fin x) (fin y) = (a <? b)%Z.
Proof.
  intros Hx Hy. cbn [ltb]. destruct (a <? b)%Z eqn:E.
  - apply Z.ltb_lt in E. apply NumFacts.ltb_lt. rewrite Hx, Hy.
    now rewrite <- Zlt_Qlt.
  - apply Z.ltb_ge in E. apply NumFacts.ltb_ge. rewrite Hx, Hy.
    now rewrite <- Zle_Qle.
Qed.

Lemma trunc_whole (a b : Z) :
  (0 < b)%Z -> trunc (inject_Z a / inject_Z b) = Z.quot a b.
Proof.
  intro Hb. destruct b as [|p|p]; try lia.
  unfold trunc, Qdiv, Qmult, Qinv, inject_Z. cbn [Qnum Qden].
  rewrite Z.mul_1_r. reflexivity.
Qed.

(** The remainder of whole numbers is [Z.rem]. *)
Lemma rem_whole (a b : Z) :
  (0 < b)%Z ->
  rem (fin (inject_Z a)) (fin (inject_Z b)) = fin (inject_Z (Z.rem a b)).
Proof.
  intro Hb. cbn [rem]. unfold Num.rem.
  destruct (Qeq_bool (inject_Z b) 0) eqn:E.
  { apply Qeq_bool_iff in E. unfold Qeq in E. cbn in E. lia. }
  f_equal. apply Qred_whole. rewrite trunc_whole by assumption.
  assert (Hr : Z.rem a b = (a + - (b * Z.quot a b))%Z)
    by (pose proof (Z.quot_rem' a b); lia).
  rewrite Hr, inject_Z_plus, inject_Z_opp, inject_Z_mult. ring.
Qed.

(** *** Known results of binary64 arithmetic *)

(** The rounding at values whose doubles are known: one tenth and one
    third; [0.1 + 0.2], which is not the double [0.3]; the jiffy
    [1000/60]; the ties [2^53 + 1] (down to the even [2^53]) and
    [2^53 + 3] (up to the even [2^53 + 4]); the least positive double
    [2^-1074], half of which is a tie and rounds to zero, and three
    quarters of which rounds up to it; the greatest double
    [2^1024 - 2^971], and the overflow at [2^1024 - 2^970]. *)
Lemma round64_samples :
  round64 (1 # 10) = fin (3602879701896397 # 36028797018963968) /\
  div (fin 1) (fin 3) = fin (6004799503160661 # 18014398509481984) /\
  add (fin (3602879701896397 # 36028797018963968))
      (fin (3602879701896397 # 18014398509481984))
  = fin (1351079888211149 # 4503599627370496) /\
  round64 (3 # 10) = fin (5404319552844595 # 18014398509481984) /\
  div (fin 1000) (fin 60) = fin (4691249611844267 # 281474976710656) /\
  add (fin 9007199254740992) (fin 1) = fin 9007199254740992 /\
  add (fin 9007199254740994) (fin 1) = fin 9007199254740996 /\
  round64 (pow2 (-1074)) = fin (pow2 (-1074)) /\
  round64 (pow2 (-1075)) = fin 0 /\
  round64 (3 * pow2 (-1076)) = fin (pow2 (-1074)) /\
  round64 (pow2 1024 - pow2 971) = fin (pow2 1024 - pow2 971) /\
  round64 (pow2 1024 - pow2 970) = inf false /\
  round64 (- (pow2 1024 - pow2 970)) = inf true /\
  div (fin 1) (fin 0) = inf false /\
  div (fin 0) (fin 0) = nan /\
  rem (fin (-7)) (fin 2) = fin (-1) /\
  floor (fin (- (1 # 2))) = fin (-1).
Proof. split_conj; vm_compute; reflexivity. Qed.

(** *** The error of one rounding *)

Lemma pow2_add (e e' : Z) : pow2 (e + e') == pow2 e * pow2 e'.
Proof. unfold pow2. apply Qpower_plus. discriminate. Qed.

Lemma pow2_mono (e e' : Z) : (e <= e')%Z -> pow2 e <= pow2 e'.
Proof. intro H. unfold pow2. apply Qpower_le_compat_l; [exact H|discriminate]. Qed.

(** The exponent that [ilog2] finds is not above the number. *)
Lemma ilog2_le (a : Q) : 0 < a -> pow2 (ilog2 a) <= a.
Proof.
  intro Ha. unfold ilog2.
  destruct (Qle_bool (pow2 (Z.log2 (Qnum a) - Z.log2 (Z.pos (Qden a)))) a) eqn:E.
  { now apply Qle_bool_iff in E. }
  clear E. destruct a as [n d]. cbn [Qnum Qden].
  assert (Hn : (0 < n)%Z) by (unfold Qlt in Ha; cbn in Ha; lia).
  pose proof (Z.log2_nonneg n) as Hl0.
  pose proof (Z.log2_nonneg (Z.pos d)) as Hd0.
  pose proof (Z.log2_spec n Hn) as [Hn1 _].
  pose proof (Z.log2_spec (Z.pos d) ltac:(lia)) as [_ Hd1].
  replace (Z.log2 n - Z.log2 (Z.pos d) - 1)%Z
    with (Z.log2 n + - Z.succ (Z.log2 (Z.pos d)))%Z by lia.
  rewrite pow2_add, pow2_nonneg by lia.
  rewrite pow2_nonpos by lia. rewrite Z.opp_involutive.
  set (A := (2 ^ Z.log2 n)%Z) in *.
  set (B := (2 ^ Z.succ (Z.log2 (Z.pos d)))%Z) in *.
  assert (HB : 0 < inject_Z B).
  { change 0 with (inject_Z 0). rewrite <- Zlt_Qlt. lia. }
  rewrite (Qmake_Qdiv n d).
  apply Qle_shift_div_l.
  { change 0 with (inject_Z 0). rewrite <- Zlt_Qlt. lia. }
  setoid_replace (inject_Z A * / inject_Z B * inject_Z (Z.pos d))
    with ((inject_Z A * inject_Z (Z.pos d)) / inject_Z B)
    by (field; intro H0; rewrite H0 in HB; discriminate).
  apply Qle_shift_div_r; [exact HB|].
  rewrite <- !inject_Z_mult, <- Zle_Qle. nia.
Qed.

Lemma rne_close (q : Q) :
  inject_Z (rne q) - q <= 1 # 2 /\ q - inject_Z (rne q) <= 1 # 2.
Proof.
  unfold rne.
  pose proof (Qfloor_le q) as Hlo. pose proof (Qlt_floor q) as Hhi.
  rewrite inject_Z_plus in Hhi. change (inject_Z 1) with 1 in Hhi.
  destruct (Qcompare (q - inject_Z (Qfloor q)) (1 # 2)) eqn:E.
  - apply Qeq_alt in E.
    destruct (Z.even (Qfloor q)); rewrite ?inject_Z_plus;
      change (inject_Z 1) with 1; lra.
  - apply Qlt_alt in E. lra.
  - apply Qgt_alt in E. rewrite inject_Z_plus. change (inject_Z 1) with 1. lra.
Qed.

Lemma rne_nonneg (q : Q) : 0 <= q -> (0 <= rne q)%Z.
Proof.
  intro H. unfold rne.
  assert (Hf : (0 <= Qfloor q)%Z)
    by (change 0%Z with (Qfloor 0); now apply Qfloor_resp_le).
  destruct (Qcompare (q - inject_Z (Qfloor q)) (1 # 2));
    [destruct (Z.even (Qfloor q))| |]; lia.
Qed.

(** Rounding a number that is not negative and not above [2^62]: the
    result is finite, not negative, and above the number by at most
    its [2^-53]th part and [2^-1075]. *)
Lemma round64_bound (q : Q) :
  0 <= q -> q <= 4611686018427387904 ->
  exists r : Q,
    round64 q = fin r /\ 0 <= r /\
    r <= q + q * (1 # 9007199254740992) + pow2 (-1075).
Proof.
  intros H0 Hmax. unfold round64.
  pose proof (Qred_correct q) as Hq'.
  pose proof (pow2_pos (-1075)) as Heta.
  set (q' := Qred q) in *.
  destruct (Qeq_bool q' 0) eqn:E0.
  { exists 0. split; [reflexivity|]. split; lra. }
  apply Qeq_bool_neq in E0.
  assert (Hq0 : 0 < q') by lra.
  assert (Habs : Qabs q' = q').
  { destruct q' as [n d]. unfold Qabs. f_equal.
    unfold Qlt in Hq0. cbn in Hq0. lia. }
  rewrite Habs.
  set (e := Z.max (ilog2 q' - 52) (-1074)).
  pose proof (pow2_pos e) as He.
  set (z := q' / pow2 e).
  assert (Hz : z * pow2 e == q') by (unfold z; field; lra).
  assert (Hz0 : 0 <= z).
  { unfold z. apply Qle_shift_div_l; [exact He|]. lra. }
  pose proof (rne_close z) as [Hc _].
  pose proof (rne_nonneg z Hz0) as Hm.
  set (m := rne z) in *.
  assert (Hm' : 0 <= inject_Z m)
    by (change 0 with (inject_Z 0); now rewrite <- Zle_Qle).
  assert (Hr0 : 0 <= inject_Z m * pow2 e)
    by (apply Qmult_le_0_compat; lra).
  assert (Hr1 : inject_Z m * pow2 e <= q' + (1 # 2) * pow2 e).
  { rewrite <- Hz.
    setoid_replace (z * pow2 e + (1 # 2) * pow2 e)
      with ((z + (1 # 2)) * pow2 e) by ring.
    apply Qmult_le_compat_r; lra. }
  assert (Hulp : (1 # 2) * pow2 e
                 <= q' * (1 # 9007199254740992) + pow2 (-1075)).
  { assert (H1 : (1 # 2) * pow2 (ilog2 q' - 52)
                 <= q' * (1 # 9007199254740992)).
    { replace (ilog2 q' - 52)%Z with (ilog2 q' + -52)%Z by lia.
      rewrite pow2_add.
      pose proof (ilog2_le q' Hq0) as Hl.
      assert (Hp : pow2 (-52) == 1 # 4503599627370496) by reflexivity.
      rewrite Hp. lra. }
    assert (H2 : (1 # 2) * pow2 (-1074) == pow2 (-1075)).
    { replace (-1074)%Z with (-1075 + 1)%Z by lia. rewrite pow2_add.
      assert (Hp : pow2 1 == 2) by reflexivity. rewrite Hp. ring. }
    pose proof (pow2_pos (ilog2 q' - 52)) as Hp1.
    pose proof (pow2_pos (-1074)) as Hp2.
    unfold e. destruct (Z.max_spec (ilog2 q' - 52) (-1074)) as [[_ ->]|[_ ->]];
      lra. }
  assert (Heta1 : pow2 (-1075) <= 1).
  { assert (Hp : pow2 0 == 1) by reflexivity. rewrite <- Hp.
    apply pow2_mono. lia. }
  assert (Hbig : 18446744073709551616 <= pow2 1024).
  { rewrite pow2_nonneg by lia.
    change 18446744073709551616 with (inject_Z (2 ^ 64)).
    rewrite <- Zle_Qle. apply Z.pow_le_mono_r; lia. }
  replace (Qle_bool (pow2 1024) (inject_Z m * pow2 e)) with false.
  2:{ symmetry. apply not_true_iff_false. intro H.
      apply Qle_bool_iff in H. lra. }
  replace (Qle_bool 0 q') with true
    by (symmetry; apply Qle_bool_iff; lra).
  exists (Qred (inject_Z m * pow2 e)). split; [reflexivity|].
  rewrite Qred_correct. split; [exact Hr0|]. lra.
Qed.

End DoubleFacts.

(* ===================================================================== *)
(** ** The frame clock *)
(* ===================================================================== *)

Module TimelineFacts.

Import Num NumFacts Double DoubleFacts Timeline Spec Samples.
Import Lqa.
Local Open Scope Q_scope.

(** *** Sums of durations *)

Lemma fold_delay_acc (fs : list FrameData) (a : Q) :
  fold_left (fun a b => a + delay b) fs a == a + totalDuration fs.
Proof.
  unfold totalDuration. revert a.
  induction fs as [|f fs IH]; intro a; simpl.
  - ring.
  - rewrite (IH (a + delay f)), (IH (0 + delay f)). ring.
Qed.

Lemma total_cons (f : FrameData) (fs : list FrameData) :
  totalDuration (f :: fs) == delay f + totalDuration fs.
Proof.
  unfold totalDuration at 1. simpl. rewrite fold_delay_acc. ring.
Qed.

Lemma cumulative_cons (f : FrameData) (fs : list FrameData) (k : nat) :
  cumulativeDuration (f :: fs) (S k) == delay f + cumulativeDuration fs k.
Proof. unfold cumulativeDuration. simpl. apply total_cons. Qed.

Lemma cumulative_0 (fs : list FrameData) : cumulativeDuration fs 0 == 0.
Proof. reflexivity. Qed.

Lemma total_nonneg (fs : list FrameData) :
  Forall (fun f => 0 < delay f) fs -> 0 <= totalDuration fs.
Proof.
  induction 1 as [|f fs Hf _ IH]; [discriminate|].
  rewrite total_cons. lra.
Qed.

(** *** Timelines of whole milliseconds *)

Lemma whole_positive (fs : list FrameData) :
  Forall (fun f => exists d : Z, delay f == inject_Z d /\ (0 < d)%Z) fs ->
  Forall (fun f => 0 < delay f) fs.
Proof.
  apply Forall_impl. intros f (d & Hf & Hd). rewrite Hf.
  change 0 with (inject_Z 0). now rewrite <- Zlt_Qlt.
Qed.

(** The running sum of [drawLayer] is exact on whole durations. *)
Lemma total_whole_acc (fs : list FrameData) :
  Forall (fun f => exists d : Z, delay f == inject_Z d /\ (0 < d)%Z) fs ->
  forall a S : Z,
    totalDuration fs == inject_Z S ->
    (0 <= a)%Z -> (a + S < 2 ^ 53)%Z ->
    fold_left (fun x b => add x (fin (delay b))) fs (fin (inject_Z a))
    = fin (inject_Z (a + S)).
Proof.
  induction 1 as [|f fs (d & Hd & Hpos) Hfs IH]; intros a S HS Ha Hlt.
  - cbn. f_equal. unfold totalDuration in HS. cbn in HS.
    assert (S = 0%Z).
    { change 0 with (inject_Z 0) in HS. symmetry in HS.
      unfold Qeq in HS. cbn in HS. lia. }
    subst S. now rewrite Z.add_0_r.
  - cbn [fold_left].
    rewrite total_cons, Hd in HS.
    assert (Hrest : totalDuration fs == inject_Z (S - d)).
    { unfold Zminus. rewrite inject_Z_plus, inject_Z_opp. lra. }
    pose proof (total_nonneg fs (whole_positive fs Hfs)) as H0.
    assert (HSd : (0 <= S - d)%Z).
    { rewrite Hrest in H0. change 0 with (inject_Z 0) in H0.
      now rewrite <- Zle_Qle in H0. }
    rewrite (add_whole (inject_Z a) (delay f) a d) by (reflexivity || easy || lia).
    rewrite (IH (a + d)%Z (S - d)%Z Hrest) by lia.
    f_equal. f_equal. lia.
Qed.

Lemma total_whole (fs : list FrameData) (T : Z) :
  Forall (fun f => exists d : Z, delay f == inject_Z d /\ (0 < d)%Z) fs ->
  totalDuration fs == inject_Z T -> (T < 2 ^ 53)%Z ->
  total fs = fin (inject_Z T).
Proof.
  intros Hw HT Hlt. unfold total.
  change (fin 0) with (fin (inject_Z 0)).
  now rewrite (total_whole_acc fs Hw 0%Z T HT) by lia.
Qed.

(** On whole durations the scan stops at the first frame whose
    cumulative duration strictly exceeds [t]. *)
Lemma scan_whole (fs : list FrameData) :
  Forall (fun f => exists d : Z, delay f == inject_Z d /\ (0 < d)%Z) fs ->
  forall (t : Z) (frame : FrameData),
    fs <> [] ->
    (Z.abs t < 2 ^ 53)%Z ->
    inject_Z t < totalDuration fs ->
    exists (i : nat) (f : FrameData),
      nth_error fs i = Some f /\
      scan fs (fin (inject_Z t)) frame = f /\
      firstExceeding fs (inject_Z t) i.
Proof.
  induction 1 as [|f fs (d & Hd & Hpos) Hfs IH]; intros t frame Hne Ht Hlt;
    [congruence|].
  cbn [scan]. rewrite (ltb_whole (inject_Z t) (delay f) t d) by easy.
  destruct (t <? d)%Z eqn:E.
  - apply Z.ltb_lt in E. exists 0%nat, f. split; [reflexivity|].
    split; [reflexivity|]. split.
    + rewrite cumulative_cons, cumulative_0, Hd.
      rewrite Zlt_Qlt in E. lra.
    + intros j Hj. lia.
  - apply Z.ltb_ge in E.
    rewrite total_cons, Hd in Hlt.
    assert (Hlt' : inject_Z (t - d) < totalDuration fs).
    { unfold Zminus. rewrite inject_Z_plus, inject_Z_opp. lra. }
    assert (Hne' : fs <> []).
    { intro E0. subst fs. unfold totalDuration in Hlt'. cbn in Hlt'.
      change 0 with (inject_Z 0) in Hlt'. rewrite <- Zlt_Qlt in Hlt'. lia. }
    rewrite (sub_whole (inject_Z t) (delay f) t d) by (reflexivity || easy || lia).
    destruct (IH (t - d)%Z frame Hne' ltac:(lia) Hlt')
      as (i & f' & Hn & Hs & Hc & Hb).
    exists (S i), f'. split; [exact Hn|]. split; [exact Hs|].
    assert (Htd : inject_Z (t - d) == inject_Z t - inject_Z d)
      by (unfold Zminus; rewrite inject_Z_plus, inject_Z_opp; ring).
    split.
    + rewrite cumulative_cons, Hd. rewrite Htd in Hc. lra.
    + intros [|j] Hj.
      * rewrite cumulative_cons, cumulative_0, Hd.
        rewrite Zle_Qle in E. lra.
      * rewrite cumulative_cons, Hd.
        assert (cumulativeDuration fs (S j) <= inject_Z (t - d))
          by (apply Hb; lia).
        rewrite Htd in H. lra.
Qed.

(** The clock of [drawLayer] on a timeline of whole milliseconds. *)
Lemma activeFrame_whole (fs : list FrameData) (T time : Z) :
  (1 < List.length fs)%nat ->
  Forall (fun f => exists d : Z, delay f == inject_Z d /\ (0 < d)%Z) fs ->
  totalDuration fs == inject_Z T -> (T < 2 ^ 53)%Z ->
  (Z.abs time < 2 ^ 53)%Z ->
  (0 < T)%Z /\
  rem (fin (inject_Z time)) (total fs) = fin (inject_Z (Z.rem time T)) /\
  exists (i : nat) (f : FrameData),
    activeFrame fs (fin (inject_Z time)) = Some f /\
    nth_error fs i = Some f /\
    firstExceeding fs (inject_Z (Z.rem time T)) i.
Proof.
  intros Hlen Hw HT Hlt Htime.
  assert (Hne : fs <> []) by (destruct fs; cbn in Hlen; [lia|discriminate]).
  assert (HTpos : (0 < T)%Z).
  { destruct fs as [|f fs]; [congruence|].
    pose proof (whole_positive _ Hw) as Hp.
    apply Forall_cons_iff in Hp. destruct Hp as [Hf Hp].
    pose proof (total_nonneg fs Hp). rewrite total_cons in HT.
    assert (H0 : 0 < inject_Z T) by lra.
    change 0 with (inject_Z 0) in H0. now rewrite <- Zlt_Qlt in H0. }
  assert (Hrem : rem (fin (inject_Z time)) (total fs)
                 = fin (inject_Z (Z.rem time T)))
    by (rewrite (total_whole fs T Hw HT Hlt); now apply rem_whole).
  split; [exact HTpos|]. split; [exact Hrem|].
  pose proof (Z.rem_bound_abs time T ltac:(lia)) as Hb.
  assert (Hr : (Z.rem time T < T)%Z) by lia.
  unfold activeFrame. destruct fs as [|frame rest] eqn:Efs; [congruence|].
  apply Nat.ltb_lt in Hlen. rewrite Hlen, Hrem.
  destruct (scan_whole (frame :: rest) Hw (Z.rem time T) frame Hne)
    as (i & f & Hn & Hs & Hfe).
  - lia.
  - rewrite HT. now rewrite <- Zlt_Qlt.
  - exists i, f. rewrite Hs. now split.
Qed.

(** C1 (divergence of the program).  [drawLayer] does compute
    [t = time % total] and scans for the first frame with [t < delay]
    while it subtracts the delays from [t], but it does so in doubles,
    and the frame it starts from, [frames[0]], is what it draws when the
    scan runs through.  Take the two frames an animation with the rates
    2 and 5 decodes to, delays [2 * (1000/60)] and [5 * (1000/60)] ms,
    at the elapsed time [7 * (1000/60)] ms.  The total is
    116.66666666666669, so [t] is the elapsed time, 116.66666666666667;
    the cumulative durations are 33.33... and 116.66...69, so the
    first frame whose cumulative duration strictly exceeds [t] is
    frame 1, which is also the last frame.  In the program
    [t - delay0] rounds to exactly [delay1], the test [t < delay1]
    fails, no frame matches and frame 0 is drawn.  The export reaches
    that time: it is the offset of pass 1 when the first frame of the
    master layer has the rate 7.
    On the durations [100, 150, 250] of the claim the program does as
    the claim says: times 0 and 99 give frame 0, times 100 and 249 frame
    1, times 250 and 499 frame 2, and 500 wraps to frame 0. *)
Theorem activeFrame_keeps_first_frame_after_rounding :
  (mul (fin 2) (div (fin 1000) (fin 60)) = fin jiffies2 /\
   mul (fin 5) (div (fin 1000) (fin 60)) = fin jiffies5 /\
   mul (fin 7) (div (fin 1000) (fin 60)) = fin jiffies7 /\
   Encode.timeOffset (baseWith (timeline [jiffies7; jiffies1; jiffies1])) 1
   = fin jiffies7)
  /\
  (exists t,
      Num.rem jiffies7 (totalDuration timeline25) = Some t /\
      t == jiffies7 /\
      firstExceeding timeline25 t 1 /\
      List.length timeline25 = 2%nat /\
      nth_error timeline25 1 = Some {| image := still 1; delay := jiffies5 |})
  /\
  (total timeline25 = fin (2052421705181867 # 17592186044416) /\
   rem (fin jiffies7) (total timeline25) = fin jiffies7 /\
   ltb (fin jiffies7) (fin jiffies2) = false /\
   sub (fin jiffies7) (fin jiffies2) = fin jiffies5 /\
   ltb (fin jiffies5) (fin jiffies5) = false /\
   activeFrame timeline25 (fin jiffies7) = nth_error timeline25 0 /\
   nth_error timeline25 0 = Some {| image := still 0; delay := jiffies2 |})
  /\
  (let fs := timeline [100; 150; 250] in
   total fs = fin 500 /\
   activeFrame fs 0 = nth_error fs 0 /\
   activeFrame fs 99 = nth_error fs 0 /\
   activeFrame fs 100 = nth_error fs 1 /\
   activeFrame fs 249 = nth_error fs 1 /\
   activeFrame fs 250 = nth_error fs 2 /\
   activeFrame fs 499 = nth_error fs 2 /\
   activeFrame fs 500 = nth_error fs 0 /\
   nth_error fs 0 = Some {| image := still 0; delay := 100 |} /\
   nth_error fs 1 = Some {| image := still 1; delay := 150 |} /\
   nth_error fs 2 = Some {| image := still 2; delay := 250 |}).
Proof.
  split; [split_conj; vm_compute; reflexivity|].
  split.
  - eexists. split; [vm_compute; reflexivity|].
    split; [vm_compute; reflexivity|].
    split; [|split; reflexivity].
    split.
    + vm_compute. reflexivity.
    + intros j Hj. assert (j = 0%nat) by lia. subst j.
      vm_compute. discriminate.
  - split; [split_conj; vm_compute; reflexivity|].
    cbv zeta. split_conj; vm_compute; reflexivity.
Qed.

End TimelineFacts.

(* ===================================================================== *)
(** ** Loops *)
(* ===================================================================== *)

Lemma Ok_inj {A : Type} (a b : A) : Ok a = Ok b -> a = b.
Proof. congruence. Qed.

Section WhileFacts.

Context {S : Type}.
Variable cond : S -> bool.

(** A loop whose body, whenever it completes, lowers a natural-number
    measure, finishes within any budget above the initial measure. *)
Lemma while_total (m : S -> nat) (body : S -> Js S) :
  (forall s, cond s = true ->
             match body s with
             | Ok s' => (m s' < m s)%nat
             | Throw _ => True
             | OutOfFuel => False
             end) ->
  forall fuel s, (m s < fuel)%nat -> while fuel cond body s <> OutOfFuel.
Proof.
  intros Hstep fuel.
  induction fuel as [|fuel IH]; intros s Hm; [lia|].
  simpl. destruct (cond s) eqn:Hc; [|discriminate].
  specialize (Hstep s Hc).
  destruct (body s) as [s'| |]; [|discriminate|contradiction].
  apply IH. lia.
Qed.

(** A budget that was enough stays enough, with the same outcome. *)
Lemma while_more_fuel (body : S -> Js S) :
  forall fuel fuel' s,
    (fuel <= fuel')%nat ->
    while fuel cond body s <> OutOfFuel ->
    while fuel' cond body s = while fuel cond body s.
Proof.
  induction fuel as [|fuel IH]; intros fuel' s Hle Hne.
  - simpl in Hne. congruence.
  - destruct fuel' as [|fuel']; [lia|].
    simpl in *. destruct (cond s); [|reflexivity].
    destruct (body s) as [s'| |]; try reflexivity.
    apply IH; [lia|assumption].
Qed.

Lemma while_ext (body body' : S -> Js S) :
  (forall s, body s = body' s) ->
  forall fuel s, while fuel cond body s = while fuel cond body' s.
Proof.
  intros Hext fuel.
  induction fuel as [|fuel IH]; intro s; simpl; [reflexivity|].
  destruct (cond s); [|reflexivity].
  rewrite <- Hext. destruct (body s); auto.
Qed.

End WhileFacts.

(* ===================================================================== *)
(** ** Typed arrays *)
(* ===================================================================== *)

Module BytesFacts.

Import Bytes.
Local Open Scope Z_scope.

Lemma u8_range (b : byte) : 0 <= u8 b < 256.
Proof.
  unfold u8. pose proof (Byte.to_N_bounded b). lia.
Qed.

Lemma u8_toUint8 (z : Z) : u8 (toUint8 z) = z mod 256.
Proof.
  unfold u8, toUint8.
  pose proof (Z.mod_pos_bound z 256 ltac:(lia)) as Hm.
  destruct (Byte.of_N (Z.to_N (z mod 256))) as [b|] eqn:E.
  - apply Byte.to_of_N in E. rewrite E. lia.
  - apply Byte.of_N_None_iff in E. lia.
Qed.

Lemma toUint8_u8 (b : byte) : toUint8 (u8 b) = b.
Proof.
  unfold toUint8, u8.
  pose proof (Byte.to_N_bounded b) as Hb.
  rewrite Z.mod_small by lia.
  rewrite N2Z.id, Byte.of_to_N. reflexivity.
Qed.

Lemma get_range (bs : list byte) (i v : Z) :
  get bs i = Some v -> 0 <= v < 256 /\ 0 <= i < len bs.
Proof.
  unfold get, len. destruct (i <? 0) eqn:Hi; [discriminate|].
  apply Z.ltb_ge in Hi.
  destruct (nth_error bs (Z.to_nat i)) as [b|] eqn:E; [|discriminate].
  simpl. intro H. injection H as <-.
  split; [apply u8_range|].
  assert (Z.to_nat i < List.length bs)%nat
    by (apply nth_error_Some; congruence).
  lia.
Qed.

(** A successful 32-bit read lies inside the buffer and yields an
    unsigned 32-bit value. *)
Lemma getUint32_ok (bs : list byte) (off v : Z) :
  getUint32 bs off = Ok v ->
  0 <= off /\ off + 4 <= len bs /\ 0 <= v < 4294967296.
Proof.
  unfold getUint32.
  destruct ((off <? 0) || (len bs <? off + 4)) eqn:Hb; [discriminate|].
  apply orb_false_iff in Hb. destruct Hb as [H0 H4].
  apply Z.ltb_ge in H0. apply Z.ltb_ge in H4.
  destruct (get bs off) as [b0|] eqn:E0; [|discriminate].
  destruct (get bs (off + 1)) as [b1|] eqn:E1; [|discriminate].
  destruct (get bs (off + 2)) as [b2|] eqn:E2; [|discriminate].
  destruct (get bs (off + 3)) as [b3|] eqn:E3; [|discriminate].
  apply get_range in E0, E1, E2, E3.
  intro H. apply Ok_inj in H. subst v. lia.
Qed.

Lemma getUint32_total (bs : list byte) (off : Z) :
  getUint32 bs off <> OutOfFuel.
Proof.
  unfold getUint32.
  destruct ((off <? 0) || (len bs <? off + 4)); [discriminate|].
  destruct (get bs off); [|discriminate].
  destruct (get bs (off + 1)); [|discriminate].
  destruct (get bs (off + 2)); [|discriminate].
  destruct (get bs (off + 3)); discriminate.
Qed.

End BytesFacts.

(* ===================================================================== *)
(** ** The chunk walk of [parseAniFile] *)
(* ===================================================================== *)

Module DecodeFacts.

Import Bytes BytesFacts Decode.
Local Open Scope Z_scope.

Lemma framBody_ok bytes ip icons ip' icons' :
  framBody bytes (ip, icons) = Ok (ip', icons') ->
  ip + 8 <= ip' /\ ip + 8 <= len bytes.
Proof.
  unfold framBody, bind.
  destruct (getUint32 bytes (ip + 4)) as [isz| |] eqn:E; try discriminate.
  apply getUint32_ok in E. destruct E as (H0 & H4 & Hv).
  intro H. injection H as <- _.
  pose proof (Z.mod_pos_bound isz 2 ltac:(lia)). lia.
Qed.

Lemma framBody_total bytes st : framBody bytes st <> OutOfFuel.
Proof.
  destruct st as [ip icons]. unfold framBody, bind.
  pose proof (getUint32_total bytes (ip + 4)) as Ht.
  destruct (getUint32 bytes (ip + 4)); [discriminate|discriminate|congruence].
Qed.

Lemma rateBody_ok bytes p i rs i' rs' :
  rateBody bytes p (i, rs) = Ok (i', rs') ->
  i' = i + 1 /\ 0 <= p + i * 4 /\ p + i * 4 + 4 <= len bytes.
Proof.
  unfold rateBody, bind.
  destruct (getUint32 bytes (p + i * 4)) as [r| |] eqn:E; try discriminate.
  apply getUint32_ok in E. destruct E as (H0 & H4 & Hv).
  intro H. injection H as <- _. lia.
Qed.

Lemma rateBody_total bytes p st : rateBody bytes p st <> OutOfFuel.
Proof.
  destruct st as [i rs]. unfold rateBody, bind.
  pose proof (getUint32_total bytes (p + i * 4)) as Ht.
  destruct (getUint32 bytes (p + i * 4)); [discriminate|discriminate|congruence].
Qed.

(** The sub-chunk loop ends within any budget above the buffer length,
    whatever the declared end of the list is. *)
Lemma fram_loop_total bytes end_ fuel ip icons :
  0 <= ip ->
  (List.length bytes < fuel)%nat ->
  while fuel (framCond end_) (framBody bytes) (ip, icons) <> OutOfFuel.
Proof.
  intros Hip Hfuel.
  apply (while_total (framCond end_) (fun st => left bytes (fst st))).
  - intros [ip0 ic0] _.
    pose proof (framBody_total bytes (ip0, ic0)) as Ht.
    destruct (framBody bytes (ip0, ic0)) as [[ip1 ic1]| |] eqn:E;
      [|exact I|congruence].
    apply framBody_ok in E. unfold left; simpl. lia.
  - unfold left, len; simpl. lia.
Qed.

Lemma rate_loop_total bytes size p fuel rs :
  0 <= p ->
  (List.length bytes < fuel)%nat ->
  while fuel (rateCond size) (rateBody bytes p) (0, rs) <> OutOfFuel.
Proof.
  intros Hp Hfuel.
  apply (while_total (rateCond size)
           (fun st => left bytes (p + fst st * 4))).
  - intros [i0 rs0] _.
    pose proof (rateBody_total bytes p (i0, rs0)) as Ht.
    destruct (rateBody bytes p (i0, rs0)) as [[i1 rs1]| |] eqn:E;
      [|exact I|congruence].
    apply rateBody_ok in E. unfold left; simpl. lia.
  - unfold left, len; simpl. lia.
Qed.

(** A completed top-level pass moves [pos] past the 8-byte chunk header
    at least, and that header lay inside the buffer. *)
Lemma chunkBody_ok fuel bytes st st' :
  chunkBody fuel bytes st = Ok st' ->
  pos st + 8 <= pos st' /\ 0 <= pos st + 4 /\ pos st + 8 <= len bytes.
Proof.
  unfold chunkBody, bind.
  destruct (getUint32 bytes (pos st + 4)) as [size| |] eqn:E; try discriminate.
  apply getUint32_ok in E. destruct E as (H0 & H4 & Hv).
  pose proof (Z.mod_pos_bound size 2 ltac:(lia)) as Hm.
  match goal with
  | |- match ?inner with _ => _ end = _ -> _ =>
      destruct inner as [st1| |]; try discriminate
  end.
  intro H. injection H as <-. simpl. lia.
Qed.

Lemma chunkBody_total fuel bytes st :
  (List.length bytes < fuel)%nat ->
  chunkBody fuel bytes st <> OutOfFuel.
Proof.
  intro Hfuel. unfold chunkBody, bind.
  pose proof (getUint32_total bytes (pos st + 4)) as Ht.
  destruct (getUint32 bytes (pos st + 4)) as [size| |] eqn:E;
    [|discriminate|congruence].
  apply getUint32_ok in E. destruct E as (H0 & H4 & Hv).
  destruct (decodesTo (slice bytes (pos st) (pos st + 4)) "anih" && (36 <=? size)).
  { pose proof (getUint32_total bytes (pos st + 8 + 28)) as Ht'.
    destruct (getUint32 bytes (pos st + 8 + 28)); [discriminate|discriminate|congruence]. }
  destruct (decodesTo (slice bytes (pos st) (pos st + 4)) "rate").
  { pose proof (rate_loop_total bytes size (pos st + 8) fuel (rates st)
                  ltac:(lia) Hfuel) as Hr.
    destruct (while fuel (rateCond size) (rateBody bytes (pos st + 8)) (0, rates st));
      [discriminate|discriminate|congruence]. }
  destruct (decodesTo (slice bytes (pos st) (pos st + 4)) "LIST"); [|discriminate].
  destruct (decodesTo (slice bytes (pos st + 8) (pos st + 8 + 4)) "fram");
    [|discriminate].
  pose proof (fram_loop_total bytes (pos st + 8 + size) fuel (pos st + 8 + 4)
                (iconChunks st) ltac:(lia) Hfuel) as Hf.
  destruct (while fuel (framCond (pos st + 8 + size)) (framBody bytes)
              (pos st + 8 + 4, iconChunks st));
    [discriminate|discriminate|congruence].
Qed.

(** Past the buffer length the budget no longer matters to one pass. *)
Lemma chunkBody_fuel fuel bytes st :
  (List.length bytes < fuel)%nat ->
  chunkBody fuel bytes st = chunkBody (S (List.length bytes)) bytes st.
Proof.
  intro Hfuel. unfold chunkBody, bind.
  destruct (getUint32 bytes (pos st + 4)) as [size| |] eqn:E; try reflexivity.
  apply getUint32_ok in E. destruct E as (H0 & H4 & Hv).
  destruct (decodesTo (slice bytes (pos st) (pos st + 4)) "anih" && (36 <=? size));
    [reflexivity|].
  destruct (decodesTo (slice bytes (pos st) (pos st + 4)) "rate").
  { rewrite (while_more_fuel (rateCond size) (rateBody bytes (pos st + 8))
               (S (List.length bytes)) fuel); [reflexivity|lia|].
    apply rate_loop_total; lia. }
  destruct (decodesTo (slice bytes (pos st) (pos st + 4)) "LIST"); [|reflexivity].
  destruct (decodesTo (slice bytes (pos st + 8) (pos st + 8 + 4)) "fram");
    [|reflexivity].
  rewrite (while_more_fuel (framCond (pos st + 8 + size)) (framBody bytes)
             (S (List.length bytes)) fuel); [reflexivity|lia|].
  apply fram_loop_total; lia.
Qed.

Lemma walk_total bytes fuel :
  (List.length bytes < fuel)%nat -> walk fuel bytes <> OutOfFuel.
Proof.
  intro Hfuel. unfold walk.
  destruct (negb (decodesTo (slice bytes 0 4) "RIFF")); [discriminate|].
  apply (while_total (chunkCond bytes) (fun st => left bytes (pos st))).
  - intros st _.
    pose proof (chunkBody_total fuel bytes st Hfuel) as Ht.
    destruct (chunkBody fuel bytes st) as [st'| |] eqn:E;
      [|exact I|congruence].
    apply chunkBody_ok in E. unfold left. lia.
  - unfold left, len, walkStart; simpl. lia.
Qed.

Lemma walk_fuel bytes fuel :
  (List.length bytes < fuel)%nat ->
  walk fuel bytes = walk (S (List.length bytes)) bytes.
Proof.
  intro Hfuel. unfold walk.
  destruct (negb (decodesTo (slice bytes 0 4) "RIFF")) eqn:Hriff; [reflexivity|].
  rewrite (while_ext (chunkCond bytes) (chunkBody fuel bytes)
             (chunkBody (S (List.length bytes)) bytes)
             (fun st => chunkBody_fuel fuel bytes st Hfuel)).
  apply while_more_fuel; [lia|].
  pose proof (walk_total bytes (S (List.length bytes)) ltac:(lia)) as Ht.
  unfold walk in Ht. rewrite Hriff in Ht. exact Ht.
Qed.

End DecodeFacts.

Module WalkProperties.

Import Bytes BytesFacts Decode DecodeFacts Samples.
Local Open Scope Z_scope.

(** A chunk that declares no payload still costs its 8-byte header. *)
Example walk_zero_size :
  walk (S (List.length zeroSizeAni)) zeroSizeAni
  = Ok {| pos := 28; defaultRate := 60; rates := []; iconChunks := [] |}.
Proof. vm_compute. reflexivity. Qed.

(** Declared sizes beyond the buffer: the slices are clamped, the
    positions run past the end, and both loops stop. *)
Example walk_oversized :
  walk (S (List.length oversizedAni)) oversizedAni
  = Ok {| pos := 4294967316; defaultRate := 60; rates := [];
          iconChunks := [repeat x01 14] |}.
Proof. vm_compute. reflexivity. Qed.

(** A rate table that runs past the end of the file ends the decoding
    with the [RangeError] of the first read outside the buffer. *)
Example walk_truncated_rate :
  walk (S (List.length truncatedRateAni)) truncatedRateAni = Throw RangeError.
Proof. vm_compute. reflexivity. Qed.

(** C10. The chunk walk of [parseAniFile] terminates on every byte
    array.  A completed pass of the top-level loop moves [pos] forward
    by at least 8 bytes and so does a completed pass of the sub-chunk
    loop of a [fram] list, whatever size the chunk declares (zero, or
    more than what is left of the buffer); a pass that does not
    complete throws.  Hence the walk ends with a value or an exception
    within any budget above the buffer length, the budget has no
    influence on the outcome, and [parseAniFile] always ends. *)
Theorem ani_walk_terminates :
  (forall (fuel : nat) (bytes : list byte) (st : Walk),
      (List.length bytes < fuel)%nat ->
      match chunkBody fuel bytes st with
      | Ok st' => pos st + 8 <= pos st'
      | Throw _ => True
      | OutOfFuel => False
      end)
  /\
  (forall (bytes : list byte) (ip : Z) (icons : list (list byte)),
      match framBody bytes (ip, icons) with
      | Ok (ip', _) => ip + 8 <= ip'
      | Throw _ => True
      | OutOfFuel => False
      end)
  /\
  (forall (bytes : list byte) (fuel : nat),
      (List.length bytes < fuel)%nat ->
      walk fuel bytes <> OutOfFuel /\
      walk fuel bytes = walk (S (List.length bytes)) bytes)
  /\
  (forall (loadImage : Blob -> Image) (bytes : list byte),
      exists outcome,
        parseAniFile loadImage bytes = outcome /\ outcome <> OutOfFuel).
Proof.
  repeat split.
  - intros fuel bytes st Hfuel.
    pose proof (chunkBody_total fuel bytes st Hfuel) as Ht.
    destruct (chunkBody fuel bytes st) as [st'| |] eqn:E;
      [|exact I|congruence].
    apply chunkBody_ok in E. lia.
  - intros bytes ip icons.
    pose proof (framBody_total bytes (ip, icons)) as Ht.
    destruct (framBody bytes (ip, icons)) as [[ip' icons']| |] eqn:E;
      [|exact I|congruence].
    apply framBody_ok in E. lia.
  - now apply walk_total.
  - now apply walk_fuel.
  - intros loadImage bytes. eexists. split; [reflexivity|].
    unfold parseAniFile, parseAniFileWith, bind.
    pose proof (walk_total bytes (S (List.length bytes)) ltac:(lia)) as Ht.
    destruct (walk (S (List.length bytes)) bytes);
      [discriminate|discriminate|congruence].
Qed.

Lemma ani_walk_terminates_witness :
  (match chunkBody 100 oversizedAni walkStart with
   | Ok st' => pos walkStart + 8 <= pos st'
   | Throw _ => True
   | OutOfFuel => False
   end)
  /\
  (walk 100 oversizedAni <> OutOfFuel /\
   walk 100 oversizedAni = walk (S (List.length oversizedAni)) oversizedAni).
Proof.
  split.
  - apply (proj1 ani_walk_terminates 100%nat oversizedAni walkStart).
    vm_compute. lia.
  - apply (proj1 (proj2 (proj2 ani_walk_terminates)) oversizedAni 100%nat).
    vm_compute. lia.
Defined.

End WalkProperties.

(* ===================================================================== *)
(** ** The export loop *)
(* ===================================================================== *)

Module EncodeFacts.

Import Bytes BytesFacts Encode Spec.

(** *** Choice of the master layer *)

Lemma pickStep_fst (st : nat * option Layer) (l : Layer) :
  fst (pickStep st l) = Nat.max (fst st) (List.length (frames l)).
Proof.
  unfold pickStep.
  destruct (fst st <? List.length (frames l))%nat eqn:E; simpl.
  - apply Nat.ltb_lt in E. lia.
  - apply Nat.ltb_ge in E. lia.
Qed.

Lemma pick_fold_fst (ls : list Layer) :
  forall st, fst (fold_left pickStep ls st) = Nat.max (fst st) (maxFrameCount ls).
Proof.
  induction ls as [|l ls IH]; intro st; simpl.
  - lia.
  - rewrite IH, pickStep_fst. lia.
Qed.

(** [maxFrames] is the greatest frame count, but never below 1. *)
Lemma pickMaster_fst (ls : list Layer) :
  fst (pickMaster ls) = Nat.max 1 (maxFrameCount ls).
Proof. unfold pickMaster. now rewrite pick_fold_fst. Qed.

Lemma firstWith_skip (M : nat) (l : Layer) (ls : list Layer) :
  List.length (frames l) <> M -> firstWith M (l :: ls) = firstWith M ls.
Proof.
  intro H. unfold firstWith. simpl.
  destruct (List.length (frames l) =? M)%nat eqn:E; [|reflexivity].
  apply Nat.eqb_eq in E. contradiction.
Qed.

Lemma firstWith_here (M : nat) (l : Layer) (ls : list Layer) :
  List.length (frames l) = M -> firstWith M (l :: ls) = Some l.
Proof.
  intro H. unfold firstWith. simpl.
  apply Nat.eqb_eq in H. now rewrite H.
Qed.

Lemma pick_fold_snd (ls : list Layer) :
  forall (m : nat) (x : option Layer),
    snd (fold_left pickStep ls (m, x)) =
    if (maxFrameCount ls <=? m)%nat then x
    else firstWith (maxFrameCount ls) ls.
Proof.
  induction ls as [|l ls IH]; intros m x; [reflexivity|].
  cbn [fold_left maxFrameCount fold_right].
  fold (maxFrameCount ls).
  unfold pickStep at 2. cbn [fst].
  destruct (m <? List.length (frames l))%nat eqn:E.
  - apply Nat.ltb_lt in E. rewrite IH.
    destruct (maxFrameCount ls <=? List.length (frames l))%nat eqn:E1.
    + apply Nat.leb_le in E1.
      destruct (Nat.max (List.length (frames l)) (maxFrameCount ls) <=? m)%nat eqn:E2.
      { apply Nat.leb_le in E2. lia. }
      symmetry. apply firstWith_here. lia.
    + apply Nat.leb_gt in E1.
      destruct (Nat.max (List.length (frames l)) (maxFrameCount ls) <=? m)%nat eqn:E2.
      { apply Nat.leb_le in E2. lia. }
      replace (Nat.max (List.length (frames l)) (maxFrameCount ls))
        with (maxFrameCount ls) by lia.
      symmetry. apply firstWith_skip. lia.
  - apply Nat.ltb_ge in E. rewrite IH.
    destruct (maxFrameCount ls <=? m)%nat eqn:E1.
    + apply Nat.leb_le in E1.
      destruct (Nat.max (List.length (frames l)) (maxFrameCount ls) <=? m)%nat eqn:E2;
        [reflexivity|].
      apply Nat.leb_gt in E2. lia.
    + apply Nat.leb_gt in E1.
      destruct (Nat.max (List.length (frames l)) (maxFrameCount ls) <=? m)%nat eqn:E2.
      { apply Nat.leb_le in E2. lia. }
      replace (Nat.max (List.length (frames l)) (maxFrameCount ls))
        with (maxFrameCount ls) by lia.
      symmetry. apply firstWith_skip. lia.
Qed.

(** [masterLayer] is the dominant layer as soon as some layer has two
    frames or more; otherwise it stays the first layer of the stack. *)
Lemma pickMaster_snd (ls : list Layer) :
  snd (pickMaster ls) =
  if (maxFrameCount ls <=? 1)%nat then hd_error ls else dominant ls.
Proof. unfold pickMaster. now rewrite pick_fold_snd. Qed.

Lemma maxFrameCount_attained (ls : list Layer) :
  ls <> [] ->
  exists l, In l ls /\ List.length (frames l) = maxFrameCount ls.
Proof.
  induction ls as [|l ls IH]; intro Hne; [congruence|].
  destruct ls as [|l1 ls].
  - exists l. split; [now left|]. simpl. lia.
  - destruct IH as (l' & Hin & Hlen); [discriminate|].
    destruct (Nat.le_gt_cases (maxFrameCount (l1 :: ls)) (List.length (frames l)))
      as [Hle|Hgt].
    + exists l. split; [now left|].
      change (maxFrameCount (l :: l1 :: ls))
        with (Nat.max (List.length (frames l)) (maxFrameCount (l1 :: ls))).
      lia.
    + exists l'. split; [now right|].
      change (maxFrameCount (l :: l1 :: ls))
        with (Nat.max (List.length (frames l)) (maxFrameCount (l1 :: ls))).
      lia.
Qed.

Lemma dominant_some (ls : list Layer) :
  ls <> [] -> exists l, dominant ls = Some l.
Proof.
  intro Hne. unfold dominant, firstWith.
  destruct (find _ ls) as [l|] eqn:F; [now exists l|].
  exfalso.
  destruct (maxFrameCount_attained ls Hne) as (l & Hin & Hlen).
  pose proof (find_none _ _ F l Hin) as Hn. cbv beta in Hn.
  apply Nat.eqb_neq in Hn. contradiction.
Qed.

Lemma pickMaster_some (ls : list Layer) :
  ls <> [] -> exists master, snd (pickMaster ls) = Some master.
Proof.
  intro Hne. rewrite pickMaster_snd.
  destruct (maxFrameCount ls <=? 1)%nat.
  - destruct ls as [|l ls]; [congruence|]. now exists l.
  - now apply dominant_some.
Qed.

(** *** The loop *)

Section Loop.

Variable toBlob : Canvas.Context -> option (list byte).
Variable data : CursorState.
Variable format : Format.
Variable master : Layer.

Lemma exportLoop_spec (n : nat) :
  forall (i : nat) (acc : Acc),
  exists acc',
    exportLoop toBlob data format (Some master) n i acc = Ok acc' /\
    rates acc' = rates acc ++ map (fun k => toRate (passDelay master k)) (seq i n) /\
    List.length (composites acc') = (List.length (composites acc) + n)%nat /\
    (List.length (frameBlobs acc') <= List.length (frameBlobs acc) + n)%nat /\
    ((forall c, toBlob c <> None) ->
     List.length (frameBlobs acc') = (List.length (frameBlobs acc) + n)%nat).
Proof.
  induction n as [|n IH]; intros i acc.
  - exists acc. simpl. rewrite app_nil_r, !Nat.add_0_r. auto.
  - cbn [exportLoop exportPass bind].
    match goal with
    | |- exists acc', exportLoop _ _ _ _ _ _ ?a = _ /\ _ =>
        destruct (IH (S i) a) as (acc' & Hrun & Hr & Hc & Hle & Hall)
    end.
    exists acc'. split; [exact Hrun|].
    cbn [rates composites frameBlobs] in Hr, Hc, Hle, Hall.
    repeat split.
    + rewrite Hr, <- app_assoc. reflexivity.
    + rewrite Hc, length_app. simpl. lia.
    + destruct (toBlob _); [destruct (isPng format && (i =? 0)%nat)|];
        rewrite ?length_app in Hle; simpl in Hle; lia.
    + intro Hsome. specialize (Hall Hsome).
      destruct (toBlob _) eqn:E; [|exfalso; eapply Hsome; exact E].
      destruct (isPng format && (i =? 0)%nat);
        rewrite length_app in Hall; simpl in Hall; lia.
Qed.

End Loop.

(** The outcome of [generateExportBlob] on a stack with a first layer. *)
Lemma generateExportBlob_spec toBlob data format :
  layers data <> [] ->
  exists master out,
    snd (pickMaster (layers data)) = Some master /\
    generateExportBlob toBlob data format = Ok out /\
    let n := if isAni format then Nat.max 1 (maxFrameCount (layers data))
             else 1%nat in
    out_rates out = map (fun k => toRate (passDelay master k)) (seq 0 n) /\
    List.length (rendered out) = n /\
    (List.length (blobs out) <= n)%nat /\
    ((forall c, toBlob c <> None) -> List.length (blobs out) = n).
Proof.
  intro Hne.
  destruct (pickMaster_some (layers data) Hne) as (master & Hm).
  pose proof (pickMaster_fst (layers data)) as Hf.
  unfold generateExportBlob.
  destruct (pickMaster (layers data)) as [maxFrames masterLayer].
  simpl in Hm, Hf. subst masterLayer maxFrames.
  match goal with
  | |- context [exportLoop _ _ _ _ ?n 0 ?a] =>
      destruct (exportLoop_spec toBlob data format master n 0%nat a)
        as (acc' & Hrun & Hr & Hc & Hle & Hall)
  end.
  exists master. eexists. split; [reflexivity|].
  rewrite Hrun. cbn [bind]. split; [reflexivity|].
  cbn [out_rates rendered blobs].
  simpl in Hr, Hc, Hle, Hall.
  repeat split; assumption.
Qed.

Lemma generateExportBlob_empty toBlob data format :
  layers data = [] ->
  generateExportBlob toBlob data format = Throw TypeError.
Proof.
  intro H. unfold generateExportBlob, pickMaster. rewrite H. simpl.
  destruct (isAni format); reflexivity.
Qed.

End EncodeFacts.

Module ExportProperties.

Import Bytes Encode Spec EncodeFacts Samples.

(** C2. The export loop runs [N] passes for an ANI, where [N] is the
    greatest frame count over the layers of the stack and 1 when every
    layer is empty, and one pass for a CUR or a PNG: each pass renders
    one composite and appends one rate, and it appends one frame blob
    whenever the encoder delivers the bytes of the composite.  For
    layers with 1, 4 and 2 frames that is 4 frames for an ANI and 1 for
    a CUR or a PNG.  (The stack has a first layer; the program reads
    [masterLayer.frames] of [activeLayers[0]].) *)
Theorem export_frame_count :
  (forall (toBlob : Canvas.Context -> option (list byte)) (data : CursorState),
      layers data <> [] ->
      exists ea ec ep,
        generateExportBlob toBlob data ani = Ok ea /\
        generateExportBlob toBlob data cur = Ok ec /\
        generateExportBlob toBlob data png = Ok ep /\
        List.length (rendered ea) = Nat.max 1 (maxFrameCount (layers data)) /\
        List.length (out_rates ea) = Nat.max 1 (maxFrameCount (layers data)) /\
        List.length (rendered ec) = 1%nat /\
        List.length (rendered ep) = 1%nat /\
        (Forall (fun l => frames l = []) (layers data) ->
         List.length (rendered ea) = 1%nat) /\
        ((forall c, toBlob c <> None) ->
         List.length (blobs ea) = Nat.max 1 (maxFrameCount (layers data)) /\
         List.length (blobs ec) = 1%nat /\
         List.length (blobs ep) = 1%nat /\
         (Forall (fun l => frames l = []) (layers data) ->
          List.length (blobs ea) = 1%nat)))
  /\
  (map (fun l => List.length (frames l)) stack142 = [1; 4; 2]%nat /\
   forall size,
   exists ea ec ep,
     generateExportBlob steadyEncoder (profile stack142 size) ani = Ok ea /\
     generateExportBlob steadyEncoder (profile stack142 size) cur = Ok ec /\
     generateExportBlob steadyEncoder (profile stack142 size) png = Ok ep /\
     List.length (blobs ea) = 4%nat /\
     List.length (rendered ea) = 4%nat /\
     List.length (blobs ec) = 1%nat /\
     List.length (blobs ep) = 1%nat).
Proof.
  assert (Hempty : forall ls, Forall (fun l => frames l = []) ls ->
                              maxFrameCount ls = 0%nat).
  { induction 1 as [|l ls Hl _ IH]; simpl; [reflexivity|].
    rewrite Hl, IH. reflexivity. }
  assert (Hgen : forall toBlob data, layers data <> [] ->
      exists ea ec ep,
        generateExportBlob toBlob data ani = Ok ea /\
        generateExportBlob toBlob data cur = Ok ec /\
        generateExportBlob toBlob data png = Ok ep /\
        List.length (rendered ea) = Nat.max 1 (maxFrameCount (layers data)) /\
        List.length (out_rates ea) = Nat.max 1 (maxFrameCount (layers data)) /\
        List.length (rendered ec) = 1%nat /\
        List.length (rendered ep) = 1%nat /\
        ((forall c, toBlob c <> None) ->
         List.length (blobs ea) = Nat.max 1 (maxFrameCount (layers data)) /\
         List.length (blobs ec) = 1%nat /\
         List.length (blobs ep) = 1%nat)).
  { intros toBlob data Hne.
    destruct (generateExportBlob_spec toBlob data ani Hne)
      as (ma & ea & _ & Ha & Hra & Hca & _ & Hba).
    destruct (generateExportBlob_spec toBlob data cur Hne)
      as (mc & ec & _ & Hc & _ & Hcc & _ & Hbc).
    destruct (generateExportBlob_spec toBlob data png Hne)
      as (mp & ep & _ & Hp & _ & Hcp & _ & Hbp).
    cbn [isAni] in *.
    exists ea, ec, ep. repeat split; try assumption.
    - rewrite Hra, length_map, length_seq. reflexivity.
    - now apply Hba.
    - now apply Hbc.
    - now apply Hbp. }
  split.
  - intros toBlob data Hne.
    destruct (Hgen toBlob data Hne)
      as (ea & ec & ep & Ha & Hc & Hp & Hra & Hrr & Hrc & Hrp & Hb).
    exists ea, ec, ep.
    do 7 (split; [assumption|]).
    split.
    + intro He. rewrite Hra, (Hempty _ He). reflexivity.
    + intro Hsome. destruct (Hb Hsome) as (Hba & Hbc & Hbp).
      repeat split; try assumption.
      intro He. rewrite Hba, (Hempty _ He). reflexivity.
  - split; [reflexivity|]. intro size.
    destruct (Hgen steadyEncoder (profile stack142 size) ltac:(discriminate))
      as (ea & ec & ep & Ha & Hc & Hp & Hra & Hrr & Hrc & Hrp & Hb).
    destruct Hb as (Hba & Hbc & Hbp); [discriminate|].
    exists ea, ec, ep. repeat split; assumption.
Qed.

Lemma export_frame_count_witness :
  exists ea ec ep,
    generateExportBlob steadyEncoder (profile emptyBaseStack 32) ani = Ok ea /\
    generateExportBlob steadyEncoder (profile emptyBaseStack 32) cur = Ok ec /\
    generateExportBlob steadyEncoder (profile emptyBaseStack 32) png = Ok ep /\
    List.length (rendered ea) = 1%nat /\
    List.length (out_rates ea) = 1%nat /\
    List.length (rendered ec) = 1%nat /\
    List.length (rendered ep) = 1%nat /\
    List.length (blobs ea) = 1%nat /\
    List.length (blobs ec) = 1%nat /\
    List.length (blobs ep) = 1%nat.
Proof.
  destruct (proj1 export_frame_count steadyEncoder (profile emptyBaseStack 32))
    as (ea & ec & ep & Ha & Hc & Hp & Hra & Hrr & Hrc & Hrp & _ & Hb).
  - simpl. discriminate.
  - destruct Hb as (Hba & Hbc & Hbp & _).
    + intro c. unfold steadyEncoder. discriminate.
    + exists ea, ec, ep. repeat split; assumption.
Defined.

(** Where the program's master layer is the dominant layer: as soon as
    some layer has two frames, or when the first layer already has the
    greatest frame count. *)
Lemma master_is_dominant (ls : list Layer) :
  (2 <= maxFrameCount ls)%nat \/
  option_map (fun l => List.length (frames l)) (hd_error ls)
  = Some (maxFrameCount ls) ->
  snd (pickMaster ls) = dominant ls.
Proof.
  intro H. rewrite pickMaster_snd.
  destruct (maxFrameCount ls <=? 1)%nat eqn:E; [|reflexivity].
  apply Nat.leb_le in E.
  destruct H as [H|H]; [lia|].
  destruct ls as [|l ls]; [discriminate|].
  simpl in H. injection H as H.
  unfold dominant. symmetry. apply (firstWith_here _ l ls H).
Qed.

(** On such stacks the exported rates are the dominant layer's delays,
    frame [i mod frameCount] for pass [i]. *)
Lemma export_rates_from_dominant toBlob data :
  (2 <= maxFrameCount (layers data))%nat ->
  exists out l,
    generateExportBlob toBlob data ani = Ok out /\
    dominant (layers data) = Some l /\
    List.length (frames l) = maxFrameCount (layers data) /\
    out_rates out =
      map (fun i => toRate (masterDelay l i))
          (seq 0 (maxFrameCount (layers data))).
Proof.
  intro H2.
  assert (Hne : layers data <> [])
    by (intro E; rewrite E in H2; simpl in H2; lia).
  destruct (generateExportBlob_spec toBlob data ani Hne)
    as (master & out & Hm & Hrun & Hr & _).
  rewrite master_is_dominant in Hm by (left; exact H2).
  assert (Hlen : List.length (frames master) = maxFrameCount (layers data)).
  { unfold dominant, firstWith in Hm. apply find_some in Hm.
    destruct Hm as [_ Hm].
    now apply Nat.eqb_eq in Hm. }
  exists out, master. repeat split; try assumption.
  rewrite Hr. cbn [isAni].
  replace (Nat.max 1 (maxFrameCount (layers data)))
    with (maxFrameCount (layers data)) by lia.
  apply map_ext. intro i. unfold passDelay.
  replace (0 <? List.length (frames master))%nat with true; [reflexivity|].
  symmetry. apply Nat.ltb_lt. lia.
Qed.

(** C3 (divergence of the program).  On a stack whose first layer is
    empty while a later layer has exactly one frame, lasting 1000 ms,
    the dominant layer is that later layer and its delay is 1000 ms,
    that is a rate of 60; the program keeps the empty first layer as
    master and exports the rate 6 of its 100 ms default. *)
Theorem export_rate_of_single_frame_overlay :
  forall toBlob : Canvas.Context -> option (list byte),
    dominant emptyBaseStack
      = Some (overlay "still" (Timeline.timeline [1000%Q])) /\
    dominantDelay emptyBaseStack 0 = Some 1000%Q /\
    rateOf 1000 = 60%Z /\
    toRate 1000 = 60%Z /\
    snd (pickMaster emptyBaseStack) = Some createBaseLayer /\
    exists out,
      generateExportBlob toBlob (profile emptyBaseStack 32) ani = Ok out /\
      out_rates out = [6%Z].
Proof.
  intro toBlob.
  split; [vm_compute; reflexivity|].
  split; [vm_compute; reflexivity|].
  split; [vm_compute; reflexivity|].
  split; [vm_compute; reflexivity|].
  split; [vm_compute; reflexivity|].
  destruct (generateExportBlob_spec toBlob (profile emptyBaseStack 32) ani)
    as (master & out & Hm & Hrun & Hr & _); [discriminate|].
  exists out. split; [exact Hrun|].
  rewrite Hr.
  assert (Hbase : snd (pickMaster emptyBaseStack) = Some createBaseLayer)
    by (vm_compute; reflexivity).
  change (layers (profile emptyBaseStack 32)) with emptyBaseStack in Hm.
  rewrite Hbase in Hm. injection Hm as <-.
  vm_compute. reflexivity.
Qed.

(** C4 (divergence of the program).  With an output size of 40000 the
    encoder yields no bytes for any of the three frames; the export
    does not abort: it returns no frame blob and three rates, and the
    ANI file written from them holds a [rate] chunk of three entries
    and no [icon] chunk. *)
Theorem export_keeps_rates_of_lost_frames :
  exists out,
    generateExportBlob limitedEncoder (profile threeFrameStack 40000) ani
      = Ok out /\
    blobs out = [] /\
    out_rates out = [6; 6; 12]%Z /\
    List.length (rendered out) = 3%nat /\
    Forall (fun c => limitedEncoder c = None) (rendered out) /\
    exists st,
      Decode.walk (S (List.length (aniBytes [] [6; 6; 12]%Z)))
        (aniBytes [] [6; 6; 12]%Z) = Ok st /\
      Decode.rates st = [6; 6; 12]%Z /\
      Decode.iconChunks st = [].
Proof.
  eexists. split; [reflexivity|].
  split; [reflexivity|].
  split; [reflexivity|].
  split; [reflexivity|].
  split; [repeat constructor|].
  eexists. split; [vm_compute; reflexivity|]. split; reflexivity.
Qed.

End ExportProperties.

Module RoundTrip.

Import Bytes Decode Encode Spec EncodeFacts Samples.
Import Lqa.
Local Open Scope Q_scope.

(** C5. Decoding an ANI whose [rate] chunk holds 6, 6 and 12 (and that
    has three icon frames) gives the frame delays 100, 100 and 200 ms
    ([delay = rate * (1000/60)], exactly so on rationals and hence
    within 1 ms), and re-encoding these delays gives the rates 6, 6 and
    12 again, both by the formula [max(1, round(delay / (1000/60)))] and
    by the program's export of a layer made of the decoded frames. *)
Theorem ani_rate_round_trip :
  forall (loadImage : Blob -> Image) (bytes : list byte) (st : Walk),
    walk (S (List.length bytes)) bytes = Ok st ->
    Decode.rates st = [6; 6; 12]%Z ->
    List.length (iconChunks st) = 3%nat ->
    exists f0 f1 f2,
      parseAniFile loadImage bytes = Ok [f0; f1; f2] /\
      (delay f0 == 100 /\ delay f1 == 100 /\ delay f2 == 200) /\
      (Qabs (delay f0 - 100) <= 1 /\ Qabs (delay f1 - 100) <= 1 /\
       Qabs (delay f2 - 200) <= 1) /\
      map (fun f => rateOf (delay f)) [f0; f1; f2] = [6; 6; 12]%Z /\
      map (fun f => toRate (delay f)) [f0; f1; f2] = [6; 6; 12]%Z /\
      (forall toBlob size,
          exists out,
            generateExportBlob toBlob (profile [baseWith [f0; f1; f2]] size) ani
              = Ok out /\
            out_rates out = [6; 6; 12]%Z).
Proof.
  intros loadImage bytes st Hwalk Hrates Hlen.
  destruct (iconChunks st) as [|c0 [|c1 [|c2 [|c3 rest]]]] eqn:Hic;
    try discriminate.
  unfold parseAniFile, parseAniFileWith, bind. rewrite Hwalk, Hic.
  cbn [framesFrom].
  do 3 eexists. split; [reflexivity|].
  cbn [delay]. unfold frameDelay. rewrite Hrates. cbn [nth].
  split; [split_conj; reflexivity|].
  split; [split_conj; vm_compute; discriminate|].
  split; [reflexivity|].
  split; [reflexivity|].
  intros toBlob size.
  match goal with
  | |- exists out, generateExportBlob _ ?d _ = _ /\ _ =>
      destruct (generateExportBlob_spec toBlob d ani) as (m & out & Hm & Hrun & Hr & _);
        [discriminate|]
  end.
  exists out. split; [exact Hrun|].
  rewrite Hr.
  vm_compute in Hm. injection Hm as <-.
  reflexivity.
Qed.

Lemma ani_rate_round_trip_witness :
  exists f0 f1 f2,
    parseAniFile stubDecoder sampleAni = Ok [f0; f1; f2] /\
    (delay f0 == 100 /\ delay f1 == 100 /\ delay f2 == 200) /\
    (Qabs (delay f0 - 100) <= 1 /\ Qabs (delay f1 - 100) <= 1 /\
     Qabs (delay f2 - 200) <= 1) /\
    map (fun f => rateOf (delay f)) [f0; f1; f2] = [6; 6; 12]%Z /\
    map (fun f => toRate (delay f)) [f0; f1; f2] = [6; 6; 12]%Z /\
    (forall toBlob size,
        exists out,
          generateExportBlob toBlob (profile [baseWith [f0; f1; f2]] size) ani
            = Ok out /\
          out_rates out = [6; 6; 12]%Z).
Proof.
  apply (ani_rate_round_trip stubDecoder sampleAni
           {| pos := 202; defaultRate := 60; Decode.rates := [6; 6; 12]%Z;
              iconChunks := [cursorStub; cursorStub; cursorStub] |}).
  - vm_compute. reflexivity.
  - reflexivity.
  - reflexivity.
Defined.

End RoundTrip.

(* ===================================================================== *)
(** ** The cursor directory written by [generateExportBlob] *)
(* ===================================================================== *)

Module CurFacts.

Import Bytes BytesFacts Encode EncodeFacts.
Local Open Scope Z_scope.

Lemma skipn_repeat_all (n : nat) (b : byte) : skipn n (repeat b n) = [].
Proof. apply skipn_all2. rewrite repeat_length. lia. Qed.

(** The byte stream, field by field. *)
Lemma curBytes_layout (data : CursorState) (pngBytes : list byte) :
  curBytes data pngBytes =
  [ x00; x00; x02; x00; x01; x00 ]
    ++ [ toUint8 (if 256 <=? outputSize data then 0 else outputSize data);
         toUint8 (if 256 <=? outputSize data then 0 else outputSize data);
         x00; x00;
         toUint8 (hot_x (hotspot data));
         toUint8 (hot_x (hotspot data) / 256);
         toUint8 (hot_y (hotspot data));
         toUint8 (hot_y (hotspot data) / 256);
         toUint8 (Z.of_nat (List.length pngBytes));
         toUint8 (Z.of_nat (List.length pngBytes) / 256);
         toUint8 (Z.of_nat (List.length pngBytes) / 65536);
         toUint8 (Z.of_nat (List.length pngBytes) / 16777216);
         x16; x00; x00; x00 ]
    ++ pngBytes.
Proof.
  unfold curBytes, setUint8, setUint16, setUint32, setBytes, zeros.
  cbn [Nat.add repeat List.length firstn skipn app].
  rewrite skipn_repeat_all, app_nil_r.
  repeat match goal with
         | |- _ :: _ = _ :: _ => f_equal
         end;
    try reflexivity.
Qed.

Lemma le16_small (v : Z) :
  0 <= v < 65536 -> v mod 256 + 256 * ((v / 256) mod 256) = v.
Proof. intro H. Z.div_mod_to_equations. lia. Qed.

Lemma le32_small (v : Z) :
  0 <= v < 4294967296 ->
  v mod 256 + 256 * ((v / 256) mod 256) + 65536 * ((v / 65536) mod 256)
  + 16777216 * ((v / 16777216) mod 256) = v.
Proof. intro H. Z.div_mod_to_equations. lia. Qed.

Lemma timeOffset_0 (master : Layer) : timeOffset master 0 = 0%Q.
Proof.
  unfold timeOffset.
  destruct (0 <? List.length (frames master))%nat; reflexivity.
Qed.

(** The one blob of a CUR export is the cursor file of the composite
    rendered at time 0. *)
Lemma cur_export_blob toBlob (data : CursorState) (pngBytes : list byte) :
  layers data <> [] ->
  toBlob (Canvas.drawLayers
            (Canvas.clearAll
               (Canvas.create (outputSize data) (outputSize data)))
            (layers data) 0%Q (outputSize data)) = Some pngBytes ->
  exists out,
    generateExportBlob toBlob data cur = Ok out /\
    blobs out = [curBytes data pngBytes].
Proof.
  intros Hne Hblob.
  destruct (pickMaster_some (layers data) Hne) as (master & Hm).
  unfold generateExportBlob.
  destruct (pickMaster (layers data)) as [maxFrames masterLayer].
  simpl in Hm. subst masterLayer.
  cbn [isAni exportLoop exportPass bind canvas frameBlobs].
  rewrite timeOffset_0, Hblob.
  eexists. split; reflexivity.
Qed.

(** A 16-bit read that lies within the first 22 bytes of the file. *)
Lemma getUint16_in_file (head tail : list byte) (off : Z) :
  List.length head = 22%nat -> 0 <= off <= 20 ->
  getUint16 (head ++ tail) off
  = match get head off, get head (off + 1) with
    | Some b0, Some b1 => Ok (b0 + 256 * b1)
    | _, _ => Throw RangeError
    end.
Proof.
  intros Hlen Hoff. unfold getUint16, len. rewrite length_app, Hlen.
  replace ((off <? 0) || (Z.of_nat (22 + List.length tail) <? off + 2))
    with false
    by (symmetry; apply orb_false_iff; split; apply Z.ltb_ge; lia).
  unfold get.
  replace (off <? 0) with false by (symmetry; apply Z.ltb_ge; lia).
  replace (off + 1 <? 0) with false by (symmetry; apply Z.ltb_ge; lia).
  rewrite !nth_error_app1 by (rewrite Hlen; lia).
  reflexivity.
Qed.

Local Opaque toUint8 u8.

(** C7 as the specification words it fails on the export of a profile
    with the hotspot (5, 7): the little-endian uint16 at offset 2 of the
    directory entry is 0 (the colour count and the reserved byte), and
    the one at offset 4 is the hotspot x, not the hotspot y. *)
Lemma cur_hotspot_not_at_entry_offsets_2_4 :
  exists out file,
    generateExportBlob Samples.steadyEncoder
      (Samples.profile Samples.threeFrameStack 32) cur = Ok out /\
    blobs out = [file] /\
    ~ (getUint16 (slice file 6 22) 2 = Ok 5 /\
       getUint16 (slice file 6 22) 4 = Ok 7).
Proof.
  destruct (cur_export_blob Samples.steadyEncoder
              (Samples.profile Samples.threeFrameStack 32) Samples.pngStub)
    as (out & Hrun & Hb); [discriminate|reflexivity|].
  exists out. eexists. split; [exact Hrun|]. split; [exact Hb|].
  intros [H _]. vm_compute in H. discriminate.
Qed.

(** C7, amended.  The byte stream of a CUR export is a 6-byte directory
    (reserved 0, type 2, count 1, each a little-endian uint16), then a
    16-byte entry: the width and height bytes are the output size when
    it is below 256 and 0 otherwise, the next two bytes are 0, the
    hotspot x is the little-endian uint16 at offset 4 of the entry
    (offset 10 of the file) and the hotspot y the one at offset 6 (offset
    12 of the file), [bytesInResource] is the little-endian uint32
    length of the PNG data, [imageOffset] is the little-endian uint32
    22; the PNG bytes follow from offset 22 on.  (The sizes and the
    hotspot are within the range of their fields.) *)
Theorem cur_export_layout :
  forall (toBlob : Canvas.Context -> option (list byte))
         (data : CursorState) (pngBytes : list byte),
    layers data <> [] ->
    toBlob (Canvas.drawLayers
              (Canvas.clearAll
                 (Canvas.create (outputSize data) (outputSize data)))
              (layers data) 0%Q (outputSize data)) = Some pngBytes ->
    0 <= outputSize data ->
    0 <= hot_x (hotspot data) < 65536 ->
    0 <= hot_y (hotspot data) < 65536 ->
    Z.of_nat (List.length pngBytes) < 4294967296 ->
    exists out file directory entry,
      generateExportBlob toBlob data cur = Ok out /\
      blobs out = [file] /\
      file = directory ++ entry ++ pngBytes /\
      List.length directory = 6%nat /\
      List.length entry = 16%nat /\
      getUint16 directory 0 = Ok 0 /\
      getUint16 directory 2 = Ok 2 /\
      getUint16 directory 4 = Ok 1 /\
      get entry 0 = Some (if outputSize data <? 256 then outputSize data else 0) /\
      get entry 1 = Some (if outputSize data <? 256 then outputSize data else 0) /\
      getUint16 entry 2 = Ok 0 /\
      getUint16 entry 4 = Ok (hot_x (hotspot data)) /\
      getUint16 entry 6 = Ok (hot_y (hotspot data)) /\
      getUint16 file 10 = Ok (hot_x (hotspot data)) /\
      getUint16 file 12 = Ok (hot_y (hotspot data)) /\
      getUint32 entry 8 = Ok (Z.of_nat (List.length pngBytes)) /\
      getUint32 entry 12 = Ok 22 /\
      sliceFrom file 22 = pngBytes.
Proof.
  intros toBlob data pngBytes Hne Hblob Hsize Hx Hy Hlen.
  destruct (cur_export_blob toBlob data pngBytes Hne Hblob) as (out & Hrun & Hb).
  exists out. eexists. eexists. eexists.
  split; [exact Hrun|]. split; [exact Hb|].
  split; [apply curBytes_layout|].
  split; [reflexivity|]. split; [reflexivity|].
  assert (Hw : (if 256 <=? outputSize data then 0 else outputSize data) mod 256
               = if outputSize data <? 256 then outputSize data else 0).
  { destruct (256 <=? outputSize data) eqn:E1;
      destruct (outputSize data <? 256) eqn:E2;
      try apply Z.leb_le in E1; try apply Z.leb_gt in E1;
      try apply Z.ltb_lt in E2; try apply Z.ltb_ge in E2;
      try lia; try reflexivity.
    apply Z.mod_small. lia. }
  split_conj.
  - Transparent toUint8 u8. vm_compute. reflexivity.
  - vm_compute. reflexivity.
  - vm_compute. reflexivity.
  - Opaque toUint8 u8.
    unfold get. simpl. rewrite u8_toUint8. now rewrite Hw.
  - unfold get. simpl. rewrite u8_toUint8. now rewrite Hw.
  - Transparent toUint8 u8. vm_compute. reflexivity.
  - Opaque toUint8 u8.
    unfold getUint16, get. simpl. rewrite !u8_toUint8.
    now rewrite le16_small.
  - unfold getUint16, get. simpl. rewrite !u8_toUint8.
    now rewrite le16_small.
  - rewrite curBytes_layout, app_assoc.
    rewrite getUint16_in_file by (try reflexivity; lia).
    unfold get. simpl. rewrite !u8_toUint8.
    now rewrite le16_small.
  - rewrite curBytes_layout, app_assoc.
    rewrite getUint16_in_file by (try reflexivity; lia).
    unfold get. simpl. rewrite !u8_toUint8.
    now rewrite le16_small.
  - unfold getUint32, get. simpl. rewrite !u8_toUint8.
    rewrite le32_small by lia. reflexivity.
  - Transparent toUint8 u8. vm_compute. reflexivity.
  - rewrite curBytes_layout.
    unfold sliceFrom, slice, len.
    rewrite !length_app. cbn [List.length].
    rewrite Z.min_id.
    replace (Z.min 22 (Z.of_nat (6 + (16 + List.length pngBytes))))
      with 22 by lia.
    rewrite Z.sub_diag || idtac.
    replace (Z.to_nat (Z.of_nat (6 + (16 + List.length pngBytes)) - 22))
      with (List.length pngBytes) by lia.
    change (Z.to_nat 22) with 22%nat.
    cbn [app skipn].
    apply firstn_all.
Qed.

Lemma cur_export_layout_witness :
  exists out file directory entry,
    generateExportBlob Samples.steadyEncoder
      (Samples.profile Samples.threeFrameStack 32) cur = Ok out /\
    blobs out = [file] /\
    file = directory ++ entry ++ Samples.pngStub /\
    List.length directory = 6%nat /\
    List.length entry = 16%nat /\
    getUint16 directory 0 = Ok 0 /\
    getUint16 directory 2 = Ok 2 /\
    getUint16 directory 4 = Ok 1 /\
    get entry 0 = Some 32 /\
    get entry 1 = Some 32 /\
    getUint16 entry 2 = Ok 0 /\
    getUint16 entry 4 = Ok 5 /\
    getUint16 entry 6 = Ok 7 /\
    getUint16 file 10 = Ok 5 /\
    getUint16 file 12 = Ok 7 /\
    getUint32 entry 8 = Ok 8 /\
    getUint32 entry 12 = Ok 22 /\
    sliceFrom file 22 = Samples.pngStub.
Proof.
  apply (cur_export_layout Samples.steadyEncoder
           (Samples.profile Samples.threeFrameStack 32) Samples.pngStub).
  - discriminate.
  - reflexivity.
  - simpl. lia.
  - simpl. lia.
  - simpl. lia.
  - simpl. lia.
Defined.

End CurFacts.

(* ===================================================================== *)
(** ** The static branch of [parseFile] *)
(* ===================================================================== *)

Module StaticFacts.

Import Bytes BytesFacts Decode Spec Samples.
Local Open Scope Z_scope.

Lemma byteIs_nth (bs : list byte) (i v : Z) :
  0 <= i -> 0 <= v < 256 ->
  (byteIs bs i v = true <-> nth_error bs (Z.to_nat i) = Some (toUint8 v)).
Proof.
  intros Hi Hv. unfold byteIs, get.
  replace (i <? 0) with false by (symmetry; apply Z.ltb_ge; lia).
  destruct (nth_error bs (Z.to_nat i)) as [b|]; simpl.
  - rewrite Z.eqb_eq. split.
    + intro H. rewrite <- H, toUint8_u8. reflexivity.
    + intro H. injection H as ->. rewrite u8_toUint8.
      apply Z.mod_small. lia.
  - split; discriminate.
Qed.

Lemma isCursorDirectory_prefix (bytes : list byte) :
  isCursorDirectory bytes = true <-> firstn 4 bytes = [x00; x00; x02; x00].
Proof.
  unfold isCursorDirectory.
  rewrite !andb_true_iff.
  rewrite (byteIs_nth bytes 0 0), (byteIs_nth bytes 1 0),
          (byteIs_nth bytes 2 2), (byteIs_nth bytes 3 0) by lia.
  change (toUint8 0) with x00. change (toUint8 2) with x02.
  change (Z.to_nat 0) with 0%nat. change (Z.to_nat 1) with 1%nat.
  change (Z.to_nat 2) with 2%nat. change (Z.to_nat 3) with 3%nat.
  destruct bytes as [|b0 [|b1 [|b2 [|b3 rest]]]]; simpl;
    (split; [intros [[[H0 H1] H2] H3]; congruence
            |intro H; try discriminate; injection H as -> -> -> ->; auto]).
Qed.




(** On an [.ico] payload the blob is the whole file, not the part that
    starts at the PNG signature. *)
Example ico_payload_is_not_unwrapped :
  directorySignature icoPayload = true /\
  pngOffset icoPayload = Some 22 /\
  staticBlob icoPayload
    = {| blob_bytes := icoPayload; blob_type := image_png |} /\
  sliceFrom icoPayload 22 <> icoPayload.
Proof. split_conj; try (vm_compute; reflexivity). vm_compute. discriminate. Qed.

(** The scan stops at the first [89 50], which need not start a PNG
    signature: here it stops inside the directory, at offset 10. *)
Example cur_payload_two_byte_match :
  isCursorDirectory curPayload = true /\
  pngOffset curPayload = Some 22 /\
  findPng curPayload = Some 10 /\
  staticBlob curPayload
    = {| blob_bytes := sliceFrom curPayload 10; blob_type := image_png |}.
Proof. split_conj; vm_compute; reflexivity. Qed.



End StaticFacts.

(* ===================================================================== *)
(** ** The transform chain of [drawLayer] *)
(* ===================================================================== *)

Module CanvasFacts.

Import Canvas Samples.
Import Lra.
Local Open Scope R_scope.

Lemma matrix_eq (m n : Matrix) :
  ma m = ma n -> mb m = mb n -> mc m = mc n -> md m = md n ->
  me m = me n -> mf m = mf n -> m = n.
Proof.
  destruct m, n; simpl; intros; subst; reflexivity.
Qed.

(** The alpha setter, as one record. *)
Lemma setGlobalAlpha_fields (c : Context) (a : Q) :
  setGlobalAlpha c a =
  {| ctm := ctm c;
     globalAlpha := if inUnitRange a then Q2R a else globalAlpha c;
     imageSmoothingEnabled := imageSmoothingEnabled c;
     saved := saved c; drawn := drawn c;
     canvasWidth := canvasWidth c; canvasHeight := canvasHeight c |}.
Proof.
  unfold setGlobalAlpha. destruct (inUnitRange a); [reflexivity|].
  destruct c; reflexivity.
Qed.

Lemma paint_drawn (ctx : Context) (l : Layer) (frame : FrameData) (size : Z) :
  ctm ctx = identity ->
  drawn (paint ctx l frame size) =
  drawn ctx ++
    [ {| op_image := image frame;
         op_dx := - IZR (img_width (image frame)) / 2;
         op_dy := - IZR (img_height (image frame)) / 2;
         op_ctm := layerMatrix l size;
         op_alpha := if inUnitRange (cfg_opacity (config l))
                     then Q2R (cfg_opacity (config l))
                     else globalAlpha ctx;
         op_smoothing := imageSmoothingEnabled ctx |} ]
  /\ ctm (paint ctx l frame size) = identity.
Proof.
  intro Hid. unfold paint, scale, rotate, translate, withCtm, save.
  simpl. rewrite setGlobalAlpha_fields. unfold restore, drawImage.
  simpl. rewrite Hid. split; [|reflexivity].
  f_equal. f_equal. f_equal.
  apply matrix_eq; unfold layerMatrix; simpl; ring.
Qed.

(** [paint] leaves the state of the context as it found it: [restore]
    undoes the transform chain and the alpha. *)
Lemma paint_state (ctx : Context) (l : Layer) (frame : FrameData) (size : Z) :
  ctm (paint ctx l frame size) = ctm ctx /\
  globalAlpha (paint ctx l frame size) = globalAlpha ctx /\
  imageSmoothingEnabled (paint ctx l frame size) = imageSmoothingEnabled ctx /\
  saved (paint ctx l frame size) = saved ctx.
Proof.
  unfold paint, scale, rotate, translate, withCtm, save.
  simpl. rewrite setGlobalAlpha_fields. unfold restore, drawImage.
  simpl. repeat split.
Qed.

(** Wherever the image is drawn from, its middle is the origin of the
    local frame. *)
Lemma centre_layerMatrix (l : Layer) (size : Z) (img : Image) (al : R)
    (sm : bool) :
  centre {| op_image := img;
            op_dx := - IZR (img_width img) / 2;
            op_dy := - IZR (img_height img) / 2;
            op_ctm := layerMatrix l size;
            op_alpha := al;
            op_smoothing := sm |}
  = (IZR size / 2 + Q2R (cfg_x (config l)),
     IZR size / 2 + Q2R (cfg_y (config l))).
Proof.
  unfold centre, apply, layerMatrix. simpl. f_equal; field.
Qed.

Lemma quarter_turn : Q2R 90 * PI / 180 = PI / 2.
Proof. unfold Q2R. simpl. field. Qed.

(** C6 as the specification words it fails: the pixel of the sample
    layer is drawn once, and its middle is not at (32, 32 + 20). *)
Lemma pixel_not_at_rotated_offset :
  exists op,
    drawn (drawLayer (create 64 64) pixelLayer 0 64) = [op] /\
    centre op <> (32 + 0, 32 + 20).
Proof.
  unfold drawLayer. cbn [visible pixelLayer negb orb frames List.length Nat.eqb
                          Timeline.activeFrame Nat.ltb Nat.leb].
  destruct (paint_drawn (create 64 64) pixelLayer
              {| image := pixel; delay := 100 |} 64 eq_refl) as [Hd _].
  eexists. split; [exact Hd|].
  rewrite centre_layerMatrix. simpl.
  intro H. injection H as H1 H2.
  unfold Q2R in H1. simpl in H1. lra.
Qed.

(** C6, amended.  [drawLayer] applies translate (to the canvas middle,
    then by the layer offset), then rotate, then scale, and each call
    acts on the frame the earlier ones have set up: a local point [p]
    lands at [middle + (x, y) + rotate (scale * p)].  The offset itself
    is neither rotated nor scaled, so the middle of the drawn image is
    at [(size/2 + x, size/2 + y)].  The image is drawn with the layer
    opacity as alpha when that is a value from 0 to 1, which is what the
    canvas accepts, and with the alpha of the context otherwise.  For
    the 1x1 pixel with
    [{x:10, y:0, scale:2, rotation:90}] on a 64x64 canvas that is
    (32 + 10, 32), and the local unit vectors go to (0, 2) and (-2, 0). *)
Theorem drawLayer_transform_order :
  (forall (ctx : Context) (l : Layer) (time : Double.number) (size : Z)
          (frame : FrameData),
      ctm ctx = identity ->
      visible l = true ->
      Timeline.activeFrame (frames l) time = Some frame ->
      exists op,
        drawn (drawLayer ctx l time size) = drawn ctx ++ [op] /\
        op_image op = image frame /\
        op_alpha op = (if inUnitRange (cfg_opacity (config l))
                       then Q2R (cfg_opacity (config l))
                       else globalAlpha ctx) /\
        centre op = (IZR size / 2 + Q2R (cfg_x (config l)),
                     IZR size / 2 + Q2R (cfg_y (config l))) /\
        (forall px py : R,
            let s := Q2R (cfg_scale (config l)) in
            let a := Q2R (cfg_rotation (config l)) * PI / 180 in
            apply (op_ctm op) (px, py)
            = (IZR size / 2 + Q2R (cfg_x (config l))
                 + (cos a * (s * px) - sin a * (s * py)),
               IZR size / 2 + Q2R (cfg_y (config l))
                 + (sin a * (s * px) + cos a * (s * py)))))
  /\
  (exists op,
      drawn (drawLayer (create 64 64) pixelLayer 0 64) = [op] /\
      centre op = (32 + 10, 32) /\
      apply (op_ctm op) (1, 0) = (42 + 0, 32 + 2) /\
      apply (op_ctm op) (0, 1) = (42 - 2, 32 + 0)).
Proof.
  assert (Hgen : forall ctx l time size frame,
             ctm ctx = identity ->
             visible l = true ->
             Timeline.activeFrame (frames l) time = Some frame ->
             drawn (drawLayer ctx l time size) =
             drawn ctx ++
               [ {| op_image := image frame;
                    op_dx := - IZR (img_width (image frame)) / 2;
                    op_dy := - IZR (img_height (image frame)) / 2;
                    op_ctm := layerMatrix l size;
                    op_alpha := if inUnitRange (cfg_opacity (config l))
                                then Q2R (cfg_opacity (config l))
                                else globalAlpha ctx;
                    op_smoothing := imageSmoothingEnabled ctx |} ]).
  { intros ctx l time size frame Hid Hvis Hact.
    unfold drawLayer. rewrite Hvis, Hact.
    destruct (frames l) as [|f fs] eqn:Hf; [discriminate|].
    simpl. now apply paint_drawn. }
  split.
  - intros ctx l time size frame Hid Hvis Hact.
    eexists. split; [apply (Hgen ctx l time size frame Hid Hvis Hact)|].
    split; [reflexivity|]. split; [reflexivity|].
    split; [apply centre_layerMatrix|].
    intros px py. unfold apply, layerMatrix. simpl. f_equal; ring.
  - eexists.
    split; [apply (Hgen (create 64 64) pixelLayer (Double.fin 0) 64%Z
                     {| image := pixel; delay := 100 |} eq_refl eq_refl eq_refl)|].
    split; [rewrite centre_layerMatrix; simpl; unfold Q2R; simpl; f_equal; field|].
    unfold apply, layerMatrix. cbn [op_ctm ma mb mc md me mf fst snd config
                                      pixelLayer cfg_x cfg_y cfg_scale cfg_rotation].
    rewrite quarter_turn, cos_PI2, sin_PI2.
    unfold Q2R. simpl.
    split; f_equal; field.
Qed.

Lemma drawLayer_transform_order_witness :
  exists op,
    drawn (drawLayer (create 64 64) pixelLayer 0 64) = [] ++ [op] /\
    op_image op = pixel /\
    op_alpha op = Q2R 1 /\
    centre op = (IZR 64 / 2 + Q2R 10, IZR 64 / 2 + Q2R 0) /\
    (forall px py : R,
        apply (op_ctm op) (px, py)
        = (IZR 64 / 2 + Q2R 10
             + (cos (Q2R 90 * PI / 180) * (Q2R 2 * px)
                - sin (Q2R 90 * PI / 180) * (Q2R 2 * py)),
           IZR 64 / 2 + Q2R 0
             + (sin (Q2R 90 * PI / 180) * (Q2R 2 * px)
                + cos (Q2R 90 * PI / 180) * (Q2R 2 * py)))).
Proof.
  apply (proj1 drawLayer_transform_order (create 64 64) pixelLayer (Double.fin 0) 64%Z
           {| image := pixel; delay := 100 |}); reflexivity.
Defined.

End CanvasFacts.

(* ===================================================================== *)
(** ** The layer stack *)
(* ===================================================================== *)

Module StackFacts.

Import Stack.

Lemma baseCount_app (xs ys : list Layer) :
  baseCount (xs ++ ys) = (baseCount xs + baseCount ys)%nat.
Proof. unfold baseCount. now rewrite filter_app, length_app. Qed.

Lemma baseCount_perm (xs ys : list Layer) :
  Permutation xs ys -> baseCount xs = baseCount ys.
Proof.
  intro H. unfold baseCount. apply Permutation_length.
  induction H; simpl.
  - constructor.
  - destruct (truthy (isBase x)); [constructor|]; assumption.
  - destruct (truthy (isBase x)), (truthy (isBase y));
      try constructor; apply Permutation_refl.
  - eapply Permutation_trans; eassumption.
Qed.

Lemma swapWithNext_perm (i : nat) :
  forall ls, Permutation (swapWithNext i ls) ls.
Proof.
  induction i as [|i IH]; intros [|a [|b rest]]; simpl;
    try apply Permutation_refl.
  - apply perm_swap.
  - apply perm_skip. apply IH.
  - apply perm_skip. apply IH.
Qed.

Lemma ids_filter_NoDup (p : Layer -> bool) (ls : list Layer) :
  NoDup (map layer_id ls) -> NoDup (map layer_id (filter p ls)).
Proof.
  induction ls as [|l ls IH]; simpl; intro H; [constructor|].
  inversion H as [|? ? Hnin Hnd]; subst.
  destruct (p l); simpl; [constructor|]; auto.
  intro Hin. apply Hnin.
  apply in_map_iff in Hin. destruct Hin as (x & Hx & Hf).
  apply filter_In in Hf. apply in_map_iff. exists x. tauto.
Qed.

Lemma same_id_same_layer (ls : list Layer) (a b : Layer) :
  NoDup (map layer_id ls) -> In a ls -> In b ls ->
  layer_id a = layer_id b -> a = b.
Proof.
  induction ls as [|l ls IH]; simpl; intros Hnd Ha Hb Hid; [contradiction|].
  inversion Hnd as [|? ? Hnin Hnd']; subst.
  destruct Ha as [->|Ha], Hb as [->|Hb]; try reflexivity.
  - exfalso. apply Hnin. rewrite Hid. now apply in_map.
  - exfalso. apply Hnin. rewrite <- Hid. now apply in_map.
  - now apply IH.
Qed.

Lemma baseCount_filter_keeps (p : Layer -> bool) (ls : list Layer) :
  (forall b, In b ls -> truthy (isBase b) = true -> p b = true) ->
  baseCount (filter p ls) = baseCount ls.
Proof.
  unfold baseCount.
  induction ls as [|l ls IH]; simpl; intro H; [reflexivity|].
  assert (IH' := IH (fun b Hb => H b (or_intror Hb))).
  destruct (p l) eqn:Hp; simpl.
  - destruct (truthy (isBase l)); simpl; now rewrite IH'.
  - destruct (truthy (isBase l)) eqn:Hb; [|assumption].
    rewrite (H l (or_introl eq_refl) Hb) in Hp. discriminate.
Qed.

(** The guarded delete control never removes a Base layer. *)
Lemma guardedDelete_keeps_base (l : Layer) (e : Editor) :
  NoDup (map layer_id (layers (activeData e))) ->
  In l (layers (activeData e)) ->
  baseCount (layers (activeData (guardedDelete l e)))
  = baseCount (layers (activeData e)).
Proof.
  intros Hnd Hin. unfold guardedDelete.
  destruct (truthy (isBase l)) eqn:Hb; simpl; [reflexivity|].
  apply baseCount_filter_keeps.
  intros b Hbin Hbase.
  apply negb_true_iff. apply String.eqb_neq. intro Hid.
  assert (b = l) by (eapply same_id_same_layer; eassumption).
  subst b. congruence.
Qed.

Lemma map_update_ids (layerId : string) (updates : Layer -> Layer)
      (ls : list Layer) :
  (forall l, isBase (updates l) = isBase l /\ layer_id (updates l) = layer_id l) ->
  map layer_id
    (map (fun l => if String.eqb (layer_id l) layerId then updates l else l) ls)
  = map layer_id ls
  /\ baseCount
       (map (fun l => if String.eqb (layer_id l) layerId then updates l else l) ls)
     = baseCount ls.
Proof.
  intro Hu. unfold baseCount.
  induction ls as [|l ls [IH1 IH2]]; simpl; [split; reflexivity|].
  destruct (Hu l) as [Hb Hi].
  destruct (String.eqb (layer_id l) layerId); simpl.
  - rewrite Hi, Hb, IH1. split; [reflexivity|].
    destruct (truthy (isBase l)); simpl; now rewrite IH2.
  - rewrite IH1. split; [reflexivity|].
    destruct (truthy (isBase l)); simpl; now rewrite IH2.
Qed.

(** With the delete control of the first panel, every stack the user
    can reach holds exactly one Base layer and no two layers share an
    id. *)
Lemma guarded_panel_one_base (e : Editor) :
  reachable e ->
  baseCount (layers (activeData e)) = 1%nat /\
  NoDup (map layer_id (layers (activeData e))).
Proof.
  induction 1 as [|e e' _ [IHb IHn] Hact].
  - split; [reflexivity|]. simpl. repeat constructor. intros [].
  - destruct Hact as [l Hl Hfresh | l Hin | layerId d | layerId updates Hu].
    + simpl. split.
      * rewrite baseCount_app, IHb. unfold baseCount. simpl. now rewrite Hl.
      * rewrite map_app. simpl.
        apply NoDup_app; [assumption|repeat constructor; intros []|].
        intros x Hx [<-|[]]. contradiction.
    + split.
      * now rewrite guardedDelete_keeps_base.
      * unfold guardedDelete. destruct (negb (truthy (isBase l)));
          [|assumption].
        simpl. now apply ids_filter_NoDup.
    + unfold moveLayer.
      destruct (findIndex layerId (layers (activeData e))) as [index|];
        [|split; assumption].
      simpl.
      assert (Hp : Permutation
                     (match d with
                      | up =>
                          if (index + 1 <? List.length (layers (activeData e)))%nat
                          then swapWithNext index (layers (activeData e))
                          else layers (activeData e)
                      | down =>
                          if (0 <? index)%nat
                          then swapWithNext (index - 1) (layers (activeData e))
                          else layers (activeData e)
                      end) (layers (activeData e))).
      { destruct d; match goal with |- context [if ?c then _ else _] => destruct c end;
          try apply Permutation_refl; apply swapWithNext_perm. }
      split.
      * rewrite (baseCount_perm _ _ Hp). assumption.
      * apply (Permutation_NoDup (l := map layer_id (layers (activeData e))));
          [|assumption].
        apply Permutation_map. now apply Permutation_sym.
    + simpl.
      destruct (map_update_ids layerId updates (layers (activeData e)) Hu)
        as [Hids Hcount].
      rewrite Hids, Hcount. split; assumption.
Qed.

(** C9 (divergence of the program).  [removeLayer] filters by id alone:
    applied to the id of the Base layer of a fresh profile it empties
    the stack, and no Base layer is left.  The second layer panel
    offers exactly this on every row, the Base layer's included. *)
Theorem removeLayer_deletes_base :
  truthy (isBase createBaseLayer) = true /\
  layers (activeData initialEditor) = [createBaseLayer] /\
  layers (activeData (removeLayer "base" initialEditor)) = [] /\
  baseCount (layers (activeData (removeLayer "base" initialEditor))) = 0%nat /\
  plainDelete createBaseLayer initialEditor = removeLayer "base" initialEditor /\
  guardedDelete createBaseLayer initialEditor = initialEditor.
Proof. split_conj; vm_compute; reflexivity. Qed.

End StackFacts.

(* ===================================================================== *)
(** ** More on the layer stack *)
(* ===================================================================== *)

Module StackMore.

Import Stack Editing StackFacts.

Lemma withLayers_same (d : CursorState) : withLayers d (layers d) = d.
Proof. destruct d; reflexivity. Qed.

Lemma findIndex_lt (layerId : string) (ls : list Layer) (i : nat) :
  findIndex layerId ls = Some i -> (i < List.length ls)%nat.
Proof.
  revert i. induction ls as [|l ls IH]; intros i H; simpl in *; [discriminate|].
  destruct (String.eqb (layer_id l) layerId).
  - injection H as <-. lia.
  - destruct (findIndex layerId ls) as [j|]; [|discriminate].
    injection H as <-. specialize (IH j eq_refl). lia.
Qed.

Lemma findIndex_none (layerId : string) (ls : list Layer) :
  findIndex layerId ls = None <-> ~ In layerId (map layer_id ls).
Proof.
  induction ls as [|l ls IH]; simpl; [tauto|].
  destruct (String.eqb (layer_id l) layerId) eqn:E.
  - apply String.eqb_eq in E. split; [discriminate|]. tauto.
  - apply String.eqb_neq in E.
    destruct (findIndex layerId ls); simpl.
    + split; [discriminate|]. intro H. exfalso. apply H. right.
      destruct IH as [_ IH].
      destruct (in_dec string_dec layerId (map layer_id ls)) as [Hin|Hn];
        [assumption|]. specialize (IH Hn). discriminate.
    + split; [|reflexivity]. intros _ [H|H]; [contradiction|].
      now apply IH.
Qed.

Lemma swapWithNext_twice (i : nat) :
  forall ls, swapWithNext i (swapWithNext i ls) = ls.
Proof.
  induction i as [|i IH]; intros [|a [|b rest]]; simpl; try reflexivity.
  - now rewrite IH.
  - now rewrite IH.
Qed.

Lemma swapWithNext_length (i : nat) :
  forall ls, List.length (swapWithNext i ls) = List.length ls.
Proof.
  intro ls. apply Permutation_length, swapWithNext_perm.
Qed.

(** After the swap the layer found at [i] is found at [i + 1]. *)
Lemma findIndex_swapped (layerId : string) :
  forall (ls : list Layer) (i : nat),
    NoDup (map layer_id ls) ->
    findIndex layerId ls = Some i ->
    (i + 1 < List.length ls)%nat ->
    findIndex layerId (swapWithNext i ls) = Some (i + 1)%nat.
Proof.
  induction ls as [|a ls IH]; intros i Hnd Hf Hlen; simpl in *; [discriminate|].
  inversion Hnd as [|? ? Hnin Hnd']; subst.
  destruct (String.eqb (layer_id a) layerId) eqn:Ea.
  - injection Hf as <-.
    destruct ls as [|b rest]; simpl in *; [lia|].
    destruct (String.eqb (layer_id b) layerId) eqn:Eb.
    + apply String.eqb_eq in Ea, Eb. exfalso. apply Hnin. left. congruence.
    + now rewrite Ea.
  - destruct (findIndex layerId ls) as [j|] eqn:Ej; [|discriminate].
    injection Hf as <-. simpl. rewrite Ea.
    rewrite (IH j Hnd' eq_refl) by lia. reflexivity.
Qed.

(** X1. Moving a layer up and then down again gives the editor back. *)
Theorem moveLayer_up_then_down :
  forall (layerId : string) (e : Editor) (i : nat),
    NoDup (map layer_id (layers (activeData e))) ->
    findIndex layerId (layers (activeData e)) = Some i ->
    (i + 1 < List.length (layers (activeData e)))%nat ->
    findIndex layerId (layers (activeData (moveLayer layerId up e)))
      = Some (i + 1)%nat /\
    moveLayer layerId down (moveLayer layerId up e) = e.
Proof.
  intros layerId e i Hnd Hf Hlen.
  assert (Hup : moveLayer layerId up e
                = {| activeData :=
                       withLayers (activeData e)
                         (swapWithNext i (layers (activeData e)));
                     selectedLayerId := selectedLayerId e |}).
  { unfold moveLayer. rewrite Hf.
    apply Nat.ltb_lt in Hlen. now rewrite Hlen. }
  rewrite Hup. cbn [activeData withLayers layers].
  pose proof (findIndex_swapped layerId _ i Hnd Hf Hlen) as Hs.
  split; [exact Hs|].
  unfold moveLayer. cbn [activeData withLayers layers selectedLayerId
                           hotspot outputSize fileName].
  rewrite Hs.
  replace (0 <? i + 1)%nat with true by (symmetry; apply Nat.ltb_lt; lia).
  replace (i + 1 - 1)%nat with i by lia.
  rewrite swapWithNext_twice.
  destruct e as [d sel]. destruct d. reflexivity.
Qed.

Lemma moveLayer_up_then_down_witness :
  findIndex "base"
    (layers (activeData
       (moveLayer "base" up
          (addLayer (Samples.overlay "o" []) initialEditor))))
    = Some (0 + 1)%nat /\
  moveLayer "base" down
    (moveLayer "base" up (addLayer (Samples.overlay "o" []) initialEditor))
  = addLayer (Samples.overlay "o" []) initialEditor.
Proof.
  apply (moveLayer_up_then_down "base"
           (addLayer (Samples.overlay "o" []) initialEditor) 0).
  - simpl. repeat constructor; simpl; intuition discriminate.
  - reflexivity.
  - simpl. lia.
Defined.

Lemma moveLayer_perm (layerId : string) (d : Direction) (e : Editor) :
  Permutation (layers (activeData (moveLayer layerId d e)))
              (layers (activeData e)).
Proof.
  unfold moveLayer.
  destruct (findIndex layerId (layers (activeData e))) as [i|];
    [|apply Permutation_refl].
  cbn [activeData withLayers layers].
  destruct d;
    match goal with |- context [if ?c then _ else _] => destruct c end;
    try apply Permutation_refl; apply swapWithNext_perm.
Qed.

(** X2. [moveLayer] only reorders: the new stack is a permutation of the
    old one; an unknown id, the top layer moved up and the bottom layer
    moved down leave the editor as it is. *)
Theorem moveLayer_reorders_only :
  forall (layerId : string) (d : Direction) (e : Editor),
    Permutation (layers (activeData (moveLayer layerId d e)))
                (layers (activeData e)) /\
    selectedLayerId (moveLayer layerId d e) = selectedLayerId e /\
    (~ In layerId (map layer_id (layers (activeData e))) ->
     moveLayer layerId d e = e) /\
    (findIndex layerId (layers (activeData e))
       = Some (List.length (layers (activeData e)) - 1)%nat ->
     moveLayer layerId up e = e) /\
    (findIndex layerId (layers (activeData e)) = Some 0%nat ->
     moveLayer layerId down e = e).
Proof.
  intros layerId d e.
  assert (Hsame : {| activeData := withLayers (activeData e) (layers (activeData e));
                     selectedLayerId := selectedLayerId e |} = e).
  { destruct e as [dt sel]. simpl. now rewrite withLayers_same. }
  split; [|split; [|split; [|split]]].
  - unfold moveLayer.
    destruct (findIndex layerId (layers (activeData e))) as [i|];
      [|apply Permutation_refl].
    cbn [activeData withLayers layers].
    destruct d;
      match goal with |- context [if ?c then _ else _] => destruct c end;
      try apply Permutation_refl; apply swapWithNext_perm.
  - unfold moveLayer.
    destruct (findIndex layerId (layers (activeData e))); reflexivity.
  - intro Hn. apply findIndex_none in Hn. unfold moveLayer. now rewrite Hn.
  - intro Hf. unfold moveLayer. rewrite Hf.
    pose proof (findIndex_lt _ _ _ Hf) as Hlt.
    replace (List.length (layers (activeData e)) - 1 + 1
             <? List.length (layers (activeData e)))%nat with false
      by (symmetry; apply Nat.ltb_ge; lia).
    exact Hsame.
  - intro Hf. unfold moveLayer. rewrite Hf. simpl. exact Hsame.
Qed.

Lemma moveLayer_reorders_only_witness :
  moveLayer "gone" up initialEditor = initialEditor /\
  moveLayer "base" up initialEditor = initialEditor /\
  moveLayer "base" down initialEditor = initialEditor.
Proof.
  split; [|split].
  - apply (proj1 (proj2 (proj2 (moveLayer_reorders_only "gone" up initialEditor)))).
    simpl. intuition discriminate.
  - apply (proj1 (proj2 (proj2 (proj2
             (moveLayer_reorders_only "base" up initialEditor))))).
    reflexivity.
  - apply (proj2 (proj2 (proj2 (proj2
             (moveLayer_reorders_only "base" down initialEditor))))).
    reflexivity.
Defined.

Lemma filter_other_ids (layerId : string) (ls : list Layer) :
  ~ In layerId (map layer_id ls) ->
  filter (fun l => negb (String.eqb (layer_id l) layerId)) ls = ls.
Proof.
  induction ls as [|l ls IH]; simpl; intro H; [reflexivity|].
  destruct (String.eqb (layer_id l) layerId) eqn:E; simpl.
  - apply String.eqb_eq in E. tauto.
  - rewrite IH; [reflexivity|tauto].
Qed.

(** X3. Removing the layer that was just added gives the stack back, and
    the selection names the bottom layer. *)
Theorem addLayer_then_removeLayer :
  forall (l : Layer) (e : Editor),
    ~ In (layer_id l) (map layer_id (layers (activeData e))) ->
    activeData (removeLayer (layer_id l) (addLayer l e)) = activeData e /\
    selectedLayerId (removeLayer (layer_id l) (addLayer l e))
      = fallbackId (layers (activeData e) ++ [l]).
Proof.
  intros l e Hfresh. destruct e as [d sel]. destruct d as [ls h sz fn].
  unfold removeLayer, addLayer, withLayers. simpl in *.
  rewrite String.eqb_refl, filter_app. simpl.
  rewrite String.eqb_refl. simpl.
  rewrite app_nil_r, filter_other_ids by assumption.
  split; reflexivity.
Qed.

Lemma addLayer_then_removeLayer_witness :
  activeData (removeLayer "o" (addLayer (Samples.overlay "o" []) initialEditor))
    = activeData initialEditor /\
  selectedLayerId
    (removeLayer "o" (addLayer (Samples.overlay "o" []) initialEditor))
    = "base"%string.
Proof.
  apply (addLayer_then_removeLayer (Samples.overlay "o" []) initialEditor).
  simpl. intuition discriminate.
Defined.

(** X4. When the selected layer is removed, the layer the editor then
    treats as selected is the bottom layer of what is left, also when
    the removed layer was the bottom layer itself (the stored id then
    names no layer and the lookup falls back). *)
Theorem removeLayer_selected_falls_to_bottom :
  forall (layerId : string) (e : Editor),
    selectedLayerId e = layerId ->
    (forall l, In l (layers (activeData e)) -> layer_id l <> ""%string) ->
    selectedLayer (removeLayer layerId e)
    = hd_error (layers (activeData (removeLayer layerId e))).
Proof.
  intros layerId e Hsel Hids. unfold selectedLayer, removeLayer.
  cbn [activeData selectedLayerId withLayers layers].
  rewrite Hsel, String.eqb_refl.
  destruct (layers (activeData e)) as [|l0 rest] eqn:Hls; [reflexivity|].
  cbn [fallbackId].
  assert (H0 : layer_id l0 <> ""%string) by (apply Hids; now left).
  apply String.eqb_neq in H0. rewrite H0.
  cbn [filter].
  destruct (String.eqb (layer_id l0) layerId) eqn:E0; cbn [negb].
  - apply String.eqb_eq in E0.
    destruct (find _ (filter _ rest)) as [x|] eqn:F; [|reflexivity].
    exfalso. apply find_some in F. destruct F as [Hin Hx].
    apply filter_In in Hin. destruct Hin as [_ Hne].
    apply String.eqb_eq in Hx. apply negb_true_iff in Hne.
    apply String.eqb_neq in Hne. congruence.
  - cbn [find hd_error]. now rewrite String.eqb_refl.
Qed.

Lemma removeLayer_selected_falls_to_bottom_witness :
  selectedLayer
    (removeLayer "o" (addLayer (Samples.overlay "o" []) initialEditor))
  = hd_error
      (layers (activeData
         (removeLayer "o" (addLayer (Samples.overlay "o" []) initialEditor)))).
Proof.
  apply (removeLayer_selected_falls_to_bottom "o"
           (addLayer (Samples.overlay "o" []) initialEditor)).
  - reflexivity.
  - simpl. intros l [<-|[<-|[]]]; discriminate.
Defined.

End StackMore.

(* ===================================================================== *)
(** ** Visibility, default hotspots and uploads *)
(* ===================================================================== *)

Module EditingFacts.

Import Stack Editing StackFacts StackMore.
Local Open Scope Z_scope.

Lemma find_updated (layerId : string) (updates : Layer -> Layer)
      (ls : list Layer) :
  (forall l, layer_id (updates l) = layer_id l) ->
  find (fun l => String.eqb (layer_id l) layerId)
       (map (fun l => if String.eqb (layer_id l) layerId then updates l else l) ls)
  = option_map updates (find (fun l => String.eqb (layer_id l) layerId) ls).
Proof.
  intro Hid. induction ls as [|l ls IH]; simpl; [reflexivity|].
  destruct (String.eqb (layer_id l) layerId) eqn:E.
  - rewrite Hid, E. reflexivity.
  - rewrite E. exact IH.
Qed.

(** X5. With distinct layer ids, toggling the visibility of a layer twice
    gives the editor back. *)
Theorem toggleLayerVisibility_twice :
  forall (layerId : string) (e : Editor),
    NoDup (map layer_id (layers (activeData e))) ->
    toggleLayerVisibility layerId (toggleLayerVisibility layerId e) = e.
Proof.
  intros layerId e Hnd.
  destruct e as [d sel]. destruct d as [ls h sz fn].
  cbn [activeData layers] in Hnd.
  unfold toggleLayerVisibility at 2. cbn [activeData layers].
  destruct (find (fun l => String.eqb (layer_id l) layerId) ls) as [l|] eqn:F.
  - unfold toggleLayerVisibility, updateLayer, withLayers.
    cbn [activeData layers selectedLayerId hotspot outputSize fileName].
    rewrite (find_updated layerId (setVisible (negb (visible l))) ls)
      by reflexivity.
    rewrite F. cbn [option_map]. f_equal. f_equal.
    rewrite map_map. rewrite <- (map_id ls) at 2.
    apply map_ext_in. intros x Hx.
    destruct (String.eqb (layer_id x) layerId) eqn:E.
    + cbn [layer_id setVisible]. rewrite E.
      apply find_some in F. destruct F as [Hl El].
      apply String.eqb_eq in E, El.
      assert (x = l)
        by (eapply same_id_same_layer; try eassumption; congruence).
      subst x. destruct l. cbn. now rewrite negb_involutive.
    + rewrite E. reflexivity.
  - unfold toggleLayerVisibility. cbn [activeData layers]. now rewrite F.
Qed.

Lemma toggleLayerVisibility_twice_witness :
  toggleLayerVisibility "base" (toggleLayerVisibility "base" initialEditor)
  = initialEditor.
Proof.
  apply (toggleLayerVisibility_twice "base" initialEditor).
  simpl. repeat constructor. intros [].
Defined.

Lemma defaultHotspot_bounds (type : CursorType) (size : Z) :
  1 <= size ->
  0 <= hot_x (getDefaultHotspot type size) < size /\
  0 <= hot_y (getDefaultHotspot type size) < size.
Proof.
  intro Hsize.
  assert (H2 : 0 <= size / 2 < size).
  { split; [apply Z.div_pos; lia|apply Z.div_lt_upper_bound; lia]. }
  destruct type; cbn; split; lia.
Qed.

(** X6. The default hotspot of every cursor role lies on the canvas, for
    every size from 1 on: the top-left corner for the pointer-like roles
    (and for a role the table does not list), the middle pixel for the
    others. *)
Theorem getDefaultHotspot_on_canvas :
  forall (type : CursorType) (size : Z),
    1 <= size ->
    0 <= hot_x (getDefaultHotspot type size) < size /\
    0 <= hot_y (getDefaultHotspot type size) < size /\
    hot_x (getDefaultHotspot type size) = hot_y (getDefaultHotspot type size) /\
    (hot_x (getDefaultHotspot type size) = 0 \/
     hot_x (getDefaultHotspot type size) = size / 2).
Proof.
  intros type size Hsize.
  assert (H2 : 0 <= size / 2 < size).
  { split; [apply Z.div_pos; lia|apply Z.div_lt_upper_bound; lia]. }
  destruct type; cbn; repeat split; try lia; auto.
Qed.

Lemma getDefaultHotspot_on_canvas_witness :
  0 <= hot_x (getDefaultHotspot busy 32) < 32 /\
  0 <= hot_y (getDefaultHotspot busy 32) < 32 /\
  hot_x (getDefaultHotspot busy 32) = hot_y (getDefaultHotspot busy 32) /\
  (hot_x (getDefaultHotspot busy 32) = 0 \/
   hot_x (getDefaultHotspot busy 32) = 32 / 2).
Proof. apply (getDefaultHotspot_on_canvas busy 32). lia. Defined.

(** The size [handleUpload] picks for an image. *)
Lemma upload_size_bounds (w h : Z) :
  let d := Z.max w h in
  let newSize := if d <=? 32 then 32 else d in
  newSize = Z.max 32 (Z.max w h).
Proof.
  cbv zeta. destruct (Z.max w h <=? 32) eqn:E.
  - apply Z.leb_le in E. lia.
  - apply Z.leb_gt in E. lia.
Qed.

(** X7. An upload onto the Base layer whose handler saw a profile
    without file name sizes the output to the larger side of the first
    frame, but not below 32, puts the hotspot at the default place of
    the role the handler saw, on the canvas, and names the profile after
    the file.  The layer update acts on the stack as it is when the file
    has been read: the stack keeps its ids and its selection, the error
    message stays as it is (it was cleared when the upload began), and
    every layer with the replaced id carries the new frames and name. *)
Theorem handleUpload_first_base_image :
  forall (name : string) (f : FrameData) (rest : list FrameData)
         (id freshId : string) (seen s : Session),
    id <> ""%string ->
    replacesBase id (editor seen) = true ->
    fileName (activeData (editor seen)) = ""%string ->
    let s' := handleUpload name (Ok (f :: rest)) (Some id) freshId seen s in
    let d' := activeData (editor s') in
    outputSize d'
      = Z.max 32 (Z.max (img_width (image f)) (img_height (image f))) /\
    hotspot d' = getDefaultHotspot (activeType seen) (outputSize d') /\
    0 <= hot_x (hotspot d') < outputSize d' /\
    0 <= hot_y (hotspot d') < outputSize d' /\
    fileName d' = name /\
    error s' = error s /\
    error (handleUpload name (Ok (f :: rest)) (Some id) freshId seen
             (beginUpload s)) = None /\
    map layer_id (layers d') = map layer_id (layers (activeData (editor s))) /\
    selectedLayerId (editor s') = selectedLayerId (editor s) /\
    (forall l, In l (layers d') -> layer_id l = id ->
               frames l = f :: rest /\ layer_name l = name).
Proof.
  intros name f rest id freshId seen s Hid Hbase Hname.
  cbv zeta. unfold handleUpload.
  apply String.eqb_neq in Hid. rewrite Hid, Hbase, Hname.
  cbn [String.eqb andb editor activeData withFileSizeHotspot outputSize hotspot
       fileName layers error selectedLayerId updateLayer withLayers beginUpload].
  rewrite upload_size_bounds.
  set (sz := Z.max 32 (Z.max (img_width (image f)) (img_height (image f)))).
  assert (Hsz : 1 <= sz) by (unfold sz; lia).
  pose proof (defaultHotspot_bounds (activeType seen) sz Hsz) as (Hx & Hy).
  split; [reflexivity|]. split; [reflexivity|].
  split; [exact Hx|]. split; [exact Hy|].
  split; [reflexivity|]. split; [reflexivity|]. split; [reflexivity|].
  split.
  { apply (map_update_ids id (withFramesName (f :: rest) name)).
    intro l. split; reflexivity. }
  split; [reflexivity|].
  intros l Hin Hl. apply in_map_iff in Hin. destruct Hin as (x & Hx' & _).
  destruct (String.eqb (layer_id x) id) eqn:E.
  - subst l. split; reflexivity.
  - subst l. apply String.eqb_neq in E. contradiction.
Qed.

Lemma handleUpload_first_base_image_witness :
  let s := {| editor := initialEditor; activeType := busy; error := None |} in
  let f := {| image := Samples.pixel; delay := 100 |} in
  let s' := handleUpload "a.png" (Ok [f]) (Some "base"%string) "x" s s in
  let d' := activeData (editor s') in
  outputSize d' = Z.max 32 (Z.max 1 1) /\
  hotspot d' = getDefaultHotspot busy (outputSize d') /\
  0 <= hot_x (hotspot d') < outputSize d' /\
  0 <= hot_y (hotspot d') < outputSize d' /\
  fileName d' = "a.png"%string /\
  error s' = None /\
  error (handleUpload "a.png" (Ok [f]) (Some "base"%string) "x" s
           (beginUpload s)) = None /\
  map layer_id (layers d') = map layer_id (layers (activeData initialEditor)) /\
  selectedLayerId (editor s') = selectedLayerId initialEditor /\
  (forall l, In l (layers d') -> layer_id l = "base"%string ->
             frames l = [f] /\ layer_name l = "a.png"%string).
Proof.
  apply (handleUpload_first_base_image "a.png"
           {| image := Samples.pixel; delay := 100 |} [] "base" "x"
           {| editor := initialEditor; activeType := busy; error := None |}
           {| editor := initialEditor; activeType := busy; error := None |}).
  - discriminate.
  - reflexivity.
  - reflexivity.
Defined.

(** X8. An upload whose handler saw a file name on the profile changes
    neither the output size nor the hotspot nor that name, whatever the
    file decodes to and whichever layer it goes to.  What counts is the
    profile the handler saw when the upload began, not the profile as it
    is when the file has been read: of two uploads onto the Base layer
    begun on the unnamed initial profile, the second to finish overwrites
    the size, the hotspot and the name the first has set. *)
Theorem handleUpload_keeps_profile_seen_named :
  (forall (name : string) (parsed : Js (list FrameData))
          (replaceId : option string) (freshId : string) (seen s : Session),
      fileName (activeData (editor seen)) <> ""%string ->
      let d' :=
        activeData (editor (handleUpload name parsed replaceId freshId seen s)) in
      outputSize d' = outputSize (activeData (editor s)) /\
      hotspot d' = hotspot (activeData (editor s)) /\
      fileName d' = fileName (activeData (editor s)))
  /\
  (let seen := {| editor := initialEditor; activeType := busy;
                  error := None |} in
   let big := {| image := {| img_src := img_src Samples.pixel;
                             img_width := 48; img_height := 40 |};
                 delay := 100 |} in
   let s1 := handleUpload "first.png" (Ok [big]) (Some "base"%string) "x"
               seen (beginUpload seen) in
   let s2 := handleUpload "second.png"
               (Ok [ {| image := Samples.pixel; delay := 100 |} ])
               (Some "base"%string) "y" seen s1 in
   fileName (activeData (editor s1)) = "first.png"%string /\
   outputSize (activeData (editor s1)) = 48 /\
   hotspot (activeData (editor s1)) = {| hot_x := 24; hot_y := 24 |} /\
   fileName (activeData (editor s2)) = "second.png"%string /\
   outputSize (activeData (editor s2)) = 32 /\
   hotspot (activeData (editor s2)) = {| hot_x := 16; hot_y := 16 |}).
Proof.
  split.
  - intros name parsed replaceId freshId seen s Hname. cbv zeta.
    apply String.eqb_neq in Hname.
    unfold handleUpload.
    destruct parsed as [fs|err|]; try (repeat split; reflexivity).
    destruct replaceId as [id|]; [|repeat split; reflexivity].
    destruct (String.eqb id ""); [repeat split; reflexivity|].
    rewrite Hname, andb_false_r. repeat split; reflexivity.
  - cbv zeta. repeat split; reflexivity.
Qed.

Lemma handleUpload_keeps_profile_seen_named_witness :
  let s := {| editor :=
                {| activeData :=
                     {| layers := [createBaseLayer];
                        hotspot := {| hot_x := 3; hot_y := 4 |};
                        outputSize := 48; fileName := "first.png" |};
                   selectedLayerId := "base" |};
              activeType := normal; error := None |} in
  let d' := activeData (editor
              (handleUpload "second.png"
                 (Ok [ {| image := Samples.pixel; delay := 100 |} ])
                 (Some "base"%string) "x" s (beginUpload s))) in
  outputSize d' = 48 /\
  hotspot d' = {| hot_x := 3; hot_y := 4 |} /\
  fileName d' = "first.png"%string.
Proof.
  apply (proj1 handleUpload_keeps_profile_seen_named "second.png"%string
           (Ok [ {| image := Samples.pixel; delay := 100%Q |} ])
           (Some "base"%string) "x"%string
           {| editor :=
                {| activeData :=
                     {| layers := [createBaseLayer];
                        hotspot := {| hot_x := 3; hot_y := 4 |};
                        outputSize := 48; fileName := "first.png" |};
                   selectedLayerId := "base" |};
              activeType := normal; error := None |}).
  simpl. discriminate.
Defined.

(** X9. An upload never changes how many Base layers the stack holds,
    whatever state its handler saw; it adds one layer when no layer is
    replaced and none otherwise. *)
Theorem handleUpload_keeps_base :
  forall (name : string) (parsed : Js (list FrameData))
         (replaceId : option string) (freshId : string) (seen s : Session),
    let before := layers (activeData (editor s)) in
    let after :=
      layers (activeData
                (editor (handleUpload name parsed replaceId freshId seen s))) in
    baseCount after = baseCount before /\
    (List.length after = List.length before \/
     (List.length after = S (List.length before) /\
      exists fs, parsed = Ok fs /\
                 after = before ++ [uploadedLayer freshId name fs])).
Proof.
  intros name parsed replaceId freshId seen s. cbv zeta.
  assert (Hadd : forall fs,
    baseCount (layers (activeData
       (addLayer (uploadedLayer freshId name fs) (editor s))))
    = baseCount (layers (activeData (editor s)))).
  { intro fs. cbn [addLayer activeData withLayers layers].
    rewrite baseCount_app. unfold baseCount at 2. simpl. lia. }
  assert (Hupd : forall id fs,
    baseCount (layers (activeData
       (updateLayer id (withFramesName fs name) (editor s))))
    = baseCount (layers (activeData (editor s))) /\
    List.length (layers (activeData
       (updateLayer id (withFramesName fs name) (editor s))))
    = List.length (layers (activeData (editor s)))).
  { intros id fs. cbn [updateLayer activeData withLayers layers].
    split; [|apply length_map].
    apply (map_update_ids id (withFramesName fs name)).
    intro l. split; reflexivity. }
  unfold handleUpload.
  destruct parsed as [fs|err|]; cbn [editor]; try (split; [reflexivity|now left]).
  assert (Haddcase :
    baseCount (layers (activeData
       (addLayer (uploadedLayer freshId name fs) (editor s))))
    = baseCount (layers (activeData (editor s))) /\
    (List.length (layers (activeData
        (addLayer (uploadedLayer freshId name fs) (editor s))))
     = List.length (layers (activeData (editor s))) \/
     (List.length (layers (activeData
         (addLayer (uploadedLayer freshId name fs) (editor s))))
      = S (List.length (layers (activeData (editor s)))) /\
      exists fs0, Ok fs = Ok fs0 /\
        layers (activeData (addLayer (uploadedLayer freshId name fs) (editor s)))
        = layers (activeData (editor s)) ++ [uploadedLayer freshId name fs0]))).
  { split; [apply Hadd|]. right. split.
    - cbn [addLayer activeData withLayers layers]. rewrite length_app. simpl. lia.
    - exists fs. split; reflexivity. }
  destruct replaceId as [id|]; [|exact Haddcase].
  destruct (String.eqb id ""); [exact Haddcase|].
  destruct (Hupd id fs) as [Hb Hl].
  destruct (replacesBase id (editor seen)
            && String.eqb (fileName (activeData (editor seen))) "").
  - destruct fs as [|f rest]; cbn [editor activeData withFileSizeHotspot layers];
      (split; [exact Hb|left; exact Hl]).
  - cbn [editor]. split; [exact Hb|left; exact Hl].
Qed.

End EditingFacts.

(* ===================================================================== *)
(** ** The layout of the written ANI file *)
(* ===================================================================== *)

Module RiffFacts.

Import Bytes BytesFacts Encode Riff.

Lemma zeros_app (a b : nat) : zeros (a + b) = zeros a ++ zeros b.
Proof. unfold zeros. apply repeat_app. Qed.

Lemma zeros_length (n : nat) : List.length (zeros n) = n.
Proof. apply repeat_length. Qed.

(** Writing [src] over the middle part of a buffer. *)
Lemma setBytes_at (a b c src : list byte) (off : nat) :
  List.length a = off -> List.length src = List.length b ->
  setBytes (a ++ b ++ c) src off = a ++ src ++ c.
Proof.
  intros Ha Hb. unfold setBytes. subst off.
  assert (H1 : firstn (List.length a) (a ++ b ++ c) = a).
  { rewrite firstn_app, firstn_all, Nat.sub_diag, firstn_O. apply app_nil_r. }
  assert (H2 : skipn (List.length a + List.length src) (a ++ b ++ c) = c).
  { rewrite Hb, <- length_app.
    replace (a ++ b ++ c) with ((a ++ b) ++ c) by (now rewrite <- app_assoc).
    rewrite skipn_app, skipn_all, Nat.sub_diag, skipn_O. reflexivity. }
  now rewrite H1, H2.
Qed.

Lemma setBytes_at0 (b c src : list byte) :
  List.length src = List.length b ->
  setBytes (b ++ c) src 0 = src ++ c.
Proof. intro H. apply (setBytes_at [] b c src 0 eq_refl H). Qed.

Lemma le32_length (v : Z) : List.length (le32 v) = 4%nat.
Proof. reflexivity. Qed.

Lemma setUint32_at (a b c : list byte) (off : nat) (v : Z) :
  List.length a = off -> List.length b = 4%nat ->
  setUint32 (a ++ b ++ c) off v = a ++ le32 v ++ c.
Proof.
  intros Ha Hb. unfold setUint32.
  change [toUint8 v; toUint8 (v / 256); toUint8 (v / 65536);
          toUint8 (v / 16777216)] with (le32 v).
  apply setBytes_at; [assumption|now rewrite Hb].
Qed.

Lemma totalLength_acc (parts : list (list byte)) :
  forall a, fold_left (fun a b => (a + List.length b)%nat) parts a
            = (a + List.length (List.concat parts))%nat.
Proof.
  induction parts as [|c rest IH]; intro a; simpl; [lia|].
  rewrite IH, length_app. lia.
Qed.

Lemma totalLength_concat (parts : list (list byte)) :
  totalLength parts = List.length (List.concat parts).
Proof. unfold totalLength. now rewrite totalLength_acc. Qed.

(** Filling a zeroed tail with the parts, one after the other. *)
Lemma setAll_fill (parts : list (list byte)) :
  forall (pre : list byte) (off : nat),
    List.length pre = off ->
    setAll (pre ++ zeros (List.length (List.concat parts))) off parts
    = pre ++ List.concat parts.
Proof.
  induction parts as [|c rest IH]; intros pre off Hoff; simpl.
  - reflexivity.
  - rewrite length_app, zeros_app.
    rewrite (setBytes_at pre (zeros (List.length c)) _ c off)
      by (try assumption; now rewrite zeros_length).
    rewrite app_assoc.
    rewrite (IH (pre ++ c) (off + List.length c)%nat)
      by (rewrite length_app; lia).
    now rewrite <- app_assoc.
Qed.

Lemma writeRates_fill (rs : list Z) :
  forall (pre : list byte) (i : nat),
    List.length pre = (8 + i * 4)%nat ->
    writeRates (pre ++ zeros (List.length rs * 4)) i rs
    = pre ++ List.concat (map le32 rs).
Proof.
  induction rs as [|r rest IH]; intros pre i Hpre; simpl.
  - reflexivity.
  - change (zeros (S (S (S (S (List.length rest * 4))))))
      with (zeros 4 ++ zeros (List.length rest * 4)).
    rewrite (setUint32_at pre (zeros 4) _ (8 + i * 4) r) by (assumption || reflexivity).
    rewrite app_assoc.
    rewrite (IH (pre ++ le32 r) (S i))
      by (rewrite length_app, le32_length; lia).
    now rewrite <- app_assoc.
Qed.

Lemma iconChunk_layout (b : list byte) : iconChunk b = iconBytes b.
Proof.
  unfold iconChunk, iconBytes.
  replace (8 + List.length b + List.length b mod 2)%nat
    with (4 + (4 + (List.length b + List.length b mod 2)))%nat by lia.
  rewrite !zeros_app.
  rewrite (setBytes_at0 (zeros 4) _ (strToBytes "icon")) by reflexivity.
  rewrite (setUint32_at (strToBytes "icon") (zeros 4) _ 4)
    by reflexivity.
  rewrite (app_assoc (strToBytes "icon")).
  rewrite (setBytes_at _ (zeros (List.length b)) _ b 8)
    by (try reflexivity; now rewrite zeros_length).
  now rewrite <- app_assoc.
Qed.

Lemma anih_layout (n : nat) :
  setBytes
    (setUint32 (setBytes (zeros 44) (strToBytes "anih") 0) 4 36)
    (setUint32
       (setUint32
          (setUint32
             (setUint32 (setUint32 (zeros 36) 0 36) 4 (Z.of_nat n)) 8
             (Z.of_nat n)) 28 60) 32 1) 8
  = anihChunk n.
Proof. reflexivity. Qed.

(** The buffer writes of [aniBytes] produce the chunks in their order:
    header, [anih], [rate], and the [fram] list. *)
Lemma aniBytes_layout (blobs : list (list byte)) (rates : list Z) :
  aniBytes blobs rates = aniLayout blobs rates.
Proof.
  unfold aniBytes. cbv zeta.
  rewrite anih_layout.
  (* the rate chunk *)
  assert (Hrc :
    writeRates
      (setUint32
         (setBytes (zeros (8 + List.length rates * 4)) (strToBytes "rate") 0)
         4 (Z.of_nat (List.length rates * 4))) 0 rates
    = rateChunk rates).
  { change (zeros (8 + List.length rates * 4))
      with (zeros 4 ++ zeros 4 ++ zeros (List.length rates * 4)).
    rewrite (setBytes_at0 (zeros 4) _ (strToBytes "rate")) by reflexivity.
    rewrite (setUint32_at (strToBytes "rate") (zeros 4) _ 4) by reflexivity.
    rewrite app_assoc.
    rewrite writeRates_fill by reflexivity.
    unfold rateChunk. now rewrite <- app_assoc. }
  rewrite Hrc.
  (* the list chunk *)
  assert (Hics : map iconChunk blobs = map iconBytes blobs)
    by (apply map_ext; exact iconChunk_layout).
  rewrite Hics, !totalLength_concat. fold (framList blobs).
  assert (Hlc :
    setAll
      (setBytes
         (setUint32
            (setBytes (zeros (8 + 4 + List.length (framList blobs)))
               (strToBytes "LIST") 0)
            4 (Z.of_nat (4 + List.length (framList blobs))))
         (strToBytes "fram") 8) 12 (map iconBytes blobs)
    = listChunk blobs).
  { change (zeros (8 + 4 + List.length (framList blobs)))
      with (zeros 4 ++ zeros 4 ++ zeros 4 ++ zeros (List.length (framList blobs))).
    rewrite (setBytes_at0 (zeros 4) _ (strToBytes "LIST")) by reflexivity.
    rewrite (setUint32_at (strToBytes "LIST") (zeros 4) _ 4) by reflexivity.
    rewrite (app_assoc (strToBytes "LIST")).
    rewrite (setBytes_at _ (zeros 4) _ (strToBytes "fram") 8) by reflexivity.
    rewrite (app_assoc _ (strToBytes "fram")).
    change (zeros (List.length (framList blobs)))
      with (zeros (List.length (List.concat (map iconBytes blobs)))).
    rewrite setAll_fill by reflexivity.
    unfold listChunk, framList. now rewrite <- !app_assoc. }
  rewrite Hlc.
  (* the outer header *)
  cbn [List.concat]. rewrite app_nil_r.
  fold (aniBody blobs rates).
  change (zeros (8 + 4 + List.length (aniBody blobs rates)))
    with (zeros 4 ++ zeros 4 ++ zeros 4 ++ zeros (List.length (aniBody blobs rates))).
  rewrite (setBytes_at0 (zeros 4) _ (strToBytes "RIFF")) by reflexivity.
  rewrite (setUint32_at (strToBytes "RIFF") (zeros 4) _ 4) by reflexivity.
  rewrite (app_assoc (strToBytes "RIFF")).
  rewrite (setBytes_at _ (zeros 4) _ (strToBytes "ACON") 8) by reflexivity.
  rewrite (app_assoc _ (strToBytes "ACON")).
  assert (Hlen :
    List.length (strToBytes "RIFF" ++ zeros 4 ++ zeros 4
                 ++ zeros (List.length (aniBody blobs rates)))
    = (12 + List.length (aniBody blobs rates))%nat).
  { rewrite !length_app, !zeros_length. reflexivity. }
  rewrite Hlen.
  assert (Hc : List.concat [anihChunk (List.length blobs); rateChunk rates;
                            listChunk blobs] = aniBody blobs rates).
  { unfold aniBody. cbn [List.concat]. now rewrite app_nil_r. }
  rewrite <- Hc at 2.
  rewrite setAll_fill by reflexivity.
  rewrite Hc. unfold aniLayout. now rewrite <- !app_assoc.
Qed.

End RiffFacts.

(* ===================================================================== *)
(** ** Reading back the written ANI file *)
(* ===================================================================== *)

Module AniReadBack.

Import Bytes BytesFacts Decode DecodeFacts Riff RiffFacts.
Local Open Scope Z_scope.

Lemma len_app (a b : list byte) : len (a ++ b) = len a + len b.
Proof. unfold len. rewrite length_app. lia. Qed.




Lemma concat_le32_length (rs : list Z) :
  List.length (List.concat (map le32 rs)) = (4 * List.length rs)%nat.
Proof.
  induction rs as [|r rs IH]; simpl; [reflexivity|]. rewrite IH. lia.
Qed.


Lemma while_done {S : Type} (cond : S -> bool) (body : S -> Js S)
      (fuel : nat) (s : S) :
  cond s = false -> while (Datatypes.S fuel) cond body s = Ok s.
Proof. intro Hc. simpl. now rewrite Hc. Qed.


Lemma iconBytes_length (b : list byte) :
  List.length (iconBytes b)
  = (8 + List.length b + List.length b mod 2)%nat.
Proof.
  unfold iconBytes. rewrite !length_app, zeros_length. simpl. lia.
Qed.

Lemma len_iconBytes (b : list byte) :
  len (iconBytes b) = 8 + len b + len b mod 2.
Proof.
  unfold len. rewrite iconBytes_length.
  rewrite !Nat2Z.inj_add, Nat2Z.inj_mod. reflexivity.
Qed.




Lemma len_anihChunk (n : nat) : len (anihChunk n) = 44.
Proof. reflexivity. Qed.

Lemma len_rateChunk (rs : list Z) :
  len (rateChunk rs) = 8 + 4 * Z.of_nat (List.length rs).
Proof.
  unfold rateChunk, len. rewrite !length_app, concat_le32_length.
  change (List.length (strToBytes "rate")) with 4%nat.
  rewrite le32_length. lia.
Qed.

Lemma len_listChunk (blobs : list (list byte)) :
  len (listChunk blobs) = 12 + len (framList blobs).
Proof.
  unfold listChunk, len. rewrite !length_app, le32_length.
  change (List.length (strToBytes "LIST")) with 4%nat.
  change (List.length (strToBytes "fram")) with 4%nat. lia.
Qed.




Lemma decodes_riff : decodesTo (strToBytes "RIFF") "RIFF" = true.
Proof. reflexivity. Qed.


End AniReadBack.
(* ===================================================================== *)
(** ** The ANI writer of [download] read back by [parseAniFile] *)
(* ===================================================================== *)

Module AniRoundTrip.

Import Bytes BytesFacts Decode DecodeFacts Riff RiffFacts AniReadBack.
Local Open Scope Z_scope.



Lemma len_framList (blobs : list (list byte)) :
  len (framList blobs)
  = fold_right Z.add 0 (map (fun b => 8 + len b + len b mod 2) blobs).
Proof.
  induction blobs as [|b blobs IH]; [reflexivity|].
  change (framList (b :: blobs)) with (iconBytes b ++ framList blobs).
  rewrite len_app, len_iconBytes, IH. reflexivity.
Qed.

Lemma len_aniLayout (blobs : list (list byte)) (rs : list Z) :
  len (aniLayout blobs rs)
  = 76 + 4 * Z.of_nat (List.length rs) + len (framList blobs).
Proof.
  unfold aniLayout, aniBody.
  rewrite !len_app, len_anihChunk, len_rateChunk, len_listChunk.
  change (len (strToBytes "RIFF")) with 4.
  change (len (strToBytes "ACON")) with 4.
  change (len (le32 ?[v])) with 4. lia.
Qed.

(** X10. The buffer writes of the ANI branch of [download] produce this
    file, for every list of blobs and of rates: [RIFF], the file length
    less 8 as a little-endian uint32, [ACON], the 44-byte [anih] chunk
    (frame and step count, 60 jiffies, flag 1), the [rate] chunk with a
    uint32 for every rate, and the [LIST]/[fram] chunk holding one
    [icon] sub-chunk for every blob, padded to an even length.  The file
    is 76 bytes plus 4 for every rate and [8 + length + length mod 2]
    for every blob. *)
Theorem ani_file_layout (blobs : list (list byte)) (rs : list Z) :
  Encode.aniBytes blobs rs
  = strToBytes "RIFF" ++ le32 (len (Encode.aniBytes blobs rs) - 8)
      ++ strToBytes "ACON" ++ anihChunk (List.length blobs)
      ++ rateChunk rs ++ listChunk blobs
  /\
  len (Encode.aniBytes blobs rs)
  = 76 + 4 * Z.of_nat (List.length rs)
    + fold_right Z.add 0 (map (fun b => 8 + len b + len b mod 2) blobs).
Proof.
  rewrite aniBytes_layout. split.
  - replace (len (aniLayout blobs rs) - 8)
      with (Z.of_nat (12 + List.length (aniBody blobs rs)) - 8);
      [reflexivity|].
    unfold len, aniLayout. rewrite !length_app.
    change (List.length (strToBytes "RIFF")) with 4%nat.
    change (List.length (strToBytes "ACON")) with 4%nat.
    change (List.length (le32 ?[v])) with 4%nat.
    lia.
  - now rewrite len_aniLayout, len_framList.
Qed.



End AniRoundTrip.
(* ===================================================================== *)
(** ** The outcomes of [parseAniFile] *)
(* ===================================================================== *)

Module AniOutcomes.

Import Bytes BytesFacts Decode DecodeFacts.
Local Open Scope Z_scope.

Lemma getUint32_throws (bs : list byte) (off : Z) (e : Error) :
  getUint32 bs off = Throw e -> e = RangeError.
Proof.
  unfold getUint32.
  destruct ((off <? 0) || (len bs <? off + 4)); [congruence|].
  destruct (get bs off), (get bs (off + 1)), (get bs (off + 2)),
    (get bs (off + 3)); congruence.
Qed.

Lemma while_throws {S : Type} (cond : S -> bool) (body : S -> Js S) :
  (forall s e, body s = Throw e -> e = RangeError) ->
  forall fuel s e, while fuel cond body s = Throw e -> e = RangeError.
Proof.
  intros Hb. induction fuel as [|fuel IH]; intros s e; simpl; [discriminate|].
  destruct (cond s); [|discriminate].
  destruct (body s) as [s'| e' |] eqn:E; [apply IH| |discriminate].
  intro H. injection H as <-. eapply Hb; eassumption.
Qed.

Lemma framBody_throws bytes st e :
  framBody bytes st = Throw e -> e = RangeError.
Proof.
  destruct st as [ip icons]. unfold framBody, bind.
  destruct (getUint32 bytes (ip + 4)) eqn:E; try discriminate.
  intro H. injection H as <-. eapply getUint32_throws; eassumption.
Qed.

Lemma rateBody_throws bytes p st e :
  rateBody bytes p st = Throw e -> e = RangeError.
Proof.
  destruct st as [i rs]. unfold rateBody, bind.
  destruct (getUint32 bytes (p + i * 4)) eqn:E; try discriminate.
  intro H. injection H as <-. eapply getUint32_throws; eassumption.
Qed.

Lemma chunkBody_throws fuel bytes st e :
  chunkBody fuel bytes st = Throw e -> e = RangeError.
Proof.
  unfold chunkBody, bind.
  destruct (getUint32 bytes (pos st + 4)) as [size| e' |] eqn:E;
    [| intro H; injection H as <-; eapply getUint32_throws; eassumption
     | discriminate].
  destruct (decodesTo (slice bytes (pos st) (pos st + 4)) "anih"
            && (36 <=? size)).
  { destruct (getUint32 bytes (pos st + 8 + 28)) eqn:E2; try discriminate.
    intro H. injection H as <-. eapply getUint32_throws; eassumption. }
  destruct (decodesTo (slice bytes (pos st) (pos st + 4)) "rate").
  { destruct (while fuel (rateCond size) (rateBody bytes (pos st + 8))
                (0, rates st)) eqn:E2; try discriminate.
    intro H. injection H as <-.
    eapply (while_throws _ _ (rateBody_throws bytes (pos st + 8))).
    eassumption. }
  destruct (decodesTo (slice bytes (pos st) (pos st + 4)) "LIST");
    [|discriminate].
  destruct (decodesTo (slice bytes (pos st + 8) (pos st + 8 + 4)) "fram");
    [|discriminate].
  destruct (while fuel (framCond (pos st + 8 + size)) (framBody bytes)
              (pos st + 8 + 4, iconChunks st)) eqn:E2; try discriminate.
  intro H. injection H as <-.
  eapply (while_throws _ _ (framBody_throws bytes)). eassumption.
Qed.

(** The two outcomes that depend on the head of the file alone. *)
Lemma parseAniFile_outcomes_cases (loadImage : Blob -> Image)
      (bytes : list byte) :
  (decodesTo (slice bytes 0 4) "RIFF" = false ->
   parseAniFile loadImage bytes = Throw InvalidANI) /\
  (decodesTo (slice bytes 0 4) "RIFF" = true -> len bytes <= 20 ->
   parseAniFile loadImage bytes = Ok []).
Proof.
  unfold parseAniFile, parseAniFileWith, bind, walk. split.
  - intros ->. reflexivity.
  - intros -> Hlen. cbn [negb]. rewrite AniReadBack.while_done; [reflexivity|].
    unfold chunkCond, walkStart. cbn [pos]. apply Z.ltb_ge. lia.
Qed.

(** X12. [parseAniFile] ends in one of three ways on every byte array.
    It throws [Invalid ANI] exactly when the first four bytes are not
    [RIFF]; otherwise it returns frames, or a read of a 32-bit field
    past the end of the buffer throws a [RangeError].  No other
    exception leaves it, and a RIFF file of at most 20 bytes decodes to
    no frame at all. *)
Theorem parseAniFile_outcomes (loadImage : Blob -> Image) (bytes : list byte) :
  match parseAniFile loadImage bytes with
  | Ok fs =>
      decodesTo (slice bytes 0 4) "RIFF" = true /\
      (fs = [] \/ 20 < len bytes)
  | Throw InvalidANI => decodesTo (slice bytes 0 4) "RIFF" = false
  | Throw RangeError =>
      decodesTo (slice bytes 0 4) "RIFF" = true /\ 20 < len bytes
  | Throw TypeError => False
  | OutOfFuel => False
  end.
Proof.
  unfold parseAniFile, parseAniFileWith, bind.
  pose proof (walk_total bytes (S (List.length bytes)) ltac:(lia)) as Ht.
  unfold walk in *.
  destruct (decodesTo (slice bytes 0 4) "RIFF") eqn:Hm; cbn [negb] in *;
    [|reflexivity].
  destruct (Z_le_gt_dec (len bytes) 20) as [Hshort|Hlong].
  - rewrite AniReadBack.while_done.
    + split; [reflexivity|]. left. reflexivity.
    + unfold chunkCond, walkStart. cbn [pos]. apply Z.ltb_ge. lia.
  - destruct (while (S (List.length bytes)) (chunkCond bytes)
                (chunkBody (S (List.length bytes)) bytes) walkStart)
      as [st| e |] eqn:E.
    + split; [reflexivity|]. right. lia.
    + apply (while_throws _ _ (chunkBody_throws _ bytes)) in E. subst e.
      split; [reflexivity|lia].
    + congruence.
Qed.

End AniOutcomes.
(* ===================================================================== *)
(** ** Rates and delays *)
(* ===================================================================== *)

Module RateFacts.

Import Num Decode Encode.
Local Open Scope Z_scope.

(** The rate written for the delay that [parseAniFile] gives a frame of
    rate [r]: the nearest integer to [r * 1000000 / 999960]. *)
Lemma toRate_of_rate (r : Z) :
  toRate (inject_Z r * (1000 / 60))%Q
  = Z.max 1 ((2000000 * r + 999960) / 1999920).
Proof.
  unfold toRate, round, Qfloor, Qdiv, Qmult, Qplus, Qinv, inject_Z.
  cbn [Qnum Qden]. f_equal. f_equal; lia.
Qed.

(** X13. Decoding a rate [r] to the delay [r * (1000/60)] ms and
    encoding that delay with [max(1, round(d / 16.666))] gives [r] back
    exactly when [1 <= r <= 12499]: a rate of 0 comes back as 1, and
    from 12500 jiffies on the divisor 16.666 (instead of 1000/60) makes
    the result larger than [r]. *)
Theorem rate_survives_decode_encode (r : Z) :
  toRate (inject_Z r * (1000 / 60))%Q = r <-> 1 <= r <= 12499.
Proof.
  rewrite toRate_of_rate.
  pose proof (Z.div_mod (2000000 * r + 999960) 1999920 ltac:(lia)) as E.
  pose proof (Z.mod_pos_bound (2000000 * r + 999960) 1999920 ltac:(lia)) as B.
  lia.
Qed.

End RateFacts.
(* ===================================================================== *)
(** ** The compositor *)
(* ===================================================================== *)

Module ComposeFacts.

Import Canvas Encode EncodeFacts Compose.

Lemma paint_appends (ctx : Context) (l : Layer) (frame : FrameData) (size : Z) :
  paint ctx l frame size
  = withDrawn ctx
      (drawn ctx ++ [layerOp (ctm ctx) (globalAlpha ctx)
                       (imageSmoothingEnabled ctx) l frame size]).
Proof.
  unfold paint, scale, rotate, translate, withCtm, save.
  simpl. rewrite CanvasFacts.setGlobalAlpha_fields. reflexivity.
Qed.

Lemma withDrawn_same (ctx : Context) : withDrawn ctx (drawn ctx) = ctx.
Proof. now destruct ctx. Qed.

Lemma drawLayer_appends (ctx : Context) (l : Layer) (time : Double.number)
      (size : Z) :
  drawLayer ctx l time size
  = withDrawn ctx
      (drawn ctx ++ layerOps (ctm ctx) (globalAlpha ctx)
                      (imageSmoothingEnabled ctx) l time size).
Proof.
  unfold drawLayer, layerOps.
  destruct (negb (visible l) || (List.length (frames l) =? 0)%nat).
  - now rewrite app_nil_r, withDrawn_same.
  - destruct (Timeline.activeFrame (frames l) time).
    + apply paint_appends.
    + now rewrite app_nil_r, withDrawn_same.
Qed.

Lemma drawLayers_appends (ls : list Layer) (time : Double.number) (size : Z) :
  forall ctx,
    drawLayers ctx ls time size
    = withDrawn ctx
        (drawn ctx ++ stackOps (ctm ctx) (globalAlpha ctx)
                        (imageSmoothingEnabled ctx) ls time size).
Proof.
  unfold drawLayers, stackOps.
  induction ls as [|l ls IH]; intro ctx; cbn [fold_left flat_map].
  - now rewrite app_nil_r, withDrawn_same.
  - rewrite IH, drawLayer_appends. unfold withDrawn at 1 3. cbn.
    now rewrite <- app_assoc.
Qed.

Lemma scan_in (fs : list FrameData) (frame : FrameData) :
  forall t, Timeline.scan fs t frame = frame \/ In (Timeline.scan fs t frame) fs.
Proof.
  induction fs as [|g fs IH]; intro t; cbn [Timeline.scan].
  - now left.
  - destruct (Double.ltb t (Double.fin (delay g))); [right; now left|].
    destruct (IH (Double.sub t (Double.fin (delay g)))) as [H|H];
      [now left|right; now right].
Qed.

Lemma activeFrame_some (fs : list FrameData) (time : Double.number) :
  fs <> [] -> exists f, Timeline.activeFrame fs time = Some f /\ In f fs.
Proof.
  intro Hne. destruct fs as [|frame rest]; [congruence|].
  unfold Timeline.activeFrame.
  destruct (1 <? List.length (frame :: rest))%nat;
    [|exists frame; split; [reflexivity|now left]].
  eexists. split; [reflexivity|].
  match goal with
  | |- In (Timeline.scan _ ?t _) _ =>
      destruct (scan_in (frame :: rest) frame t) as [H|H]; [|exact H]
  end.
  rewrite H. now left.
Qed.

(** X14. [layers.forEach(l => drawLayer(ctx, l, time, size))] leaves
    the matrix, the alpha, the smoothing flag, the save stack and the
    size of the canvas as they were, and appends to what was drawn
    exactly one image for each visible layer that has a frame, in stack
    order: the image of that layer's active frame, drawn under the
    smoothing flag of the canvas and under the layer's opacity when that
    is a value from 0 to 1; the canvas ignores any other opacity, and
    such a layer is drawn under the alpha the canvas had before the
    loop.  Hidden and empty layers add nothing. *)
Theorem drawLayers_one_image_per_shown_layer
        (ctx : Context) (ls : list Layer) (time : Double.number) (size : Z) :
  let out := drawLayers ctx ls time size in
  ctm out = ctm ctx /\ globalAlpha out = globalAlpha ctx /\
  imageSmoothingEnabled out = imageSmoothingEnabled ctx /\
  saved out = saved ctx /\
  canvasWidth out = canvasWidth ctx /\ canvasHeight out = canvasHeight ctx /\
  exists ops,
    drawn out = drawn ctx ++ ops /\
    List.length ops = List.length (filter shown ls) /\
    Forall2 (fun op l =>
               op_alpha op
               = (if inUnitRange (cfg_opacity (config l))
                  then Q2R (cfg_opacity (config l))
                  else globalAlpha ctx) /\
               op_smoothing op = imageSmoothingEnabled ctx /\
               exists f, Timeline.activeFrame (frames l) time = Some f /\
                         In f (frames l) /\ op_image op = image f)
            ops (filter shown ls).
Proof.
  cbv zeta. rewrite drawLayers_appends. cbn [withDrawn ctm globalAlpha saved
    imageSmoothingEnabled canvasWidth canvasHeight drawn].
  split_conj; try reflexivity.
  exists (stackOps (ctm ctx) (globalAlpha ctx) (imageSmoothingEnabled ctx)
            ls time size).
  split; [reflexivity|].
  assert (H : Forall2 (fun op l =>
               op_alpha op
               = (if inUnitRange (cfg_opacity (config l))
                  then Q2R (cfg_opacity (config l))
                  else globalAlpha ctx) /\
               op_smoothing op = imageSmoothingEnabled ctx /\
               exists f, Timeline.activeFrame (frames l) time = Some f /\
                         In f (frames l) /\ op_image op = image f)
            (stackOps (ctm ctx) (globalAlpha ctx) (imageSmoothingEnabled ctx)
               ls time size)
            (filter shown ls)).
  { unfold stackOps. induction ls as [|l ls IH]; cbn [flat_map filter].
    - constructor.
    - unfold layerOps at 1, shown at 1.
      destruct (visible l); cbn [negb orb andb]; [|exact IH].
      destruct (List.length (frames l) =? 0)%nat eqn:E; cbn [negb];
        [exact IH|].
      destruct (activeFrame_some (frames l) time) as (f & Hf & Hin).
      { intro H0. rewrite H0 in E. discriminate. }
      rewrite Hf. cbn [app]. constructor; [|exact IH].
      split; [reflexivity|]. split; [reflexivity|].
      exists f. now split_conj. }
  split; [|exact H].
  eapply Forall2_length; eassumption.
Qed.

Section Passes.

Variable toBlob : Context -> option (list byte).
Variable data : CursorState.
Variable format : Format.
Variable master : Layer.

Lemma exportPass_closed (i : nat) (acc : Acc) :
  withDrawn (canvas acc) []
  = create (outputSize data) (outputSize data) ->
  exportPass toBlob data format (Some master) i acc
  = Ok {| canvas := composite data (timeOffset master i);
          frameBlobs := frameBlobs acc
                          ++ passBlobs toBlob data format master i;
          rates := rates acc ++ [toRate (passDelay master i)];
          composites := composites acc
                          ++ [composite data (timeOffset master i)] |}.
Proof.
  intro Hinv. unfold exportPass.
  change (clearAll (canvas acc)) with (withDrawn (canvas acc) []).
  rewrite Hinv, drawLayers_appends.
  change (withDrawn (create (outputSize data) (outputSize data))
            (drawn (create (outputSize data) (outputSize data))
             ++ stackOps (ctm (create (outputSize data) (outputSize data)))
                  (globalAlpha (create (outputSize data) (outputSize data)))
                  (imageSmoothingEnabled
                     (create (outputSize data) (outputSize data)))
                  (layers data) (timeOffset master i) (outputSize data)))
    with (composite data (timeOffset master i)).
  unfold passBlobs.
  destruct (toBlob (composite data (timeOffset master i)));
    [destruct (isPng format && (i =? 0)%nat)|]; rewrite ?app_nil_r;
    reflexivity.
Qed.

Lemma exportLoop_closed (n : nat) :
  forall (i : nat) (acc : Acc),
    withDrawn (canvas acc) []
    = create (outputSize data) (outputSize data) ->
    exists acc',
      exportLoop toBlob data format (Some master) n i acc = Ok acc' /\
      frameBlobs acc'
        = frameBlobs acc
            ++ flat_map (passBlobs toBlob data format master) (seq i n) /\
      composites acc'
        = composites acc
            ++ map (fun k => composite data (timeOffset master k)) (seq i n).
Proof.
  induction n as [|n IH]; intros i acc Hinv.
  - exists acc. cbn. now rewrite !app_nil_r.
  - cbn [exportLoop]. rewrite exportPass_closed by exact Hinv. cbn [bind].
    match goal with
    | |- exists acc', exportLoop _ _ _ _ _ _ ?a = _ /\ _ =>
        destruct (IH (S i) a) as (acc' & Hrun & Hb & Hc); [reflexivity|]
    end.
    exists acc'. split; [exact Hrun|].
    cbn [frameBlobs composites] in Hb, Hc.
    rewrite Hb, Hc. cbn [seq flat_map map]. now rewrite <- !app_assoc.
Qed.

End Passes.

(** The export in closed form: what it renders and what it returns. *)
Lemma generateExportBlob_closed
      (toBlob : Context -> option (list byte)) (data : CursorState)
      (format : Format) :
  layers data <> [] ->
  exists master out,
    snd (pickMaster (layers data)) = Some master /\
    generateExportBlob toBlob data format = Ok out /\
    let n := if isAni format
             then Nat.max 1 (Spec.maxFrameCount (layers data)) else 1%nat in
    rendered out
      = map (fun i => composite data (timeOffset master i)) (seq 0 n) /\
    blobs out = flat_map (passBlobs toBlob data format master) (seq 0 n).
Proof.
  intro Hne.
  destruct (pickMaster_some (layers data) Hne) as (master & Hm).
  pose proof (pickMaster_fst (layers data)) as Hf.
  unfold generateExportBlob.
  destruct (pickMaster (layers data)) as [maxFrames masterLayer].
  cbn [fst snd] in Hm, Hf. subst masterLayer maxFrames.
  match goal with
  | |- context [exportLoop _ _ _ _ ?n 0 ?a] =>
      destruct (exportLoop_closed toBlob data format master n 0%nat a)
        as (acc' & Hrun & Hb & Hc); [reflexivity|]
  end.
  exists master. eexists. split; [reflexivity|].
  rewrite Hrun. cbn [bind]. split; [reflexivity|].
  cbn [rendered blobs]. cbn [frameBlobs composites app] in Hb, Hc.
  split; assumption.
Qed.

(** X15. Every pass of the export starts from a cleared canvas: on a
    stack with at least one layer, the canvas handed to [toBlob] in
    pass [i] is the composite of the stack at the time offset of pass
    [i], whatever the earlier passes drew.  The returned [blobs] are
    what the passes pushed, in order: the PNG bytes themselves for pass
    0 of the [png] format, the PNG wrapped in a cursor directory
    otherwise, and nothing for a pass whose [toBlob] gave [null]; the
    returned [rates] hold one entry for every pass. *)
Theorem export_passes_independent
        (toBlob : Context -> option (list byte)) (data : CursorState)
        (format : Format) :
  layers data <> [] ->
  exists master out,
    snd (pickMaster (layers data)) = Some master /\
    generateExportBlob toBlob data format = Ok out /\
    let n := if isAni format
             then Nat.max 1 (Spec.maxFrameCount (layers data)) else 1%nat in
    rendered out
      = map (fun i => composite data (timeOffset master i)) (seq 0 n) /\
    blobs out = flat_map (passBlobs toBlob data format master) (seq 0 n) /\
    out_rates out = map (fun i => toRate (passDelay master i)) (seq 0 n).
Proof.
  intro Hne.
  destruct (generateExportBlob_closed toBlob data format Hne)
    as (master & out & Hm & Hrun & Hr & Hb).
  destruct (generateExportBlob_spec toBlob data format Hne)
    as (master' & out' & Hm' & Hrun' & Hrates & _).
  rewrite Hrun in Hrun'. apply Ok_inj in Hrun'. subst out'.
  rewrite Hm in Hm'. injection Hm' as <-.
  exists master, out. cbv zeta in *. split_conj; assumption.
Qed.

Lemma export_passes_independent_witness :
  exists master out,
    snd (pickMaster (layers (Samples.profile Samples.threeFrameStack 32)))
      = Some master /\
    generateExportBlob Samples.steadyEncoder
      (Samples.profile Samples.threeFrameStack 32) ani = Ok out /\
    let n := if isAni ani
             then Nat.max 1 (Spec.maxFrameCount
                    (layers (Samples.profile Samples.threeFrameStack 32)))
             else 1%nat in
    rendered out
      = map (fun i => composite (Samples.profile Samples.threeFrameStack 32)
                        (timeOffset master i)) (seq 0 n) /\
    blobs out
      = flat_map (passBlobs Samples.steadyEncoder
                    (Samples.profile Samples.threeFrameStack 32) ani master)
          (seq 0 n) /\
    out_rates out = map (fun i => toRate (passDelay master i)) (seq 0 n).
Proof.
  apply (export_passes_independent Samples.steadyEncoder
           (Samples.profile Samples.threeFrameStack 32) ani).
  discriminate.
Defined.

End ComposeFacts.

(* ===================================================================== *)
(** ** The frame clock over whole periods, and under the export *)
(* ===================================================================== *)

Module ClockFacts.

Import Num NumFacts Double DoubleFacts Timeline TimelineFacts Spec Samples.
Import Lqa.
Local Open Scope Q_scope.

(** On a number that is not negative, [trunc] is the integer part. *)
Lemma trunc_unique (q : Q) (z : Z) :
  (0 <= z)%Z -> inject_Z z <= q -> q < inject_Z z + 1 -> trunc q = z.
Proof.
  intros Hpos Hlo Hhi.
  assert (Hq : 0 <= q).
  { apply Qle_trans with (inject_Z z); [|assumption].
    change 0 with (inject_Z 0). rewrite <- Zle_Qle. assumption. }
  pose proof (trunc_nonneg q Hq) as Hk.
  pose proof (trunc_above q) as Hb.
  assert (H1 : inject_Z (trunc q) < inject_Z z + 1) by lra.
  assert (H2 : inject_Z z < inject_Z (trunc q) + 1) by lra.
  change 1 with (inject_Z 1) in H1, H2.
  rewrite <- inject_Z_plus in H1, H2.
  rewrite <- Zlt_Qlt in H1, H2. lia.
Qed.

(** Two times that are not negative and lie a whole number of periods
    apart have the same remainder. *)
Lemma rem_periods (a a' b : Q) (k : Z) :
  0 < b -> 0 <= a -> (0 <= k)%Z -> a' == a + inject_Z k * b ->
  exists t t',
    Num.rem a b = Some t /\ Num.rem a' b = Some t' /\ t' == t.
Proof.
  intros Hb Ha Hk Ha'. unfold Num.rem.
  destruct (Qeq_bool b 0) eqn:E.
  { apply Qeq_bool_iff in E. lra. }
  do 2 eexists. split; [reflexivity|]. split; [reflexivity|].
  assert (Hq0 : 0 <= a / b).
  { unfold Qdiv. apply Qmult_le_0_compat; [assumption|].
    apply Qinv_le_0_compat. lra. }
  pose proof (trunc_nonneg (a / b) Hq0) as Hlo.
  pose proof (trunc_below (a / b)) as Hhi.
  pose proof (trunc_above (a / b)) as Hhi'.
  pose proof (trunc_nonneg_ge0 (a / b) Hq0) as Hz.
  assert (Hdiv : a' / b == a / b + inject_Z k)
    by (rewrite Ha'; field; lra).
  assert (Hk' : 0 <= inject_Z k)
    by (change 0 with (inject_Z 0); rewrite <- Zle_Qle; assumption).
  rewrite (trunc_unique (a' / b) (trunc (a / b) + k)).
  - rewrite inject_Z_plus, Ha'. ring.
  - lia.
  - rewrite inject_Z_plus, Hdiv. lra.
  - rewrite inject_Z_plus, Hdiv.
    assert (a / b < inject_Z (trunc (a / b)) + 1) by lra.
    lra.
Qed.

(** [NaN] runs through the scan: every comparison with it is false. *)
Lemma scan_nan (fs : list FrameData) (frame : FrameData) :
  scan fs nan frame = frame.
Proof.
  induction fs as [|f fs IH]; cbn [scan]; [reflexivity|]. exact IH.
Qed.

Lemma rem_zero (x : number) : rem x (fin 0) = nan.
Proof. destruct x; reflexivity. Qed.

(** X16. The frame clock is periodic in the total the program computes,
    the running sum of the delays in doubles: when that total is
    positive, a finite time that is not negative and a time exactly a
    whole number of such totals later show the same frame.  The period
    is not the sum of the durations themselves: the two frames of an
    animation with the rates 1 and 2 last 50.000000000000004 ms
    together, the program's total is 50, and the clock shows frame 0 at
    16.666666666666664 ms and frame 1 exactly two sums of the durations
    later, at 116.66666666666667 ms. *)
Theorem activeFrame_periodic :
  (forall (fs : list FrameData) (T time time' : Q) (k : Z),
      total fs = fin T -> 0 < T -> 0 <= time -> (0 <= k)%Z ->
      time' == time + inject_Z k * T ->
      activeFrame fs (fin time') = activeFrame fs (fin time))
  /\
  (total timeline12 = fin 50 /\
   ~ totalDuration timeline12 == 50 /\
   jiffies7 == almostJiffy + inject_Z 2 * totalDuration timeline12 /\
   activeFrame timeline12 (fin almostJiffy) = nth_error timeline12 0 /\
   activeFrame timeline12 (fin jiffies7) = nth_error timeline12 1 /\
   nth_error timeline12 0 = Some {| image := still 0; delay := jiffies1 |} /\
   nth_error timeline12 1 = Some {| image := still 1; delay := jiffies2 |}).
Proof.
  split.
  - intros fs T time time' k Htot HT Htime Hk Hlater. unfold activeFrame.
    destruct fs as [|frame rest]; [reflexivity|].
    destruct (1 <? List.length (frame :: rest))%nat; [|reflexivity].
    rewrite Htot. cbn [rem].
    destruct (rem_periods time time' T k HT Htime Hk Hlater)
      as (t & t' & Ht & Ht' & E).
    rewrite Ht, Ht'. now rewrite (Qred_complete _ _ E).
  - split_conj; try (vm_compute; reflexivity).
    vm_compute. discriminate.
Qed.

Lemma activeFrame_periodic_witness :
  activeFrame (timeline [100; 150; 250]) (fin 1620)
  = activeFrame (timeline [100; 150; 250]) (fin 120).
Proof.
  apply (proj1 activeFrame_periodic (timeline [100; 150; 250]) 500 120 1620 3%Z).
  - vm_compute. reflexivity.
  - reflexivity.
  - discriminate.
  - lia.
  - reflexivity.
Defined.

(** X17. A timeline whose total is zero never animates: the remainder
    [time % 0] is [NaN], the scan compares [NaN] with every delay,
    every comparison is false, and what is drawn is the frame the scan
    started from, the first one, at every time.  The same happens on
    every timeline when the time itself is [NaN]. *)
Theorem activeFrame_zero_total :
  (forall (fs : list FrameData) (time : number),
      total fs = fin 0 ->
      rem time (total fs) = nan /\
      (forall frame, scan fs (rem time (total fs)) frame = frame) /\
      activeFrame fs time = hd_error fs)
  /\
  (forall fs : list FrameData, activeFrame fs nan = hd_error fs).
Proof.
  split.
  - intros fs time H. rewrite H, rem_zero.
    split; [reflexivity|]. split; [intro frame; apply scan_nan|].
    unfold activeFrame. destruct fs as [|frame rest]; [reflexivity|].
    destruct (1 <? List.length (frame :: rest))%nat; [|reflexivity].
    rewrite H, rem_zero, scan_nan. reflexivity.
  - intro fs. unfold activeFrame. destruct fs as [|frame rest]; [reflexivity|].
    destruct (1 <? List.length (frame :: rest))%nat; [|reflexivity].
    cbn [rem]. now rewrite scan_nan.
Qed.

Lemma activeFrame_zero_total_witness :
  rem (fin 1234) (total (timeline [0; 0; 0])) = nan /\
  (forall frame,
      scan (timeline [0; 0; 0]) (rem (fin 1234) (total (timeline [0; 0; 0])))
        frame = frame) /\
  activeFrame (timeline [0; 0; 0]) (fin 1234) = hd_error (timeline [0; 0; 0]).
Proof.
  apply (proj1 activeFrame_zero_total (timeline [0; 0; 0]) (fin 1234)).
  vm_compute. reflexivity.
Defined.

(** X28. On a timeline of more than one frame whose durations are whole
    milliseconds, all positive, with a total below 2^53, and at a time
    of whole milliseconds, the arithmetic of [drawLayer] is exact: it
    computes [t = time % total], the remainder with the sign of the
    time, and draws the first frame whose cumulative duration strictly
    exceeds [t]. *)
Theorem activeFrame_first_exceeding_whole
        (fs : list FrameData) (T time : Z) :
  (1 < List.length fs)%nat ->
  Forall (fun f => exists d : Z, delay f == inject_Z d /\ (0 < d)%Z) fs ->
  totalDuration fs == inject_Z T -> (T < 2 ^ 53)%Z ->
  (Z.abs time < 2 ^ 53)%Z ->
  total fs = fin (inject_Z T) /\
  rem (fin (inject_Z time)) (total fs) = fin (inject_Z (Z.rem time T)) /\
  exists (i : nat) (f : FrameData),
    activeFrame fs (fin (inject_Z time)) = Some f /\
    nth_error fs i = Some f /\
    firstExceeding fs (inject_Z (Z.rem time T)) i.
Proof.
  intros Hlen Hw HT Hlt Htime.
  split; [now apply total_whole|].
  now apply (activeFrame_whole fs T time).
Qed.

Lemma activeFrame_first_exceeding_whole_witness :
  total (timeline [100; 150; 250]) = fin (inject_Z 500) /\
  rem (fin (inject_Z 1350)) (total (timeline [100; 150; 250]))
  = fin (inject_Z (Z.rem 1350 500)) /\
  exists (i : nat) (f : FrameData),
    activeFrame (timeline [100; 150; 250]) (fin (inject_Z 1350)) = Some f /\
    nth_error (timeline [100; 150; 250]) i = Some f /\
    firstExceeding (timeline [100; 150; 250]) (inject_Z (Z.rem 1350 500)) i.
Proof.
  apply (activeFrame_first_exceeding_whole (timeline [100; 150; 250]) 500 1350).
  - simpl. lia.
  - repeat (apply Forall_cons; [eexists; split; [reflexivity|lia]|]).
    apply Forall_nil.
  - reflexivity.
  - lia.
  - lia.
Defined.

(** *** The clock at the time offsets of the export *)

Lemma cumulative_succ (fs : list FrameData) :
  forall (i : nat) (f : FrameData),
    nth_error fs i = Some f ->
    cumulativeDuration fs (S i) == cumulativeDuration fs i + delay f.
Proof.
  induction fs as [|g fs IH]; intros [|i] f H; try discriminate.
  - cbn in H. injection H as <-.
    rewrite cumulative_cons, !cumulative_0. ring.
  - cbn [nth_error] in H. rewrite !cumulative_cons, (IH i f H). ring.
Qed.

Lemma cumulative_all (fs : list FrameData) :
  cumulativeDuration fs (List.length fs) = totalDuration fs.
Proof. unfold cumulativeDuration. now rewrite firstn_all. Qed.

Lemma cumulative_step (fs : list FrameData) (i : nat) :
  Forall (fun f => 0 < delay f) fs -> (i < List.length fs)%nat ->
  cumulativeDuration fs i < cumulativeDuration fs (S i).
Proof.
  intros Hpos Hi.
  destruct (nth_error fs i) as [f|] eqn:E.
  - rewrite (cumulative_succ fs i f E).
    assert (0 < delay f).
    { apply nth_error_In in E.
      now apply (proj1 (Forall_forall _ _) Hpos). }
    lra.
  - apply nth_error_None in E. lia.
Qed.

Lemma cumulative_mono (fs : list FrameData) (i j : nat) :
  Forall (fun f => 0 < delay f) fs ->
  (i <= j)%nat -> (j <= List.length fs)%nat ->
  cumulativeDuration fs i <= cumulativeDuration fs j.
Proof.
  intros Hpos Hij Hj. induction Hij as [|j Hij IH]; [lra|].
  assert (cumulativeDuration fs j < cumulativeDuration fs (S j))
    by (apply cumulative_step; [assumption|lia]).
  assert (cumulativeDuration fs i <= cumulativeDuration fs j) by (apply IH; lia).
  lra.
Qed.

(** The running sum of the export is exact on whole durations. *)
Lemma timeOffset_whole (master : Layer) (T : Z) :
  Forall (fun f => exists d : Z, delay f == inject_Z d /\ (0 < d)%Z)
         (frames master) ->
  totalDuration (frames master) == inject_Z T -> (T < 2 ^ 53)%Z ->
  forall i : nat,
    (i <= List.length (frames master))%nat ->
    exists c : Z,
      cumulativeDuration (frames master) i == inject_Z c /\
      (0 <= c <= T)%Z /\
      Encode.timeOffset master i = fin (inject_Z c).
Proof.
  intros Hw HT Hlt.
  pose proof (whole_positive _ Hw) as Hpos.
  assert (Hbound : forall (i : nat) (c : Z),
             (i <= List.length (frames master))%nat ->
             cumulativeDuration (frames master) i == inject_Z c ->
             (0 <= c <= T)%Z).
  { intros i c Hi Hc.
    pose proof (cumulative_mono (frames master) 0 i Hpos ltac:(lia) Hi) as H0.
    pose proof (cumulative_mono (frames master) i _ Hpos Hi (Nat.le_refl _))
      as H1.
    rewrite cumulative_all, HT, Hc in H1. rewrite cumulative_0, Hc in H0.
    change 0 with (inject_Z 0) in H0.
    rewrite <- Zle_Qle in H0, H1. lia. }
  unfold Encode.timeOffset.
  destruct (0 <? List.length (frames master))%nat eqn:E0.
  2:{ apply Nat.ltb_ge in E0. intros i Hi.
      assert (i = 0%nat) by lia. subst i. exists 0%Z.
      split; [reflexivity|]. split; [|reflexivity].
      apply (Hbound 0%nat 0%Z); [lia|reflexivity]. }
  induction i as [|i IH]; intro Hi.
  - exists 0%Z. split; [reflexivity|]. split; [|reflexivity].
    apply (Hbound 0%nat 0%Z); [lia|reflexivity].
  - destruct (IH ltac:(lia)) as (c & Hc & Hcb & Hoff).
    rewrite seq_S, fold_left_app. cbn [fold_left Nat.add]. rewrite Hoff.
    unfold Encode.masterDelay. rewrite Nat.mod_small by lia.
    destruct (nth_error (frames master) i) as [f|] eqn:E.
    2:{ apply nth_error_None in E. lia. }
    assert (Hf : exists d : Z, delay f == inject_Z d /\ (0 < d)%Z).
    { apply nth_error_In in E.
      now apply (proj1 (Forall_forall _ _) Hw). }
    destruct Hf as (d & Hd & Hdpos).
    assert (Hsum : cumulativeDuration (frames master) (S i)
                   == inject_Z (c + d)).
    { rewrite (cumulative_succ _ i f E), Hc, Hd, inject_Z_plus. reflexivity. }
    pose proof (Hbound (S i) (c + d)%Z Hi Hsum) as Hb.
    exists (c + d)%Z. split; [exact Hsum|]. split; [exact Hb|].
    apply add_whole; [reflexivity|exact Hd|lia].
Qed.

(** X18. In the export of a layer with at least two frames whose
    durations are whole milliseconds, all positive, with a total below
    2^53, the time offset of pass [i] is exactly the sum of the first
    [i] durations, and at that time the frame clock of the layer shows
    its frame number [i]: the passes walk the master layer frame by
    frame.  On durations that are not whole the running sum rounds and
    a pass can show an earlier frame: for the three frames of an
    animation with the rates 1, 2 and 1 the offset of pass 2 is 50, and
    passes 0, 1 and 2 show the frames 0, 1 and 1. *)
Theorem export_pass_shows_frame :
  (forall (master : Layer) (T : Z) (i : nat),
      (1 < List.length (frames master))%nat ->
      Forall (fun f => exists d : Z, delay f == inject_Z d /\ (0 < d)%Z)
             (frames master) ->
      totalDuration (frames master) == inject_Z T -> (T < 2 ^ 53)%Z ->
      (i < List.length (frames master))%nat ->
      exists c : Z,
        cumulativeDuration (frames master) i == inject_Z c /\
        Encode.timeOffset master i = fin (inject_Z c) /\
        activeFrame (frames master) (Encode.timeOffset master i)
        = nth_error (frames master) i)
  /\
  (let master := baseWith timeline121 in
   Encode.timeOffset master 0 = fin 0 /\
   Encode.timeOffset master 1 = fin jiffies1 /\
   Encode.timeOffset master 2 = fin 50 /\
   activeFrame (frames master) (Encode.timeOffset master 0)
   = nth_error timeline121 0 /\
   activeFrame (frames master) (Encode.timeOffset master 1)
   = nth_error timeline121 1 /\
   activeFrame (frames master) (Encode.timeOffset master 2)
   = nth_error timeline121 1 /\
   nth_error timeline121 1 = Some {| image := still 1; delay := jiffies2 |}).
Proof.
  split.
  - intros master T i Hlen Hw HT Hlt Hi.
    destruct (timeOffset_whole master T Hw HT Hlt i ltac:(lia))
      as (c & Hc & Hcb & Hoff).
    exists c. split; [exact Hc|]. split; [exact Hoff|]. rewrite Hoff.
    set (fs := frames master) in *.
    pose proof (whole_positive _ Hw) as Hpos.
    assert (HcT : (c < T)%Z).
    { pose proof (cumulative_step fs i Hpos Hi) as H1.
      pose proof (cumulative_mono fs (S i) (List.length fs) Hpos Hi (Nat.le_refl _))
        as H2.
      rewrite cumulative_all, HT in H2. rewrite Hc in H1.
      assert (H3 : inject_Z c < inject_Z T) by lra.
      now rewrite <- Zlt_Qlt in H3. }
    destruct (activeFrame_whole fs T c Hlen Hw HT Hlt ltac:(lia))
      as (_ & _ & j & f & Hact & Hn & Hfe & Hb).
    rewrite Z.rem_small in Hfe, Hb by lia.
    rewrite Hact, <- Hn. f_equal.
    destruct (Nat.lt_trichotomy j i) as [Hji|[Hji|Hji]]; [|exact Hji|].
    + exfalso.
      assert (cumulativeDuration fs (S j) <= cumulativeDuration fs i)
        by (apply cumulative_mono; [assumption|lia|lia]).
      lra.
    + exfalso.
      assert (cumulativeDuration fs (S i) <= inject_Z c) by (apply Hb; lia).
      assert (cumulativeDuration fs i < cumulativeDuration fs (S i))
        by (apply cumulative_step; assumption).
      lra.
  - cbv zeta. split_conj; vm_compute; reflexivity.
Qed.

Lemma export_pass_shows_frame_witness :
  exists c : Z,
    cumulativeDuration (frames (baseWith (timeline [100; 150; 250]))) 2
    == inject_Z c /\
    Encode.timeOffset (baseWith (timeline [100; 150; 250])) 2
    = fin (inject_Z c) /\
    activeFrame (frames (baseWith (timeline [100; 150; 250])))
      (Encode.timeOffset (baseWith (timeline [100; 150; 250])) 2)
    = nth_error (frames (baseWith (timeline [100; 150; 250]))) 2.
Proof.
  apply (proj1 export_pass_shows_frame
           (baseWith (timeline [100; 150; 250])) 500%Z 2%nat).
  - simpl. lia.
  - repeat (apply Forall_cons; [eexists; split; [reflexivity|lia]|]).
    apply Forall_nil.
  - reflexivity.
  - lia.
  - simpl. lia.
Defined.

End ClockFacts.
(* ===================================================================== *)
(** ** A written cursor file read back by the static branch *)
(* ===================================================================== *)

Module CurReadBack.

Import Bytes BytesFacts Decode Encode CurFacts StaticFacts.
Local Open Scope Z_scope.

Lemma same_byte_no_hit (w : byte) : (u8 w =? 137) && (u8 w =? 80) = false.
Proof.
  destruct (Z.eqb_spec (u8 w) 137) as [E|E]; [|reflexivity].
  rewrite E. reflexivity.
Qed.

Lemma eqb_below (b : byte) (v bound : Z) :
  u8 b < bound -> bound <= v -> (u8 b =? v) = false.
Proof. intros. apply Z.eqb_neq. lia. Qed.

(** The scan of [parseFile] over a 22-byte directory whose hotspot and
    size fields hold no byte pair [89 50], followed by a PNG stream. *)
Lemma scanPng_past_directory
      (w hxl hxh hyl hyh s0 s1 s2 s3 : byte) (rest : list byte) (n : nat) :
  u8 hxh < 80 -> u8 hyh < 80 -> u8 s1 < 80 -> u8 s2 < 80 ->
  (22 < n)%nat ->
  scanPng ([ x00; x00; x02; x00; x01; x00 ]
             ++ [ w; w; x00; x00; hxl; hxh; hyl; hyh; s0; s1; s2; s3;
                  x16; x00; x00; x00 ]
             ++ x89 :: x50 :: rest) 0 n
  = Some 22.
Proof.
  intros Hx Hy H1 H2 Hn.
  do 23 (destruct n as [|n]; [lia|]).
  pose proof (eqb_below hxh 80 80 Hx ltac:(lia)) as Ex1.
  pose proof (eqb_below hxh 137 80 Hx ltac:(lia)) as Ex2.
  pose proof (eqb_below hyh 80 80 Hy ltac:(lia)) as Ey1.
  pose proof (eqb_below hyh 137 80 Hy ltac:(lia)) as Ey2.
  pose proof (eqb_below s1 80 80 H1 ltac:(lia)) as Es1.
  pose proof (eqb_below s1 137 80 H1 ltac:(lia)) as Es2.
  pose proof (eqb_below s2 137 80 H2 ltac:(lia)) as Es3.
  pose proof (same_byte_no_hit w) as Ew.
  Transparent toUint8 u8.
  unfold scanPng, hit, byteIs, get. simpl.
  rewrite Ew, Ex1, Ex2, Ey1, Ey2, Es1, Es2, Es3.
  rewrite ?andb_false_r. simpl.
  reflexivity.
Qed.

Lemma u8_high_byte (v : Z) : 0 <= v < 20480 -> u8 (toUint8 (v / 256)) < 80.
Proof.
  intro H. rewrite u8_toUint8.
  pose proof (Z.mod_pos_bound (v / 256) 256 ltac:(lia)).
  assert (v / 256 < 80) by (apply Z.div_lt_upper_bound; lia).
  assert (0 <= v / 256) by (apply Z.div_pos; lia).
  rewrite Z.mod_small; lia.
Qed.

Lemma u8_third_byte (v : Z) : 0 <= v < 20480 -> u8 (toUint8 (v / 65536)) < 80.
Proof.
  intro H. rewrite u8_toUint8.
  rewrite Z.div_small by lia. reflexivity.
Qed.

Lemma sliceFrom_app (pre post : list byte) (a : Z) :
  a = len pre -> sliceFrom (pre ++ post) a = post.
Proof.
  intros ->. unfold sliceFrom, slice, len. rewrite length_app.
  rewrite Z.min_id.
  replace (Z.min (Z.of_nat (List.length pre))
             (Z.of_nat (List.length pre + List.length post)))
    with (Z.of_nat (List.length pre)) by lia.
  rewrite Nat2Z.id.
  replace (Z.to_nat (Z.of_nat (List.length pre + List.length post)
                     - Z.of_nat (List.length pre)))
    with (List.length post) by lia.
  rewrite skipn_app, skipn_all, Nat.sub_diag. cbn [skipn app].
  apply firstn_all.
Qed.

(** X19. A cursor file written by the export is read back by the static
    branch of [parseFile] as the PNG it wraps: when the PNG stream starts
    with [89 50] and is longer than 8 and shorter than 20480 bytes, and
    both hotspot coordinates lie in [0, 20480), the file counts as a
    cursor directory, the scan stops at offset 22, and the one decoded
    frame is the image of exactly the PNG bytes, typed [image/png], with
    a delay of 100 ms. *)
Theorem cur_file_read_back (loadImage : Blob -> Image) (data : CursorState)
        (pngBytes : list byte) :
  firstn 2 pngBytes = [x89; x50] ->
  8 < len pngBytes < 20480 ->
  0 <= hot_x (hotspot data) < 20480 ->
  0 <= hot_y (hotspot data) < 20480 ->
  isCursorDirectory (curBytes data pngBytes) = true /\
  findPng (curBytes data pngBytes) = Some 22 /\
  staticBlob (curBytes data pngBytes)
  = {| blob_bytes := pngBytes; blob_type := image_png |} /\
  parseFile loadImage "cur" (curBytes data pngBytes)
  = Ok [ {| image := loadImage {| blob_bytes := pngBytes;
                                  blob_type := image_png |};
            delay := 100 |} ].
Proof.
  intros Hsig Hlen Hx Hy.
  destruct pngBytes as [|p0 [|p1 rest]]; try discriminate.
  cbn [firstn] in Hsig. injection Hsig as -> ->.
  set (png := x89 :: x50 :: rest) in *.
  assert (Hdir : isCursorDirectory (curBytes data png) = true).
  { apply isCursorDirectory_prefix. now rewrite curBytes_layout. }
  assert (Hfind : findPng (curBytes data png) = Some 22).
  { unfold findPng. rewrite curBytes_layout at 1.
    apply scanPng_past_directory.
    - now apply u8_high_byte.
    - now apply u8_high_byte.
    - apply u8_high_byte. unfold len in Hlen. lia.
    - apply u8_third_byte. unfold len in Hlen. lia.
    - rewrite curBytes_layout. unfold len in *.
      rewrite !length_app. cbn [List.length] in *. lia. }
  assert (Hblob : staticBlob (curBytes data png)
                  = {| blob_bytes := png; blob_type := image_png |}).
  { unfold staticBlob. rewrite Hdir, Hfind. f_equal.
    rewrite curBytes_layout, app_assoc.
    apply (sliceFrom_app _ png 22). reflexivity. }
  split_conj; try assumption.
  unfold parseFile. cbn [String.eqb Ascii.eqb Bool.eqb].
  unfold parseStatic. now rewrite Hblob.
Qed.

Lemma cur_file_read_back_witness :
  (isCursorDirectory
     (curBytes (Samples.profile [] 32) (Samples.pngStub ++ [x00])) = true /\
   findPng (curBytes (Samples.profile [] 32) (Samples.pngStub ++ [x00]))
   = Some 22 /\
   staticBlob (curBytes (Samples.profile [] 32) (Samples.pngStub ++ [x00]))
   = {| blob_bytes := Samples.pngStub ++ [x00]; blob_type := image_png |} /\
   parseFile Samples.stubDecoder "cur"
     (curBytes (Samples.profile [] 32) (Samples.pngStub ++ [x00]))
   = Ok [ {| image := Samples.stubDecoder
                        {| blob_bytes := Samples.pngStub ++ [x00];
                           blob_type := image_png |};
             delay := 100 |} ]).
Proof.
  apply (cur_file_read_back Samples.stubDecoder (Samples.profile [] 32)
           (Samples.pngStub ++ [x00])).
  - reflexivity.
  - vm_compute. split; reflexivity.
  - simpl. lia.
  - simpl. lia.
Defined.

Lemma getUint32_in_file (head tail : list byte) (off : Z) :
  List.length head = 22%nat -> 0 <= off <= 18 ->
  getUint32 (head ++ tail) off
  = match get head off, get head (off + 1), get head (off + 2),
          get head (off + 3) with
    | Some b0, Some b1, Some b2, Some b3 =>
        Ok (b0 + 256 * b1 + 65536 * b2 + 16777216 * b3)
    | _, _, _, _ => Throw RangeError
    end.
Proof.
  intros Hlen Hoff. unfold getUint32, len. rewrite length_app, Hlen.
  replace ((off <? 0) || (Z.of_nat (22 + List.length tail) <? off + 4))
    with false
    by (symmetry; apply orb_false_iff; split; apply Z.ltb_ge; lia).
  unfold get.
  replace (off <? 0) with false by (symmetry; apply Z.ltb_ge; lia).
  replace (off + 1 <? 0) with false by (symmetry; apply Z.ltb_ge; lia).
  replace (off + 2 <? 0) with false by (symmetry; apply Z.ltb_ge; lia).
  replace (off + 3 <? 0) with false by (symmetry; apply Z.ltb_ge; lia).
  rewrite !nth_error_app1 by (rewrite Hlen; lia).
  reflexivity.
Qed.

Lemma le16_wrap (v : Z) :
  v mod 256 + 256 * ((v / 256) mod 256) = v mod 65536.
Proof. Z.div_mod_to_equations. lia. Qed.

Lemma le32_wrap (v : Z) :
  v mod 256 + 256 * ((v / 256) mod 256) + 65536 * ((v / 65536) mod 256)
  + 16777216 * ((v / 16777216) mod 256) = v mod 4294967296.
Proof. Z.div_mod_to_equations. lia. Qed.

(** X20. The fields of the cursor directory hold their values modulo
    the field width, for every profile and every PNG stream: the width
    and height bytes are 0 from an output size of 256 on and the size
    modulo 256 below, the hotspot coordinates are stored modulo 65536,
    the PNG length modulo 2^32, and the image offset is 22. *)
Theorem cur_fields_wrap (data : CursorState) (pngBytes : list byte) :
  let file := curBytes data pngBytes in
  let w := if 256 <=? outputSize data then 0 else outputSize data mod 256 in
  len file = 22 + len pngBytes /\
  get file 6 = Some w /\ get file 7 = Some w /\
  getUint16 file 10 = Ok (hot_x (hotspot data) mod 65536) /\
  getUint16 file 12 = Ok (hot_y (hotspot data) mod 65536) /\
  getUint32 file 14 = Ok (len pngBytes mod 4294967296) /\
  getUint32 file 18 = Ok 22.
Proof.
  cbv zeta. rewrite curBytes_layout, app_assoc.
  assert (Hw : (if 256 <=? outputSize data then 0 else outputSize data) mod 256
               = if 256 <=? outputSize data then 0
                 else outputSize data mod 256)
    by (destruct (256 <=? outputSize data); reflexivity).
  Opaque toUint8 u8.
  split_conj.
  - unfold len. rewrite !length_app. cbn [List.length]. lia.
  - unfold get. simpl. now rewrite u8_toUint8, Hw.
  - unfold get. simpl. now rewrite u8_toUint8, Hw.
  - rewrite getUint16_in_file by (try reflexivity; lia).
    unfold get. simpl. rewrite !u8_toUint8. now rewrite le16_wrap.
  - rewrite getUint16_in_file by (try reflexivity; lia).
    unfold get. simpl. rewrite !u8_toUint8. now rewrite le16_wrap.
  - rewrite getUint32_in_file by (try reflexivity; lia).
    unfold get. simpl. rewrite !u8_toUint8. now rewrite le32_wrap.
  - rewrite getUint32_in_file by (try reflexivity; lia).
    Transparent toUint8 u8. vm_compute. reflexivity.
Qed.

End CurReadBack.
(* ===================================================================== *)
(** ** What [download] offers *)
(* ===================================================================== *)

Module DownloadFacts.

Import Bytes BytesFacts Canvas Encode EncodeFacts Compose ComposeFacts
       CurFacts Editing Download.

Lemma picture_draw (data : CursorState) (time : Double.number) :
  draw (create (outputSize data) (outputSize data)) (outputSize data) time
    (layers data)
  = picture data time.
Proof. unfold draw. now rewrite drawLayers_appends. Qed.

Lemma stackOps_smoothing (m : Matrix) (alpha : R) (smooth : bool)
      (ls : list Layer) (time : Double.number) (size : Z) :
  Forall (fun op => op_smoothing op = smooth)
         (stackOps m alpha smooth ls time size).
Proof.
  unfold stackOps. induction ls as [|l ls IH]; cbn [flat_map];
    [constructor|].
  apply Forall_app. split; [|exact IH].
  unfold layerOps.
  destruct (negb (visible l) || (List.length (frames l) =? 0)%nat);
    [constructor|].
  destruct (Timeline.activeFrame (frames l) time); repeat constructor.
Qed.

Lemma passBlobs_0 toBlob data format master :
  hd_error (passBlobs toBlob data format master 0)
  = option_map (fun p => if isPng format then p else curBytes data p)
      (toBlob (composite data 0)).
Proof.
  unfold passBlobs. rewrite timeOffset_0.
  destruct (toBlob (composite data 0)); [|reflexivity].
  destruct (isPng format); reflexivity.
Qed.

(** X21. On a stack with at least one layer [download] offers a file
    named after the profile and the cursor role.  For [png] it is the
    picture of the stack at time 0 that [draw] paints on a canvas of its
    own, with image smoothing turned off, whatever the export returned;
    for [cur] it is the first blob of the export, that is the cursor
    file of the PNG of the export's canvas at time 0, and [undefined]
    when the encoder gave no PNG; for [ani] it is the RIFF file laid
    out from the blobs and rates of the export.  The export never turns
    image smoothing off: its canvas holds the same images at the same
    places as the picture of the PNG, but drawn with smoothing on. *)
Theorem download_offers (toBlob : Context -> option (list byte))
        (data : CursorState) (t : CursorType) (format : Format) :
  layers data <> [] ->
  (exists out,
    generateExportBlob toBlob data format = Ok out /\
    download toBlob data t format
    = Ok match format with
         | png =>
             {| offer_name := (baseName data t ++ ".png")%string;
                offer_content := dataUrl (picture data 0) |}
         | cur =>
             {| offer_name := (baseName data t ++ ".cur")%string;
                offer_content :=
                  blobOf (option_map (curBytes data)
                            (toBlob (composite data 0))) |}
         | ani =>
             {| offer_name := (baseName data t ++ ".ani")%string;
                offer_content :=
                  blobOf (Some (Riff.aniLayout (blobs out) (out_rates out))) |}
         end) /\
  imageSmoothingEnabled (picture data 0) = false /\
  imageSmoothingEnabled (composite data 0) = true /\
  Forall (fun op => op_smoothing op = false) (drawn (picture data 0)) /\
  Forall (fun op => op_smoothing op = true) (drawn (composite data 0)) /\
  Forall2 (fun p c =>
             op_image p = op_image c /\ op_dx p = op_dx c /\
             op_dy p = op_dy c /\ op_ctm p = op_ctm c /\
             op_alpha p = op_alpha c)
          (drawn (picture data 0)) (drawn (composite data 0)).
Proof.
  intro Hne. split.
  - destruct (generateExportBlob_closed toBlob data format Hne)
      as (master & out & _ & Hrun & _ & Hb).
    exists out. split; [exact Hrun|].
    unfold download. rewrite Hrun. cbn [bind].
    destruct format.
    + now rewrite picture_draw.
    + cbn [isAni seq flat_map] in Hb. rewrite app_nil_r in Hb.
      rewrite Hb, passBlobs_0. reflexivity.
    + now rewrite RiffFacts.aniBytes_layout.
  - split; [reflexivity|]. split; [reflexivity|].
    split; [apply stackOps_smoothing|]. split; [apply stackOps_smoothing|].
    unfold picture, composite. cbn [drawn withDrawn]. unfold stackOps.
    clear Hne. induction (layers data) as [|l ls IH]; cbn [flat_map]; [constructor|].
    apply Forall2_app; [|exact IH].
    unfold layerOps.
    destruct (negb (visible l) || (List.length (frames l) =? 0)%nat);
      [constructor|].
    destruct (Timeline.activeFrame (frames l) 0); repeat constructor.
Qed.

Lemma download_offers_witness :
  (exists out,
    generateExportBlob Samples.steadyEncoder
      (Samples.profile Samples.threeFrameStack 32) cur = Ok out /\
    download Samples.steadyEncoder
      (Samples.profile Samples.threeFrameStack 32) busy cur
    = Ok {| offer_name :=
              (baseName (Samples.profile Samples.threeFrameStack 32) busy
                 ++ ".cur")%string;
            offer_content :=
              blobOf (option_map
                        (curBytes (Samples.profile Samples.threeFrameStack 32))
                        (Samples.steadyEncoder
                           (composite
                              (Samples.profile Samples.threeFrameStack 32) 0)))
         |}) /\
  imageSmoothingEnabled
    (picture (Samples.profile Samples.threeFrameStack 32) 0) = false /\
  imageSmoothingEnabled
    (composite (Samples.profile Samples.threeFrameStack 32) 0) = true /\
  Forall (fun op => op_smoothing op = false)
         (drawn (picture (Samples.profile Samples.threeFrameStack 32) 0)) /\
  Forall (fun op => op_smoothing op = true)
         (drawn (composite (Samples.profile Samples.threeFrameStack 32) 0)) /\
  Forall2 (fun p c =>
             op_image p = op_image c /\ op_dx p = op_dx c /\
             op_dy p = op_dy c /\ op_ctm p = op_ctm c /\
             op_alpha p = op_alpha c)
          (drawn (picture (Samples.profile Samples.threeFrameStack 32) 0))
          (drawn (composite (Samples.profile Samples.threeFrameStack 32) 0)).
Proof.
  apply (download_offers Samples.steadyEncoder
           (Samples.profile Samples.threeFrameStack 32) busy cur).
  discriminate.
Defined.

(** X22. On an empty stack [download] offers nothing, in any format:
    the export throws a [TypeError] on its missing master layer before
    any file is made, the PNG included, whose picture would not need
    the export. *)
Theorem download_empty_stack (toBlob : Context -> option (list byte))
        (data : CursorState) (t : CursorType) (format : Format) :
  layers data = [] ->
  download toBlob data t format = Throw TypeError.
Proof.
  intro H. unfold download.
  now rewrite (generateExportBlob_empty toBlob data format H).
Qed.

Lemma download_empty_stack_witness :
  download Samples.steadyEncoder (Samples.profile [] 32) normal png
  = Throw TypeError.
Proof.
  apply (download_empty_stack Samples.steadyEncoder (Samples.profile [] 32)
           normal png).
  reflexivity.
Defined.

(** *** The exported animation, imported again *)









End DownloadFacts.
(* ===================================================================== *)
(** ** Uploads that fail, and the first panel *)
(* ===================================================================== *)

Module SessionFacts.

Import Bytes Decode Stack Editing StackFacts EditingFacts.
Import Lqa.

(** X24. A file with the extension [ani] that does not start with
    [RIFF] changes nothing but the error: whichever layer it was meant
    for and whatever state the handler saw, the editor is as it was
    when the file had been read and the error is [Invalid ANI].  A file
    that is a RIFF header and no more (at most 20 bytes) decodes to no
    frame; uploaded onto the Base layer by a handler that saw a profile
    without a file name it empties and renames that layer and then
    fails with a [TypeError] on the missing first frame, so that the
    output size, the hotspot and the profile's file name stay as they
    were. *)
Theorem upload_of_broken_ani (loadImage : Blob -> Image) (name : string)
        (bytes : list byte) (replaceId : option string) (freshId : string)
        (seen s : Session) :
  (decodesTo (slice bytes 0 4) "RIFF" = false ->
   handleUpload name (parseFile loadImage "ani" bytes) replaceId freshId seen s
   = {| editor := editor s; activeType := activeType s;
        error := Some InvalidANI |})
  /\
  (decodesTo (slice bytes 0 4) "RIFF" = true -> (len bytes <= 20)%Z ->
   forall id, replaceId = Some id -> id <> ""%string ->
     replacesBase id (editor seen) = true ->
     fileName (activeData (editor seen)) = ""%string ->
     handleUpload name (parseFile loadImage "ani" bytes) replaceId freshId
       seen s
     = {| editor := updateLayer id (withFramesName [] name) (editor s);
          activeType := activeType s;
          error := Some TypeError |}).
Proof.
  pose proof (AniOutcomes.parseAniFile_outcomes_cases loadImage bytes) as H.
  unfold parseFile. cbn [String.eqb Ascii.eqb Bool.eqb].
  split.
  - intro Hm. destruct H as [H _]. rewrite (H Hm). reflexivity.
  - intros Hm Hlen id -> Hid Hbase Hname. destruct H as [_ H].
    rewrite (H Hm Hlen). unfold handleUpload.
    apply String.eqb_neq in Hid. rewrite Hid, Hbase, Hname. reflexivity.
Qed.

Lemma upload_of_broken_ani_witness :
  handleUpload "a.ani"
    (parseFile Samples.stubDecoder "ani" (strToBytes "JUNKJUNKJUNK"))
    None "x" {| editor := initialEditor; activeType := normal; error := None |}
    {| editor := initialEditor; activeType := normal; error := None |}
  = {| editor := initialEditor; activeType := normal;
       error := Some InvalidANI |}
  /\
  handleUpload "a.ani" (parseFile Samples.stubDecoder "ani" Samples.riffHeader)
    (Some "base"%string) "x"
    {| editor := initialEditor; activeType := normal; error := None |}
    {| editor := initialEditor; activeType := normal; error := None |}
  = {| editor := updateLayer "base" (withFramesName [] "a.ani") initialEditor;
       activeType := normal; error := Some TypeError |}.
Proof.
  split.
  - apply (proj1 (upload_of_broken_ani Samples.stubDecoder "a.ani"
                    (strToBytes "JUNKJUNKJUNK") None "x"
                    {| editor := initialEditor; activeType := normal;
                       error := None |}
                    {| editor := initialEditor; activeType := normal;
                       error := None |})).
    reflexivity.
  - apply (proj2 (upload_of_broken_ani Samples.stubDecoder "a.ani"
                    Samples.riffHeader (Some "base"%string) "x"
                    {| editor := initialEditor; activeType := normal;
                       error := None |}
                    {| editor := initialEditor; activeType := normal;
                       error := None |}));
      try reflexivity.
    + vm_compute. discriminate.
    + discriminate.
Defined.

(** X25. An upload keeps the layer ids distinct as long as the id drawn
    for a new layer is not in use, whatever state its handler saw:
    replacing the frames of a layer keeps every id, and a new layer
    comes last under the fresh id and becomes the selected one. *)
Theorem handleUpload_keeps_ids_distinct (name : string)
        (parsed : Js (list FrameData)) (replaceId : option string)
        (freshId : string) (seen s : Session) :
  NoDup (map layer_id (layers (activeData (editor s)))) ->
  ~ In freshId (map layer_id (layers (activeData (editor s)))) ->
  let s' := handleUpload name parsed replaceId freshId seen s in
  NoDup (map layer_id (layers (activeData (editor s')))) /\
  (map layer_id (layers (activeData (editor s')))
   = map layer_id (layers (activeData (editor s))) /\
   selectedLayerId (editor s') = selectedLayerId (editor s)
   \/
   map layer_id (layers (activeData (editor s')))
   = map layer_id (layers (activeData (editor s))) ++ [freshId] /\
   selectedLayerId (editor s') = freshId).
Proof.
  intros Hnd Hfresh. cbv zeta.
  assert (Hadd : forall fs,
    NoDup (map layer_id (layers (activeData
             (addLayer (uploadedLayer freshId name fs) (editor s))))) /\
    (map layer_id (layers (activeData
        (addLayer (uploadedLayer freshId name fs) (editor s))))
     = map layer_id (layers (activeData (editor s))) /\
     selectedLayerId (addLayer (uploadedLayer freshId name fs) (editor s))
     = selectedLayerId (editor s)
     \/
     map layer_id (layers (activeData
        (addLayer (uploadedLayer freshId name fs) (editor s))))
     = map layer_id (layers (activeData (editor s))) ++ [freshId] /\
     selectedLayerId (addLayer (uploadedLayer freshId name fs) (editor s))
     = freshId)).
  { intro fs. cbn [addLayer activeData withLayers layers selectedLayerId].
    rewrite map_app. cbn [map uploadedLayer layer_id]. split.
    - apply NoDup_app; [assumption|repeat constructor; intros []|].
      intros x Hx [<-|[]]. contradiction.
    - right. split; reflexivity. }
  assert (Hupd : forall id fs,
    map layer_id (layers (activeData
      (updateLayer id (withFramesName fs name) (editor s))))
    = map layer_id (layers (activeData (editor s)))).
  { intros id fs. cbn [updateLayer activeData withLayers layers].
    apply (map_update_ids id (withFramesName fs name)).
    intro l. split; reflexivity. }
  unfold handleUpload.
  destruct parsed as [fs|err|]; cbn [editor];
    try (split; [assumption|left; split; reflexivity]).
  destruct replaceId as [id|]; [|apply Hadd].
  destruct (String.eqb id ""); [apply Hadd|].
  destruct (replacesBase id (editor seen)
            && String.eqb (fileName (activeData (editor seen))) "");
    [destruct fs as [|f rest]|];
    cbn [editor activeData withFileSizeHotspot layers selectedLayerId];
    rewrite ?Hupd; (split; [assumption|left; split; reflexivity]).
Qed.

Lemma handleUpload_keeps_ids_distinct_witness :
  let s := {| editor := initialEditor; activeType := normal; error := None |} in
  let s' := handleUpload "o.png"
              (Ok [ {| image := Samples.pixel; delay := 100 |} ]) None "x1"
              s s in
  NoDup (map layer_id (layers (activeData (editor s')))) /\
  (map layer_id (layers (activeData (editor s')))
   = map layer_id (layers (activeData (editor s))) /\
   selectedLayerId (editor s') = selectedLayerId (editor s)
   \/
   map layer_id (layers (activeData (editor s')))
   = map layer_id (layers (activeData (editor s))) ++ ["x1"%string] /\
   selectedLayerId (editor s') = "x1"%string).
Proof.
  apply (handleUpload_keeps_ids_distinct "o.png"
           (Ok [ {| image := Samples.pixel; delay := 100 |} ]) None "x1"
           {| editor := initialEditor; activeType := normal; error := None |}
           {| editor := initialEditor; activeType := normal; error := None |}).
  - simpl. repeat constructor. intros [].
  - simpl. intros [H|[]]. discriminate.
Defined.

(** *** The first panel *)

(** What an upload does to the list of layers. *)
Lemma handleUpload_layers (name : string) (parsed : Js (list FrameData))
      (replaceId : option string) (freshId : string) (seen s : Session) :
  let ls := layers (activeData (editor s)) in
  let ls' :=
    layers (activeData
              (editor (handleUpload name parsed replaceId freshId seen s))) in
  ls' = ls \/
  (exists fs, ls' = ls ++ [uploadedLayer freshId name fs]) \/
  (exists id fs,
      ls' = map (fun l => if String.eqb (layer_id l) id
                          then withFramesName fs name l else l) ls).
Proof.
  cbv zeta. unfold handleUpload.
  destruct parsed as [fs|err|]; [|now left|now left].
  destruct replaceId as [id|]; [|right; left; now exists fs].
  destruct (String.eqb id ""); [right; left; now exists fs|].
  right; right. exists id, fs.
  destruct (replacesBase id (editor seen)
            && String.eqb (fileName (activeData (editor seen))) "");
    [destruct fs as [|f rest]|]; reflexivity.
Qed.

Lemma stack_invariant_step (s s' : Session) :
  panelStep s s' ->
  baseCount (layers (activeData (editor s))) = 1%nat /\
  NoDup (map layer_id (layers (activeData (editor s)))) ->
  baseCount (layers (activeData (editor s'))) = 1%nat /\
  NoDup (map layer_id (layers (activeData (editor s')))).
Proof.
  intros Hstep [Hb Hn].
  destruct Hstep as [| name parsed replaceId freshId seen Hfresh | e' Hact
                    | layerId | layerId | h | size]; try (split; assumption).
  - destruct (handleUpload_layers name parsed replaceId freshId seen s)
      as [E | [(fs & E) | (id & fs & E)]]; cbv zeta in E; rewrite E.
    + split; assumption.
    + split.
      * rewrite baseCount_app, Hb. reflexivity.
      * rewrite map_app. cbn [map uploadedLayer layer_id].
        apply NoDup_app; [assumption|repeat constructor; intros []|].
        intros x Hx [<-|[]]. contradiction.
    + destruct (map_update_ids id (withFramesName fs name)
                  (layers (activeData (editor s)))) as [Hids Hcount];
        [intro l; split; reflexivity|].
      rewrite Hids, Hcount. split; assumption.
  - cbn [withEditor editor].
    destruct Hact as [l Hl Hfresh | l Hin | layerId d | layerId updates Hu].
    + cbn [addLayer activeData withLayers layers]. split.
      * rewrite baseCount_app, Hb. unfold baseCount.
        cbn [filter]. now rewrite Hl.
      * rewrite map_app. cbn [map].
        apply NoDup_app; [assumption|repeat constructor; intros []|].
        intros x Hx [<-|[]]. contradiction.
    + split.
      * now rewrite guardedDelete_keeps_base.
      * unfold guardedDelete. destruct (negb (truthy (isBase l)));
          [|assumption].
        cbn [removeLayer activeData withLayers layers].
        now apply ids_filter_NoDup.
    + pose proof (StackMore.moveLayer_perm layerId d (editor s)) as Hp.
      split.
      * now rewrite (baseCount_perm _ _ Hp).
      * apply (Permutation_NoDup (l := map layer_id (layers (activeData (editor s)))));
          [|assumption].
        apply Permutation_map. now apply Permutation_sym.
    + cbn [updateLayer activeData withLayers layers].
      destruct (map_update_ids layerId updates
                  (layers (activeData (editor s))) Hu) as [Hids Hcount].
      rewrite Hids, Hcount. split; assumption.
  - cbn [withEditor editor]. unfold toggleLayerVisibility.
    destruct (find _ (layers (activeData (editor s)))) as [l|];
      [|split; assumption].
    cbn [updateLayer activeData withLayers layers].
    destruct (map_update_ids layerId (setVisible (negb (visible l)))
                (layers (activeData (editor s)))) as [Hids Hcount];
      [intro x; split; reflexivity|].
    rewrite Hids, Hcount. split; assumption.
Qed.

(** X27. Through the controls of the first panel the profile of a role
    never loses its Base layer: in every state that uploads (with unused
    random ids, begun in whatever state and finished in whatever
    order), guarded deletes, moves, layer edits, visibility toggles,
    selections, hotspot and size changes can reach from the initial
    profile, the stack holds exactly one Base layer, no two layers share
    an id, and the export succeeds in every format (the [TypeError] of
    the empty stack cannot occur). *)
Theorem first_panel_keeps_one_base (s : Session) :
  panelReachable s ->
  baseCount (layers (activeData (editor s))) = 1%nat /\
  NoDup (map layer_id (layers (activeData (editor s)))) /\
  forall (toBlob : Canvas.Context -> option (list byte))
         (format : Encode.Format),
  exists out,
    Encode.generateExportBlob toBlob (activeData (editor s)) format = Ok out.
Proof.
  intro Hr.
  assert (H : baseCount (layers (activeData (editor s))) = 1%nat /\
              NoDup (map layer_id (layers (activeData (editor s))))).
  { induction Hr as [t|s s' _ IH Hstep].
    - split; [reflexivity|]. cbn. repeat constructor. intros [].
    - exact (stack_invariant_step s s' Hstep IH). }
  destruct H as [Hb Hn]. split; [exact Hb|]. split; [exact Hn|].
  intros toBlob format.
  destruct (EncodeFacts.generateExportBlob_spec toBlob
              (activeData (editor s)) format)
    as (master & out & _ & Hrun & _).
  - intro E. rewrite E in Hb. discriminate.
  - now exists out.
Qed.

Lemma first_panel_keeps_one_base_witness :
  let s := handleUpload "o.png"
             (Ok [ {| image := Samples.pixel; delay := 100 |} ]) None "x1"
             {| editor := initialEditor; activeType := normal;
                error := None |}
             {| editor := initialEditor; activeType := normal;
                error := None |} in
  baseCount (layers (activeData (editor s))) = 1%nat /\
  NoDup (map layer_id (layers (activeData (editor s)))) /\
  forall (toBlob : Canvas.Context -> option (list byte))
         (format : Encode.Format),
  exists out,
    Encode.generateExportBlob toBlob (activeData (editor s)) format = Ok out.
Proof.
  apply (first_panel_keeps_one_base
           (handleUpload "o.png"
              (Ok [ {| image := Samples.pixel; delay := 100 |} ]) None "x1"
              {| editor := initialEditor; activeType := normal;
                 error := None |}
              {| editor := initialEditor; activeType := normal;
                 error := None |})).
  apply (panel_step {| editor := initialEditor; activeType := normal;
                       error := None |}).
  - apply panel_init.
  - apply step_upload. simpl. intros [H|[]]. discriminate.
Defined.

End SessionFacts.

(* ===================================================================== *)
(** ** The hotspot click *)
(* ===================================================================== *)

Module ClickFacts.

Import Num NumFacts Double DoubleFacts Editing.
Import Lqa.
Local Open Scope Q_scope.

(** [2^-1075], half the least positive double, is below [2^-100]. *)
Lemma eta_small : pow2 (-1075) <= 1 # 1267650600228229401496703205376.
Proof.
  assert (Hp : pow2 (-100) == 1 # 1267650600228229401496703205376)
    by reflexivity.
  rewrite <- Hp. apply pow2_mono. lia.
Qed.

(** One coordinate of the click. *)
Lemma click_coordinate (c o rw : Q) (W : Z) :
  1 <= rw -> rw <= 2147483648 -> (0 < W <= 2147483648)%Z ->
  o <= c -> c < o + rw ->
  exists x : Q,
    mul (sub (fin c) (fin o)) (div (fin (inject_Z W)) (fin rw)) = fin x /\
    0 <= x /\ x < inject_Z W + 1.
Proof.
  intros Hrw1 Hrw2 HW Hlo Hhi.
  pose proof (pow2_pos (-1075)) as Heta0. pose proof eta_small as Heta.
  set (eta := pow2 (-1075)) in *.
  assert (HW0 : 0 < inject_Z W)
    by (change 0 with (inject_Z 0); rewrite <- Zlt_Qlt; lia).
  assert (HW1 : inject_Z W <= 2147483648).
  { change 2147483648 with (inject_Z 2147483648). rewrite <- Zle_Qle. lia. }
  (* the difference *)
  unfold sub, opp. cbn [add].
  destruct (round64_bound (c + Qred (- o))) as (d & Hd & Hd0 & Hd1).
  { rewrite Qred_correct. lra. }
  { rewrite Qred_correct. lra. }
  rewrite Qred_correct in Hd1. fold eta in Hd1. rewrite Hd.
  (* the scale *)
  cbn [div].
  replace (Qeq_bool rw 0) with false.
  2:{ symmetry. apply not_true_iff_false. intro H.
      apply Qeq_bool_iff in H. lra. }
  assert (Hq2 : 0 < inject_Z W / rw) by (apply Qlt_shift_div_l; lra).
  assert (Hq2' : inject_Z W / rw <= inject_Z W).
  { apply Qle_shift_div_r; [lra|].
    assert (H : inject_Z W * 1 <= inject_Z W * rw)
      by (apply (proj2 (Qmult_le_l 1 rw (inject_Z W) HW0)); exact Hrw1).
    rewrite Qmult_1_r in H. exact H. }
  destruct (round64_bound (inject_Z W / rw)) as (s & Hs & Hs0 & Hs1);
    [lra|lra|].
  fold eta in Hs1. rewrite Hs. cbn [mul].
  (* the product *)
  set (q2 := inject_Z W / rw) in *.
  set (D := rw + rw * (1 # 9007199254740992) + eta).
  set (S := q2 + q2 * (1 # 9007199254740992) + eta).
  assert (HdD : d <= D) by (unfold D; lra).
  assert (Hprod : d * s <= D * S).
  { apply Qmult_le_compat_nonneg; split; assumption. }
  assert (HWq : rw * q2 == inject_Z W) by (unfold q2; field; lra).
  assert (P1 : eta * rw <= eta * 2147483648)
    by (apply (proj2 (Qmult_le_l rw 2147483648 eta Heta0)); lra).
  assert (P2 : eta * q2 <= eta * 2147483648)
    by (apply (proj2 (Qmult_le_l q2 2147483648 eta Heta0)); lra).
  assert (P3 : eta * eta <= eta * 1)
    by (apply (proj2 (Qmult_le_l eta 1 eta Heta0)); lra).
  assert (P1' : 0 <= eta * rw) by (apply Qmult_le_0_compat; lra).
  assert (P2' : 0 <= eta * q2) by (apply Qmult_le_0_compat; lra).
  assert (Hexp : D * S ==
                 rw * q2 * ((1 + (1 # 9007199254740992))
                            * (1 + (1 # 9007199254740992)))
                 + eta * rw * (1 + (1 # 9007199254740992))
                 + eta * q2 * (1 + (1 # 9007199254740992))
                 + eta * eta) by (unfold D, S; ring).
  rewrite HWq in Hexp.
  assert (Hq3 : d * s <= inject_Z W + (1 # 1000)).
  { rewrite Hexp in Hprod.
    set (p1 := eta * rw) in *. set (p2 := eta * q2) in *.
    set (p3 := eta * eta) in *. lra. }
  assert (Hq30 : 0 <= d * s) by (apply Qmult_le_0_compat; assumption).
  destruct (round64_bound (d * s)) as (x & Hx & Hx0 & Hx1); [lra|lra|].
  exists x. split; [exact Hx|]. split; [exact Hx0|]. fold eta in Hx1. lra.
Qed.

Lemma floor_bounds (x : Q) (W : Z) :
  0 <= x -> x < inject_Z W + 1 -> (0 <= Qfloor x <= W)%Z.
Proof.
  intros H0 H1. split.
  - change 0%Z with (Qfloor 0). now apply Qfloor_resp_le.
  - pose proof (Qfloor_le x) as Hf.
    assert (H : inject_Z (Qfloor x) < inject_Z (W + 1)).
    { rewrite inject_Z_plus. change (inject_Z 1) with 1. lra. }
    rewrite <- Zlt_Qlt in H. lia.
Qed.

(** X26. A click inside the box of the editing canvas, in the
    arithmetic of doubles: with a box from 1 to 2^31 pixels wide, a
    canvas of positive width up to 2^31 and a pointer position within
    the box (a square one, as the canvas is), both coordinates are
    finite whole numbers from 0 to the canvas width, the width itself
    included, which is one past the last pixel: the quotient and the
    product round, and the product can reach the width.  A click at
    104.99999999999999 in a box of 105 pixels on a canvas of 32 stores
    the coordinate 32; a click at 49 in a box of 98 pixels stores 15,
    where the exact product is 16. *)
Theorem clickHotspot_on_canvas :
  (forall (clientX clientY rectLeft rectTop rectWidth : Q) (canvasWidth : Z),
      1 <= rectWidth -> rectWidth <= 2147483648 ->
      (0 < canvasWidth <= 2147483648)%Z ->
      rectLeft <= clientX -> clientX < rectLeft + rectWidth ->
      rectTop <= clientY -> clientY < rectTop + rectWidth ->
      exists h,
        clickHotspot clientX clientY rectLeft rectTop rectWidth canvasWidth
        = Some h /\
        (0 <= hot_x h <= canvasWidth)%Z /\ (0 <= hot_y h <= canvasWidth)%Z)
  /\
  clickHotspot 49 0 0 0 98 32 = Some {| hot_x := 15; hot_y := 0 |}
  /\
  clickHotspot (7388718138654719 # 70368744177664) 0 0 0 105 32
  = Some {| hot_x := 32; hot_y := 0 |}.
Proof.
  split; [|split; vm_compute; reflexivity].
  intros cx cy rl rt rw W Hrw1 Hrw2 HW Hx1 Hx2 Hy1 Hy2.
  destruct (click_coordinate cx rl rw W Hrw1 Hrw2 HW Hx1 Hx2)
    as (x & Hx & Hx0 & HxW).
  destruct (click_coordinate cy rt rw W Hrw1 Hrw2 HW Hy1 Hy2)
    as (y & Hy & Hy0 & HyW).
  unfold clickHotspot. cbv zeta. rewrite Hx, Hy. cbn [floor].
  eexists. split; [reflexivity|]. cbn [hot_x hot_y].
  rewrite !Qfloor_Z. split; now apply floor_bounds.
Qed.

Lemma clickHotspot_on_canvas_witness :
  exists h,
    clickHotspot 250 130 100 100 320 32 = Some h /\
    (0 <= hot_x h <= 32)%Z /\ (0 <= hot_y h <= 32)%Z.
Proof.
  apply (proj1 clickHotspot_on_canvas 250 130 100 100 320 32%Z);
    try reflexivity; try discriminate. lia.
Defined.

End ClickFacts.
